(** * Longevity: anonymization, structured recovery, normalization and merge

    A shallow embedding of the core of the repository
    (anonymizationService, aiService, analysisService) and the
    properties its specification states about it.

    JavaScript strings are sequences of UTF-16 code units, numbers are
    IEEE 754 binary64 values (Rocq's primitive floats), regular
    expressions are run by a backtracking matcher that follows the
    ECMAScript matching order. *)

From Stdlib Require Import ZArith NArith List Bool Lia String Ascii Floats.
From Stdlib Require Import SpecFloat.
Import ListNotations.

Set Warnings "-inexact-float,-register-all".

(* ================================================================== *)
(** * JavaScript strings *)
(* ================================================================== *)

Module JsString.

Open Scope N_scope.

(** A string is the list of its UTF-16 code units. *)
Definition jsstring := list N.

(** Source text is written as UTF-8 literals; [decode] turns the bytes
    into code units (code points above the BMP become surrogate pairs). *)
Fixpoint decode (fuel : nat) (bs : list N) : jsstring :=
  match fuel with
  | O => []
  | S fuel =>
    match bs with
    | [] => []
    | b :: r =>
      if b <? 128 then b :: decode fuel r
      else if b <? 224 then
        match r with
        | b2 :: r' => ((b mod 32) * 64 + b2 mod 64) :: decode fuel r'
        | _ => [b]
        end
      else if b <? 240 then
        match r with
        | b2 :: b3 :: r' =>
            ((b mod 16) * 4096 + (b2 mod 64) * 64 + b3 mod 64) :: decode fuel r'
        | _ => [b]
        end
      else
        match r with
        | b2 :: b3 :: b4 :: r' =>
            let cp := (b mod 8) * 262144 + (b2 mod 64) * 4096
                      + (b3 mod 64) * 64 + b4 mod 64 in
            let v := cp - 65536 in
            (55296 + v / 1024) :: (56320 + v mod 1024) :: decode fuel r'
        | _ => [b]
        end
    end
  end.

Definition bytes_of (s : string) : list N :=
  List.map N_of_ascii (list_ascii_of_string s).

Definition js (s : string) : jsstring :=
  let bs := bytes_of s in decode (List.length bs) bs.

(** [jsq] is [js] with every apostrophe read as a double quote, to
    write JSON text. *)
Definition jsq (s : string) : jsstring :=
  List.map (fun c => if c =? 39 then 34 else c) (js s).

Fixpoint str_eqb (a b : jsstring) : bool :=
  match a, b with
  | [], [] => true
  | x :: a', y :: b' => (x =? y) && str_eqb a' b'
  | _, _ => false
  end.

(** ** Character predicates *)

Definition between (lo hi c : N) : bool := (lo <=? c) && (c <=? hi).

Definition is_digit (c : N) : bool := between 48 57 c.

(** [\w] without the unicode flag: ASCII letters, digits, underscore. *)
Definition is_word (c : N) : bool :=
  between 97 122 c || between 65 90 c || between 48 57 c || (c =? 95).

(** [\s], and the characters [trim] strips: WhiteSpace and
    LineTerminator of ECMAScript. *)
Definition is_space (c : N) : bool :=
  between 9 13 c || (c =? 32) || (c =? 160) || (c =? 5760)
  || between 8192 8202 c || (c =? 8232) || (c =? 8233) || (c =? 8239)
  || (c =? 8287) || (c =? 12288) || (c =? 65279).

(** ** String methods *)

Fixpoint drop_space (s : jsstring) : jsstring :=
  match s with
  | c :: r => if is_space c then drop_space r else s
  | [] => []
  end.

Definition trimStart (s : jsstring) : jsstring := drop_space s.
Definition trimEnd (s : jsstring) : jsstring := rev (drop_space (rev s)).
Definition trim (s : jsstring) : jsstring := trimEnd (trimStart s).

Fixpoint startsWith (s p : jsstring) : bool :=
  match p, s with
  | [], _ => true
  | x :: p', y :: s' => (x =? y) && startsWith s' p'
  | _ :: _, [] => false
  end.

Definition endsWith (s p : jsstring) : bool := startsWith (rev s) (rev p).

(** [s.includes(p)] *)
Fixpoint includes (s p : jsstring) : bool :=
  startsWith s p ||
  match s with
  | [] => false
  | _ :: s' => includes s' p
  end.

(** [s.replace(p, r)] with a string pattern: the first occurrence only. *)
Fixpoint replace_str (s p r : jsstring) : jsstring :=
  if startsWith s p then r ++ skipn (List.length p) s
  else match s with
       | [] => []
       | c :: s' => c :: replace_str s' p r
       end.

(** [parts.join(sep)] *)
Fixpoint join (sep : jsstring) (parts : list jsstring) : jsstring :=
  match parts with
  | [] => []
  | [p] => p
  | p :: ps => p ++ sep ++ join sep ps
  end.

(** [s.split(sep)[0]] for a one-character separator. *)
Fixpoint split_first (sep : N) (s : jsstring) : jsstring :=
  match s with
  | [] => []
  | c :: r => if c =? sep then [] else c :: split_first sep r
  end.

End JsString.
Import JsString.

(* ================================================================== *)
(** * Regular expressions *)
(* ================================================================== *)

(** The matcher covers the constructs the source's patterns use:
    character classes, sequence, alternation, the greedy optional
    [r?], greedy quantifiers over a character class, capturing groups
    (none of them nested or quantified in the source), [\b], [^] and
    [$], with or without the [i] flag.  It is written in
    continuation-passing style like the ECMAScript specification's
    matchers, so alternatives are tried in the order an engine tries
    them. *)
Module Regex.

Open Scope N_scope.

Inductive citem :=
| One (c : N)
| Range (lo hi : N)
| Digit
| Space
| Word
| NonSpace.

Definition class := list citem.

Inductive regex :=
| Eps
| Cls (cs : class)
| Seq (a b : regex)
| Alt (a b : regex)
| Opt (a : regex)
| Rep (cs : class) (mn : nat) (mx : option nat)
| Grp (a : regex)
| WordB
| Bos
| Eos.

Record RegExp := mkRegExp { source : regex; ignoreCase : bool }.

(** Case folding.  Canonicalize of ECMAScript (no unicode flag) maps a
    code unit to its upper case; the tables below cover ASCII and the
    Polish letters, the only cased letters the patterns contain, and
    no other code unit folds onto one of those. *)
Definition case_pairs : list (N * N) :=
  [ (260, 261); (262, 263); (280, 281); (321, 322); (323, 324);
    (211, 243); (346, 347); (377, 378); (379, 380) ].

Fixpoint upper_in (t : list (N * N)) (c : N) : N :=
  match t with
  | [] => c
  | (u, l) :: t' => if c =? l then u else upper_in t' c
  end.

Fixpoint lower_in (t : list (N * N)) (c : N) : N :=
  match t with
  | [] => c
  | (u, l) :: t' => if c =? u then l else lower_in t' c
  end.

Definition canonicalize (c : N) : N :=
  if between 97 122 c then c - 32 else upper_in case_pairs c.

Definition to_lower (c : N) : N :=
  if between 65 90 c then c + 32 else lower_in case_pairs c.

Definition item_has (it : citem) (c : N) : bool :=
  match it with
  | One x => c =? x
  | Range lo hi => between lo hi c
  | Digit => is_digit c
  | Space => is_space c
  | Word => is_word c
  | NonSpace => negb (is_space c)
  end.

Definition class_has (cs : class) (c : N) : bool :=
  existsb (fun it => item_has it c) cs.

(** With the [i] flag a class matches [c] when it holds a member with
    the same canonical form. *)
Definition in_class (ci : bool) (cs : class) (c : N) : bool :=
  if ci then class_has cs (canonicalize c) || class_has cs (to_lower (canonicalize c))
  else class_has cs c.

(** Matcher state: the code unit before the current position (for
    [\b]), the input that is left, the index, and the captures of the
    groups closed so far, in order. *)
Record mstate := mkState {
  prev : option N;
  rest : jsstring;
  pos : nat;
  caps : list jsstring
}.

Definition cont := mstate -> option mstate.

Definition is_word_opt (o : option N) : bool :=
  match o with Some c => is_word c | None => false end.

Definition dec_max (mx : option nat) : option nat :=
  match mx with Some n => Some (Nat.pred n) | None => None end.

Definition max_is_zero (mx : option nat) : bool :=
  match mx with Some O => true | _ => false end.

(** Greedy repetition of a class: take as many as allowed, then give
    back one at a time. *)
Fixpoint rep (ci : bool) (cs : class) (mn : nat) (mx : option nat)
    (k : cont) (pv : option N) (s : jsstring) (p : nat) (cp : list jsstring)
    : option mstate :=
  let stay := match mn with
              | O => k (mkState pv s p cp)
              | S _ => None
              end in
  match s with
  | c :: s' =>
    if in_class ci cs c && negb (max_is_zero mx) then
      match rep ci cs (Nat.pred mn) (dec_max mx) k (Some c) s' (S p) cp with
      | Some r => Some r
      | None => stay
      end
    else stay
  | [] => stay
  end.

Fixpoint m (ci : bool) (r : regex) (k : cont) (st : mstate) : option mstate :=
  match r with
  | Eps => k st
  | Cls cs =>
    match rest st with
    | c :: s' =>
      if in_class ci cs c then k (mkState (Some c) s' (S (pos st)) (caps st))
      else None
    | [] => None
    end
  | Seq a b => m ci a (m ci b k) st
  | Alt a b =>
    match m ci a k st with
    | Some r => Some r
    | None => m ci b k st
    end
  | Opt a =>
    match m ci a (fun st' => if Nat.eqb (pos st') (pos st) then None else k st') st with
    | Some r => Some r
    | None => k st
    end
  | Rep cs mn mx => rep ci cs mn mx k (prev st) (rest st) (pos st) (caps st)
  | Grp a =>
    m ci a (fun st' =>
      k (mkState (prev st') (rest st') (pos st')
           (caps st' ++ [firstn (pos st' - pos st) (rest st)]))) st
  | WordB =>
    if xorb (is_word_opt (prev st)) (is_word_opt (hd_error (rest st)))
    then k st else None
  | Bos => if Nat.eqb (pos st) 0 then k st else None
  | Eos => match rest st with [] => k st | _ :: _ => None end
  end.

Definition match_at (re : RegExp) (pv : option N) (s : jsstring) (p : nat)
    : option mstate :=
  m (ignoreCase re) (source re) (fun st => Some st) (mkState pv s p []).

(** The result of a successful search: where the match starts, the
    matched text, the captures, and what follows the match. *)
Record found := mkFound {
  index : nat;
  matched : jsstring;
  groups : list jsstring;
  after_prev : option N;
  after : jsstring
}.

(** Leftmost match at or after the current position. *)
Fixpoint search_from (re : RegExp) (pv : option N) (s : jsstring) (p : nat)
    : option found :=
  match match_at re pv s p with
  | Some st =>
      Some (mkFound p (firstn (pos st - p) s) (caps st) (prev st) (rest st))
  | None =>
    match s with
    | [] => None
    | c :: s' => search_from re (Some c) s' (S p)
    end
  end.

(** [re.exec(s)] / [s.match(re)] for a pattern without the [g] flag. *)
Definition exec (re : RegExp) (s : jsstring) : option found :=
  search_from re None s 0.

(** [re.test(s)] *)
Definition test (re : RegExp) (s : jsstring) : bool :=
  match exec re s with Some _ => true | None => false end.

(** [s.replace(re, by)] for a pattern without the [g] flag. *)
Definition replace_first (re : RegExp) (by_ : jsstring) (s : jsstring) : jsstring :=
  match exec re s with
  | Some f => firstn (index f) s ++ by_ ++ after f
  | None => s
  end.

(** [s.replace(re, by)] for a pattern with the [g] flag.  [skip] counts
    the code units of the last match that are still to be passed
    over; an empty match steps one code unit forward. *)
Fixpoint replace_loop (re : RegExp) (by_ : jsstring) (skip : nat)
    (pv : option N) (s : jsstring) (p : nat) : jsstring :=
  match skip with
  | S n =>
    match s with
    | [] => []
    | c :: s' => replace_loop re by_ n (Some c) s' (S p)
    end
  | O =>
    match match_at re pv s p with
    | Some st =>
      by_ ++
      match s with
      | [] => []
      | c :: s' =>
        match (pos st - p)%nat with
        | O => c :: replace_loop re by_ 0 (Some c) s' (S p)
        | S n => replace_loop re by_ n (Some c) s' (S p)
        end
      end
    | None =>
      match s with
      | [] => []
      | c :: s' => c :: replace_loop re by_ 0 (Some c) s' (S p)
      end
    end
  end.

Definition replace_all (re : RegExp) (by_ : jsstring) (s : jsstring) : jsstring :=
  replace_loop re by_ 0 None s 0.

(** ** Pattern syntax *)

Definition chr (c : N) : regex := Cls [One c].

Fixpoint seq (l : list regex) : regex :=
  match l with
  | [] => Eps
  | [r] => r
  | r :: l' => Seq r (seq l')
  end.

Fixpoint alt (l : list regex) : regex :=
  match l with
  | [] => Eps
  | [r] => r
  | r :: l' => Alt r (alt l')
  end.

Definition lit (s : string) : regex := seq (List.map chr (js s)).

Definition star (cs : class) : regex := Rep cs 0 None.
Definition plus (cs : class) : regex := Rep cs 1 None.
Definition times (cs : class) (n : nat) : regex := Rep cs n (Some n).
Definition from_to (cs : class) (lo hi : nat) : regex := Rep cs lo (Some hi).
Definition at_least (cs : class) (n : nat) : regex := Rep cs n None.

Definition chars (s : string) : class := List.map One (js s).

End Regex.
Import Regex.

(* ================================================================== *)
(** * JavaScript numbers *)
(* ================================================================== *)

Module JsNumber.

Open Scope Z_scope.

Definition isNaN (x : float) : bool := negb (PrimFloat.eqb x x).

(** [x >= y] and [x <= y]; both are false when an operand is NaN. *)
Definition ge (x y : float) : bool := PrimFloat.leb y x.
Definition le (x y : float) : bool := PrimFloat.leb x y.
Definition gt (x y : float) : bool := PrimFloat.ltb y x.

Definition of_Z (n : Z) : float := SF2Prim (binary_normalize prec emax n 0 false).

(** The double nearest to [m * 10^e], ties to even: the Number value
    of a decimal literal. *)
Definition of_decimal (neg : bool) (m : Z) (e : Z) : float :=
  match m with
  | Zpos _ =>
    if 0 <=? e then SF2Prim (binary_normalize prec emax ((if neg then - m else m) * 10 ^ e) 0 false)
    else
      let '(mz, ez, lz) := SFdiv_core_binary prec emax m 0 (10 ^ (- e)) 0 in
      SF2Prim (binary_round_aux prec emax neg mz ez lz)
  | _ => if neg then neg_zero else zero
  end.

(** [Math.round]: the nearest integer, halves towards +infinity. *)
Definition Math_round (x : float) : float :=
  match Prim2SF x with
  | S754_finite s mm e =>
    if 0 <=? e then x
    else
      let sm := if s then Z.neg mm else Z.pos mm in
      let n := (2 * sm + 2 ^ (- e)) / 2 ^ (- e + 1) in
      SF2Prim (binary_normalize prec emax n 0 s)
  | _ => x
  end.

Definition Math_abs (x : float) : float := PrimFloat.abs x.

(** ** Reading digits *)

Definition digit_val (c : N) : Z := Z.of_N c - 48.

(** The longest prefix of digits: its value, its length, the rest. *)
Fixpoint read_digits (acc : Z) (n : Z) (s : jsstring) : Z * Z * jsstring :=
  match s with
  | c :: r => if is_digit c then read_digits (acc * 10 + digit_val c) (n + 1) r
              else (acc, n, s)
  | [] => (acc, n, s)
  end.

(** [parseInt(s, 10)]; [None] is NaN.  The result is an integer, kept
    as one. *)
Definition parseInt (s : jsstring) : option Z :=
  let s1 := trimStart s in
  let '(neg, s2) :=
    match s1 with
    | 45%N :: r => (true, r)
    | 43%N :: r => (false, r)
    | _ => (false, s1)
    end in
  let '(v, n, _) := read_digits 0 0 s2 in
  if n =? 0 then None else Some (if neg then - v else v).

(** The exponent part of a decimal literal, when there is a complete
    one: [e], an optional sign, at least one digit. *)
Definition read_exponent (s : jsstring) : Z :=
  match s with
  | c :: r =>
    if (c =? 101)%N || (c =? 69)%N then
      let '(neg, r') :=
        match r with
        | 45%N :: t => (true, t)
        | 43%N :: t => (false, t)
        | _ => (false, r)
        end in
      let '(v, n, _) := read_digits 0 0 r' in
      if n =? 0 then 0 else if neg then - v else v
    else 0
  | [] => 0
  end.

(** [parseFloat(s)]: the longest prefix of the trimmed string that is
    a StrDecimalLiteral; NaN when there is none. *)
Definition parseFloat (s : jsstring) : float :=
  let s1 := trimStart s in
  let '(neg, s2) :=
    match s1 with
    | 45%N :: r => (true, r)
    | 43%N :: r => (false, r)
    | _ => (false, s1)
    end in
  if startsWith s2 (js "Infinity") then (if neg then neg_infinity else infinity)
  else
    let '(ip, ni, s3) := read_digits 0 0 s2 in
    let '(fp, nf, s4) :=
      match s3 with
      | 46%N :: r => read_digits ip 0 r
      | _ => (ip, 0, s3)
      end in
    if (ni =? 0) && (nf =? 0) then nan
    else of_decimal neg fp (read_exponent s4 - nf).

(** ** Printing *)

Fixpoint digits_of (fuel : nat) (n : Z) (acc : jsstring) : jsstring :=
  match fuel with
  | O => acc
  | S fuel =>
    let acc' := Z.to_N (n mod 10 + 48) :: acc in
    if n <? 10 then acc' else digits_of fuel (n / 10) acc'
  end.

(** Decimal digits of a natural number. *)
Definition Z_to_digits (n : Z) : jsstring :=
  digits_of (S (Z.to_nat (Z.log2 n))) n [].

Fixpoint strip_zeros (fuel : nat) (s : Z) (n : Z) : Z * Z :=
  match fuel with
  | O => (s, n)
  | S fuel => if (s mod 10 =? 0) && (0 <? s) then strip_zeros fuel (s / 10) n else (s, n)
  end.

(** [v = p / q > 0]: the [n] with [10^(n-1) <= v < 10^n]. *)
Fixpoint magnitude (fuel : nat) (p q : Z) (n : Z) : Z :=
  match fuel with
  | O => n
  | S fuel =>
    let lo_ok := if 1 <=? n then q * 10 ^ (n - 1) <=? p else q <=? p * 10 ^ (1 - n) in
    let hi_ok := if 0 <=? n then p <? q * 10 ^ n else p * 10 ^ (- n) <? q in
    if negb lo_ok then magnitude fuel p q (n - 1)
    else if negb hi_ok then magnitude fuel p q (n + 1)
    else n
  end.

(** Whether the decimal [s * 10^e] reads back as [x]. *)
Definition reads_back (x : float) (s e : Z) : bool :=
  PrimFloat.eqb (of_decimal false s e) x.

(** The shortest digits [s] (with exponent [e10]) that read back as
    [x = p / q]; of two candidates of one length, the nearer one. *)
Fixpoint shortest (fuel : nat) (x : float) (p q n : Z) (k : Z) : Z * Z :=
  match fuel with
  | O => (0, 0)
  | S fuel =>
    let e := n - k in
    let lo := if 0 <=? e then p / (q * 10 ^ e) else (p * 10 ^ (- e)) / q in
    let hi := lo + 1 in
    let okl := (0 <? lo) && reads_back x lo e in
    let okh := reads_back x hi e in
    (* distance of v to lo and to hi, scaled by the same factor *)
    let num := if 0 <=? e then p else p * 10 ^ (- e) in
    let den := if 0 <=? e then q * 10 ^ e else q in
    let dl := num - lo * den in
    let dh := hi * den - num in
    if okl && okh then
      if dl <? dh then (lo, e)
      else if dh <? dl then (hi, e)
      else if Z.even lo then (lo, e) else (hi, e)
    else if okl then (lo, e)
    else if okh then (hi, e)
    else shortest fuel x p q n (k + 1)
  end.

Definition repeat_zero (n : Z) : jsstring := List.repeat 48%N (Z.to_nat n).

(** Number::toString of ECMAScript, radix 10. *)
Definition Number_toString (x : float) : jsstring :=
  match Prim2SF x with
  | S754_nan => js "NaN"
  | S754_zero _ => js "0"
  | S754_infinity s => if s then js "-Infinity" else js "Infinity"
  | S754_finite sg mm e =>
    let p := if 0 <=? e then Z.pos mm * 2 ^ e else Z.pos mm in
    let q := if 0 <=? e then 1 else 2 ^ (- e) in
    let n0 := magnitude 2000 p q (((Z.log2 p - Z.log2 q) * 30103) / 100000) in
    let '(s0, e0) := shortest 18 (PrimFloat.abs x) p q n0 1 in
    let '(s, _) := strip_zeros 400 s0 0 in
    let ds := Z_to_digits s in
    let k := Z.of_nat (List.length ds) in
    let n := magnitude 2000 s 1 k + (e0 + (Z.of_nat (List.length (Z_to_digits s0)) - k)) in
    let body :=
      if (k <=? n) && (n <=? 21) then ds ++ repeat_zero (n - k)
      else if (0 <? n) && (n <=? 21) then
        firstn (Z.to_nat n) ds ++ js "." ++ skipn (Z.to_nat n) ds
      else if (-6 <? n) && (n <=? 0) then
        js "0." ++ repeat_zero (- n) ++ ds
      else
        let ex := n - 1 in
        let es := (if 0 <=? ex then js "+" else js "-") ++ Z_to_digits (Z.abs ex) in
        match ds with
        | [d] => d :: js "e" ++ es
        | d :: r => d :: js "." ++ r ++ js "e" ++ es
        | [] => []
        end in
    if sg then js "-" ++ body else body
  end.

End JsNumber.
Import JsNumber.


(* ================================================================== *)
(** * JavaScript values, errors, dates *)
(* ================================================================== *)

Module JsValue.

(** The loosely typed values the services receive: what [JSON.parse]
    produces, and [undefined]. *)
Inductive jsval :=
| VUndefined
| VNull
| VBool (b : bool)
| VNum (x : float)
| VStr (s : jsstring)
| VArr (items : list jsval)
| VObj (fields : list (jsstring * jsval)).

Inductive error :=
| Error (message : jsstring)
| TypeError.

(** A call either returns or throws. *)
Inductive outcome (A : Type) :=
| Returned (a : A)
| Thrown (e : error).
Arguments Returned {A} a.
Arguments Thrown {A} e.

Definition bind {A B : Type} (x : outcome A) (f : A -> outcome B) : outcome B :=
  match x with
  | Returned a => f a
  | Thrown e => Thrown e
  end.

Notation "'do' x <- c1 ;; c2" := (bind c1 (fun x => c2))
  (at level 61, x pattern, c1 at next level, right associativity).

Fixpoint mapM {A B : Type} (f : A -> outcome B) (l : list A) : outcome (list B) :=
  match l with
  | [] => Returned []
  | a :: l' => do b <- f a ;; do bs <- mapM f l' ;; Returned (b :: bs)
  end.

(** ToBoolean *)
Definition truthy (v : jsval) : bool :=
  match v with
  | VUndefined | VNull => false
  | VBool b => b
  | VNum x => negb (isNaN x || PrimFloat.eqb x 0)
  | VStr s => match s with [] => false | _ => true end
  | VArr _ | VObj _ => true
  end.

(** [a || b] *)
Definition or_else (a b : jsval) : jsval := if truthy a then a else b.

(** The last field of that name (a later duplicate key overrides an
    earlier one). *)
Fixpoint lookup (fields : list (jsstring * jsval)) (k : jsstring) : jsval :=
  match fields with
  | [] => VUndefined
  | (k', v) :: r =>
    match lookup r k with
    | VUndefined => if str_eqb k' k then v else VUndefined
    | w => w
    end
  end.

(** [v.k] for the property names the services read ([value], [name],
    [unit], [optimalRange], [min], [max], [description], [type],
    [size], [biomarkers], [positives], [priorities], [title],
    [actionType], [impact], [priority]), none of which a primitive or
    an array owns: reading one off [undefined] or [null] throws, off
    any other non-object it is [undefined]. *)
Definition get (v : jsval) (k : string) : outcome jsval :=
  match v with
  | VUndefined | VNull => Thrown TypeError
  | VObj fields => Returned (lookup fields (js k))
  | _ => Returned VUndefined
  end.

(** Whether an object has an own property of that name. *)
Definition owns (fields : list (jsstring * jsval)) (k : jsstring) : bool :=
  existsb (fun kv => str_eqb (fst kv) k) fields.

(** [String(v)].  An object is converted by its [toString] method: the
    one of [Object.prototype], unless the object owns a [toString]
    key; the value under such a key is data, not a function, and so is
    what [valueOf] gives, so that the conversion throws a TypeError.
    An array is converted by [Array.prototype.join], which converts
    its elements in order, [undefined] and [null] to the empty string. *)
Fixpoint toString (v : jsval) : outcome jsstring :=
  match v with
  | VUndefined => Returned (js "undefined")
  | VNull => Returned (js "null")
  | VBool b => Returned (if b then js "true" else js "false")
  | VNum x => Returned (Number_toString x)
  | VStr s => Returned s
  | VArr items =>
    do parts <-
      (fix each (l : list jsval) : outcome (list jsstring) :=
         match l with
         | [] => Returned []
         | i :: l' =>
           do p <- match i with
                   | VUndefined | VNull => Returned []
                   | _ => toString i
                   end ;;
           do ps <- each l' ;;
           Returned (p :: ps)
         end) items ;;
    Returned (join (js ",") parts)
  | VObj fields =>
    if owns fields (js "toString") then Thrown TypeError
    else Returned (js "[object Object]")
  end.

End JsValue.
Import JsValue.

Module JsDate.

Open Scope Z_scope.

Definition msPerDay : Z := 86400000.

(** Day number (days since 1970-01-01) of the first of a month. *)
Definition days_from_civil (y m d : Z) : Z :=
  let y' := if m <=? 2 then y - 1 else y in
  let era := y' / 400 in
  let yoe := y' - era * 400 in
  let doy := (153 * (m + (if 2 <? m then -3 else 9)) + 2) / 5 + d - 1 in
  let doe := yoe * 365 + yoe / 4 - yoe / 100 + doy in
  era * 146097 + doe - 719468.

Definition civil_from_days (z0 : Z) : Z * Z * Z :=
  let z := z0 + 719468 in
  let era := z / 146097 in
  let doe := z - era * 146097 in
  let yoe := (doe - doe / 1460 + doe / 36524 - doe / 146096) / 365 in
  let doy := doe - (365 * yoe + yoe / 4 - yoe / 100) in
  let mp := (5 * doy + 2) / 153 in
  let d := doy - (153 * mp + 2) / 5 + 1 in
  let m := if mp <? 10 then mp + 3 else mp - 9 in
  ((if m <=? 2 then yoe + era * 400 + 1 else yoe + era * 400), m, d).

(** [Date.UTC(year, month, date)] on integers: the time value in
    milliseconds (MakeDay, MakeDate; years 0..99 mean 1900..1999). *)
Definition Date_UTC (year month date : Z) : Z :=
  let yr := if (0 <=? year) && (year <=? 99) then 1900 + year else year in
  let ym := yr + month / 12 in
  let mn := month mod 12 in
  (days_from_civil ym (mn + 1) 1 + date - 1) * msPerDay.

Definition getUTCFullYear (tv : Z) : Z := fst (fst (civil_from_days (tv / msPerDay))).
Definition getUTCMonth (tv : Z) : Z := snd (fst (civil_from_days (tv / msPerDay))) - 1.
Definition getUTCDate (tv : Z) : Z := snd (civil_from_days (tv / msPerDay)).

(** [n] in decimal, padded with zeros to [w] digits. *)
Definition pad (w : nat) (n : Z) : jsstring :=
  let ds := Z_to_digits n in
  List.repeat 48%N (w - List.length ds) ++ ds.

(** [date.toISOString()] of a valid time value. *)
Definition toISOString (tv : Z) : jsstring :=
  let '(y, m, d) := civil_from_days (tv / msPerDay) in
  let t := tv mod msPerDay in
  let ys := if (0 <=? y) && (y <=? 9999) then pad 4 y
            else (if y <? 0 then js "-" else js "+") ++ pad 6 (Z.abs y) in
  ys ++ js "-" ++ pad 2 m ++ js "-" ++ pad 2 d ++ js "T"
     ++ pad 2 (t / 3600000) ++ js ":" ++ pad 2 (t / 60000 mod 60) ++ js ":"
     ++ pad 2 (t / 1000 mod 60) ++ js "." ++ pad 3 (t mod 1000) ++ js "Z".

End JsDate.
Import JsDate.

(* ================================================================== *)
(** * anonymizationService *)
(* ================================================================== *)

Module AnonymizationService.

Definition upperPL : class := Range 65 90 :: chars "ĄĆĘŁŃÓŚŹŻ".
Definition lowerPL : class := Range 97 122 :: chars "ąćęłńóśźż".
Definition AZ : citem := Range 65 90.
Definition az : citem := Range 97 122.
Definition d09 : citem := Range 48 57.

Record MedicalData := mkMedicalData {
  age : option Z;
  weight : option float;
  height : option Z;
  gender : option jsstring;
  testDate : option jsstring
}.

(** [match[i]] *)
Definition group (f : found) (i : nat) : jsstring := nth (i - 1) (groups f) [].

(** The first pattern, in order, whose match yields an accepted value. *)
Fixpoint first_accepted {A : Type} (try : RegExp -> option A) (ps : list RegExp)
    : option A :=
  match ps with
  | [] => None
  | p :: ps' =>
    match try p with
    | Some a => Some a
    | None => first_accepted try ps'
    end
  end.

Definition agePatterns : list RegExp :=
  [ mkRegExp (seq [alt [lit "wiek"; lit "age"; lit "lat"; seq [lit "year"; Opt (lit "s")]];
                   star [Space; One 58]; Grp (from_to [Digit] 1 3)]) true;
    mkRegExp (seq [Grp (from_to [Digit] 1 3); star [Space];
                   alt [lit "lat"; seq [lit "year"; Opt (lit "s")]; lit "roku"]]) true ].

Definition extractAge (content : jsstring) : option Z :=
  first_accepted (fun pattern =>
    match exec pattern content with
    | Some mt =>
      match parseInt (group mt 1) with
      | Some a => if (1 <=? a)%Z && (a <=? 120)%Z then Some a else None
      | None => None
      end
    | None => None
    end) agePatterns.

Definition decimal : regex :=
  Grp (seq [plus [Digit]; Opt (seq [lit "."; plus [Digit]])]).

Definition weightPatterns : list RegExp :=
  [ mkRegExp (seq [alt [lit "masa"; lit "weight"; lit "waga"]; star [Space; One 58];
                   decimal; star [Space]; alt [lit "kg"; lit "kilogram"]]) true;
    mkRegExp (seq [decimal; star [Space]; lit "kg"]) true ].

Definition extractWeight (content : jsstring) : option float :=
  first_accepted (fun pattern =>
    match exec pattern content with
    | Some mt =>
      let w := parseFloat (group mt 1) in
      if ge w 20 && le w 300 then Some w else None
    | None => None
    end) weightPatterns.

Definition heightPatterns : list RegExp :=
  [ mkRegExp (seq [alt [lit "wzrost"; lit "height"; lit "wysokość"]; star [Space; One 58];
                   Grp (from_to [Digit] 2 3); star [Space];
                   alt [lit "cm"; lit "centymetr"]]) true;
    mkRegExp (seq [Grp (from_to [Digit] 2 3); star [Space]; lit "cm"]) true ].

Definition extractHeight (content : jsstring) : option Z :=
  first_accepted (fun pattern =>
    match exec pattern content with
    | Some mt =>
      match parseInt (group mt 1) with
      | Some h => if (100 <=? h)%Z && (h <=? 250)%Z then Some h else None
      | None => None
      end
    | None => None
    end) heightPatterns.

Definition malePatterns : list RegExp :=
  [ mkRegExp (seq [alt [lit "płeć"; lit "gender"]; star [Space; One 58];
                   Cls (chars "Mm")]) true;
    mkRegExp (alt [lit "mężczyzna"; lit "male"; seq [lit "m"; WordB]]) true ].

Definition femalePatterns : list RegExp :=
  [ mkRegExp (seq [alt [lit "płeć"; lit "gender"]; star [Space; One 58];
                   Cls (chars "FfKk")]) true;
    mkRegExp (alt [lit "kobieta"; lit "female"; seq [lit "f"; WordB]]) true ].

Definition extractGender (content : jsstring) : option jsstring :=
  if existsb (fun pattern => test pattern content) malePatterns then Some (js "M")
  else if existsb (fun pattern => test pattern content) femalePatterns then Some (js "F")
  else None.

(** The date patterns with the order in which each lists day, month
    and year: [true] for day first, [false] for year first. *)
Definition datePatterns : list (RegExp * bool) :=
  [ (mkRegExp (seq [Grp (from_to [Digit] 1 2); lit "."; Grp (from_to [Digit] 1 2);
                    lit "."; Grp (times [Digit] 4)]) false, true);
    (mkRegExp (seq [Grp (times [Digit] 4); lit "-"; Grp (from_to [Digit] 1 2);
                    lit "-"; Grp (from_to [Digit] 1 2)]) false, false);
    (mkRegExp (seq [Grp (from_to [Digit] 1 2); lit "/"; Grp (from_to [Digit] 1 2);
                    lit "/"; Grp (times [Digit] 4)]) false, true) ].

Definition accept_date (year month day : Z) : option jsstring :=
  if ((2000 <=? year) && (year <=? 2100) && (1 <=? month) && (month <=? 12)
      && (1 <=? day) && (day <=? 31))%Z
  then
    let date := Date_UTC year (month - 1) day in
    if ((getUTCFullYear date =? year) && (getUTCMonth date =? month - 1)
        && (getUTCDate date =? day))%Z
    then Some (split_first 84 (toISOString date))
    else None
  else None.

Fixpoint extractTestDate_from (ps : list (RegExp * bool)) (content : jsstring)
    : option jsstring :=
  match ps with
  | [] => None
  | (pattern, day_first) :: ps' =>
    let next := extractTestDate_from ps' content in
    match exec pattern content with
    | Some mt =>
      let '(y, mo, d) :=
        if day_first
        then (parseInt (group mt 3), parseInt (group mt 2), parseInt (group mt 1))
        else (parseInt (group mt 1), parseInt (group mt 2), parseInt (group mt 3)) in
      match y, mo, d with
      | Some year, Some month, Some day =>
        match accept_date year month day with
        | Some iso => Some iso
        | None => next
        end
      | _, _, _ => next
      end
    | None => next
    end
  end.

Definition extractTestDate (content : jsstring) : option jsstring :=
  extractTestDate_from datePatterns content.

Definition extractMedicalData (content : jsstring) : MedicalData :=
  mkMedicalData (extractAge content) (extractWeight content)
    (extractHeight content) (extractGender content) (extractTestDate content).

(** ** Redaction *)

Definition namePattern : RegExp :=
  mkRegExp (seq [WordB; Cls upperPL; at_least lowerPL 2; plus [Space];
                 Cls upperPL; at_least lowerPL 2; WordB]) false.

Definition peselPattern : RegExp :=
  mkRegExp (seq [WordB; times [Digit] 11; WordB]) false.

Definition idPattern : RegExp :=
  mkRegExp (seq [WordB; from_to [AZ] 2 3; at_least [Digit] 6; WordB]) false.

Definition addressPattern : RegExp :=
  mkRegExp (seq [WordB; Grp (alt [lit "ul."; lit "ulica"; lit "street"; lit "str."]);
                 plus [Space]; Cls upperPL; plus (lowerPL ++ [Space]);
                 Opt (seq [plus [Digit]; from_to [AZ; az] 0 1])]) true.

Definition phonePattern : RegExp :=
  mkRegExp (seq [WordB; Opt (seq [lit "+48"; from_to [Space] 0 1]);
                 from_to [Digit] 2 3; from_to [Space; One 45] 0 1;
                 times [Digit] 3; from_to [Space; One 45] 0 1;
                 times [Digit] 3; WordB]) false.

Definition emailPattern : RegExp :=
  mkRegExp (seq [WordB; plus ([AZ; az; d09] ++ chars "._%+-"); lit "@";
                 plus ([AZ; az; d09] ++ chars ".-"); lit ".";
                 at_least [AZ; One 124; az] 2; WordB]) false.

Definition institutionPatterns : list RegExp :=
  [ mkRegExp (seq [WordB;
                   Grp (alt [lit "ALAB"; lit "Diagnostyka"; lit "SYNEVO";
                             lit "Medycyna"; lit "Laboratorium"]);
                   star [Space; Word]]) true ].

Definition removePersonalIdentifiers (content : jsstring) : jsstring :=
  let anonymized := content in
  let anonymized := replace_all namePattern (js "[NAME]") anonymized in
  let anonymized := replace_all peselPattern (js "[ID]") anonymized in
  let anonymized := replace_all idPattern (js "[ID]") anonymized in
  let anonymized := replace_all addressPattern (js "[ADDRESS]") anonymized in
  let anonymized := replace_all phonePattern (js "[PHONE]") anonymized in
  let anonymized := replace_all emailPattern (js "[EMAIL]") anonymized in
  fold_left (fun acc pattern => replace_all pattern (js "[INSTITUTION]") acc)
    institutionPatterns anonymized.

(** The messages the validator collects. *)
Definition validation_errors (anonymizedContent : jsstring) (medicalData : MedicalData)
    : list jsstring :=
  (if test namePattern anonymizedContent
   then [js "Potential name detected in anonymized content"] else [])
  ++ (if test peselPattern anonymizedContent
      then [js "Potential PESEL detected in anonymized content"] else [])
  ++ (if test emailPattern anonymizedContent
      then [js "Potential email detected in anonymized content"] else [])
  ++ (match age medicalData with
      | Some a => if negb (a =? 0)%Z && ((a <? 1)%Z || (120 <? a)%Z)
                  then [js "Invalid age extracted"] else []
      | None => []
      end).

Definition validateAnonymization (anonymizedContent : jsstring)
    (medicalData : MedicalData) : outcome unit :=
  match validation_errors anonymizedContent medicalData with
  | [] => Returned tt
  | errors =>
    Thrown (Error (js "Anonymization validation failed: " ++ join (js "; ") errors))
  end.

Record Metadata := mkMetadata {
  fileType : jsval;
  fileSize : jsval;
  anonymizedAt : jsstring
}.

Record Anonymized := mkAnonymized {
  anonymizedContent : jsstring;
  medicalData : MedicalData;
  metadata : Metadata
}.

(** [anonymizeDocument(content, metadata)].  [now] is the clock reading
    [new Date()] takes; an omitted [metadata] is [VUndefined] and
    defaults to the empty object. *)
Definition anonymizeDocument (now : Z) (content : jsval) (metadata_arg : jsval)
    : outcome Anonymized :=
  let metadata := match metadata_arg with VUndefined => VObj [] | v => v end in
  match content with
  | VStr (c :: s) =>
    let content := c :: s in
    let medicalData := extractMedicalData content in
    let anonymizedContent := removePersonalIdentifiers content in
    do _ <- validateAnonymization anonymizedContent medicalData ;;
    do ty <- get metadata "type" ;;
    do sz <- get metadata "size" ;;
    Returned (mkAnonymized anonymizedContent medicalData
                (mkMetadata (or_else ty (VStr (js "unknown")))
                            (or_else sz (VNum 0))
                            (toISOString now)))
  | _ => Thrown (Error (js "Content must be a non-empty string"))
  end.

End AnonymizationService.
Import AnonymizationService.

(* ================================================================== *)
(** * JSON.parse *)
(* ================================================================== *)

Module JSON.

Open Scope N_scope.

Definition is_ws (c : N) : bool := (c =? 9) || (c =? 10) || (c =? 13) || (c =? 32).

Fixpoint skip_ws (s : jsstring) : jsstring :=
  match s with
  | c :: r => if is_ws c then skip_ws r else s
  | [] => []
  end.

Definition hex_val (c : N) : option N :=
  if between 48 57 c then Some (c - 48)
  else if between 97 102 c then Some (c - 87)
  else if between 65 70 c then Some (c - 55)
  else None.

Definition escape (c : N) : option N :=
  if c =? 34 then Some 34          (* quote *)
  else if c =? 92 then Some 92     (* backslash *)
  else if c =? 47 then Some 47     (* slash *)
  else if c =? 98 then Some 8      (* b *)
  else if c =? 102 then Some 12    (* f *)
  else if c =? 110 then Some 10    (* n *)
  else if c =? 114 then Some 13    (* r *)
  else if c =? 116 then Some 9     (* t *)
  else None.

(** The characters of a string literal, after its opening quote. *)
Fixpoint parse_chars (s : jsstring) (acc : jsstring) : option (jsstring * jsstring) :=
  match s with
  | [] => None
  | c :: r =>
    if c =? 34 then Some (rev acc, r)
    else if c =? 92 then
      match r with
      | [] => None
      | e :: r' =>
        if e =? 117 then
          match r' with
          | h1 :: h2 :: h3 :: h4 :: r'' =>
            match hex_val h1, hex_val h2, hex_val h3, hex_val h4 with
            | Some a, Some b, Some c', Some d =>
                parse_chars r'' (((a * 16 + b) * 16 + c') * 16 + d :: acc)
            | _, _, _, _ => None
            end
          | _ => None
          end
        else
          match escape e with
          | Some ch => parse_chars r' (ch :: acc)
          | None => None
          end
      end
    else if c <? 32 then None
    else parse_chars r (c :: acc)
  end.

(** A number: [-? (0 | [1-9] digits) (. digits+)? ([eE] [+-]? digits+)?],
    read part by part. *)
Definition minus (s : jsstring) : bool * jsstring :=
  match s with
  | c :: r => if c =? 45 then (true, r) else (false, s)
  | [] => (false, s)
  end.

Definition integer (s : jsstring) : option (Z * jsstring) :=
  match s with
  | c :: r =>
    if is_digit c then
      if c =? 48 then Some (0%Z, r)
      else let '(ip, _, s2) := read_digits 0 0 s in Some (ip, s2)
    else None
  | [] => None
  end.

Definition fraction (ip : Z) (s : jsstring) : option (Z * Z * jsstring) :=
  match s with
  | c :: t =>
    if c =? 46 then
      let '(fp, nf, s3) := read_digits ip 0 t in
      if (nf =? 0)%Z then None else Some (fp, nf, s3)
    else Some (ip, 0%Z, s)
  | [] => Some (ip, 0%Z, s)
  end.

Definition exponent_sign (s : jsstring) : bool * jsstring :=
  match s with
  | c :: u => if c =? 45 then (true, u) else if c =? 43 then (false, u) else (false, s)
  | [] => (false, s)
  end.

Definition exponent (neg : bool) (mant nf : Z) (s : jsstring)
    : option (float * jsstring) :=
  match s with
  | e :: t =>
    if (e =? 101) || (e =? 69) then
      let '(eneg, t') := exponent_sign t in
      let '(ev, ne, s4) := read_digits 0 0 t' in
      if (ne =? 0)%Z then None
      else Some (of_decimal neg mant ((if eneg then - ev else ev) - nf)%Z, s4)
    else Some (of_decimal neg mant (- nf)%Z, s)
  | [] => Some (of_decimal neg mant (- nf)%Z, s)
  end.

Definition parse_number (s : jsstring) : option (float * jsstring) :=
  let '(neg, s1) := minus s in
  match integer s1 with
  | Some (ip, s2) =>
    match fraction ip s2 with
    | Some (mant, nf, s3) => exponent neg mant nf s3
    | None => None
    end
  | None => None
  end.

Definition parser := jsstring -> option (jsval * jsstring).

(** The input after the code unit [c], when it starts with it. *)
Definition expect (c : N) (s : jsstring) : option jsstring :=
  match s with
  | x :: r => if x =? c then Some r else None
  | [] => None
  end.

(** The members of an object after the opening brace, when it is not
    empty. *)
Fixpoint parse_members (pv : parser) (fuel : nat) (s : jsstring)
    (acc : list (jsstring * jsval)) : option (jsval * jsstring) :=
  match fuel with
  | O => None
  | S fuel =>
    match expect 34 (skip_ws s) with
    | Some r =>
      match parse_chars r [] with
      | Some (k, r1) =>
        match expect 58 (skip_ws r1) with
        | Some r2 =>
          match pv r2 with
          | Some (v, r3) =>
            match skip_ws r3 with
            | c :: r4 =>
              if c =? 44 then parse_members pv fuel r4 ((k, v) :: acc)
              else if c =? 125 then Some (VObj (rev ((k, v) :: acc)), r4)
              else None
            | [] => None
            end
          | None => None
          end
        | None => None
        end
      | None => None
      end
    | None => None
    end
  end.

(** The elements of an array after the opening bracket, when it is not
    empty. *)
Fixpoint parse_elements (pv : parser) (fuel : nat) (s : jsstring)
    (acc : list jsval) : option (jsval * jsstring) :=
  match fuel with
  | O => None
  | S fuel =>
    match pv s with
    | Some (v, r) =>
      match skip_ws r with
      | c :: r' =>
        if c =? 44 then parse_elements pv fuel r' (v :: acc)
        else if c =? 93 then Some (VArr (rev (v :: acc)), r')
        else None
      | [] => None
      end
    | None => None
    end
  end.

(** A value, after optional white space. *)
Fixpoint parse_value (fuel : nat) (s : jsstring) : option (jsval * jsstring) :=
  match fuel with
  | O => None
  | S fuel =>
    match skip_ws s with
    | [] => None
    | c :: r =>
      if c =? 123 then
        match expect 125 (skip_ws r) with
        | Some r' => Some (VObj [], r')
        | None => parse_members (parse_value fuel) fuel r []
        end
      else if c =? 91 then
        match expect 93 (skip_ws r) with
        | Some r' => Some (VArr [], r')
        | None => parse_elements (parse_value fuel) fuel r []
        end
      else if c =? 34 then
        match parse_chars r [] with
        | Some (str, r') => Some (VStr str, r')
        | None => None
        end
      else if startsWith (c :: r) (js "true") then Some (VBool true, skipn 4 (c :: r))
      else if startsWith (c :: r) (js "false") then Some (VBool false, skipn 5 (c :: r))
      else if startsWith (c :: r) (js "null") then Some (VNull, skipn 4 (c :: r))
      else
        match parse_number (c :: r) with
        | Some (x, r') => Some (VNum x, r')
        | None => None
        end
    end
  end.

(** [JSON.parse(text)]; [None] is a SyntaxError. *)
Definition parse (text : jsstring) : option jsval :=
  match parse_value (S (List.length text)) text with
  | Some (v, r) => match skip_ws r with [] => Some v | _ :: _ => None end
  | None => None
  end.

End JSON.

(* ================================================================== *)
(** * aiService *)
(* ================================================================== *)

Module AiService.

Inductive Status := optimal | suboptimal | concerning.

Record OptimalRange := mkRange { min : float; max : float }.

Record Biomarker := mkBiomarker {
  name : jsstring;
  value : float;
  unit : jsstring;
  optimalRange : OptimalRange;
  status : Status;
  description : jsval
}.

Definition fence_json : RegExp := mkRegExp (seq [Bos; lit "```json"; star [Space]]) true.
Definition fence_open : RegExp := mkRegExp (seq [Bos; lit "```"; star [Space]]) false.
Definition fence_close : RegExp := mkRegExp (seq [star [Space]; lit "```"; Eos]) false.

Definition cleanJsonString (jsonString : jsstring) : jsstring :=
  match jsonString with
  | [] => jsonString
  | _ =>
    let cleaned := trim jsonString in
    let cleaned := replace_first fence_json [] cleaned in
    let cleaned := replace_first fence_open [] cleaned in
    let cleaned := replace_first fence_close [] cleaned in
    trim cleaned
  end.

Definition parsePolishNumber (value : jsval) : float :=
  match value with
  | VNum x => x
  | VStr s =>
    let normalized := replace_str s (js ",") (js ".") in
    parseFloat normalized
  | _ => nan
  end.

Definition determineStatus (value : float) (optimalRange : OptimalRange) : Status :=
  let range := (max optimalRange - min optimalRange)%float in
  let margin := (range * 0.1)%float in
  if ge value (min optimalRange - margin) && le value (max optimalRange + margin)
  then optimal
  else if ge value (min optimalRange - margin * 2) && le value (max optimalRange + margin * 2)
  then suboptimal
  else concerning.

(** [x || 0] on numbers *)
Definition or_zero (x : float) : float :=
  if isNaN x || PrimFloat.eqb x 0 then 0%float else x.

(** The callback of [map]: the normalized record, or [None] for the
    [null] that marks a value that is not a number. *)
Definition normalize (b : jsval) : outcome (option Biomarker) :=
  do v <- get b "value" ;;
  let numValue := parsePolishNumber v in
  if isNaN numValue then Returned None
  else
    do r <- get b "optimalRange" ;;
    do mm <-
      (if truthy r then
         do rmin <- get r "min" ;;
         do rmax <- get r "max" ;;
         let min := or_zero (parsePolishNumber rmin) in
         let max := or_zero (parsePolishNumber rmax) in
         let max := if gt max 999999 then 999999%float else max in
         Returned (min, max)
       else Returned (0%float, 0%float)) ;;
    let '(min, max) := mm in
    do n <- get b "name" ;;
    do name <- toString (or_else n (VStr [])) ;;
    do u <- get b "unit" ;;
    do unit <- toString (or_else u (VStr [])) ;;
    do d <- get b "description" ;;
    Returned (Some
      (mkBiomarker (trim name)
                   numValue
                   (trim unit)
                   (mkRange min max)
                   (determineStatus numValue (mkRange min max))
                   (or_else d (VStr [])))).

(** The callback of [filter]. *)
Definition keep (b : option Biomarker) : bool :=
  match b with
  | None => false
  | Some b =>
    (0 <? List.length (name b))%nat && negb (isNaN (value b))
    && (0 <? List.length (unit b))%nat
  end.

Fixpoint somes {A : Type} (l : list (option A)) : list A :=
  match l with
  | [] => []
  | Some a :: l' => a :: somes l'
  | None :: l' => somes l'
  end.

Definition validateAndNormalizeBiomarkers (biomarkers : jsval)
    : outcome (list Biomarker) :=
  match biomarkers with
  | VArr items =>
    do mapped <- mapM normalize items ;;
    Returned (somes (List.filter keep mapped))
  | _ => Returned []
  end.

(** ** Recovery of a truncated reply *)

Definition biomarkers_key : RegExp :=
  mkRegExp (seq [chr 34; lit "biomarkers"; chr 34; star [Space]; lit ":";
                 star [Space]; lit "["; Grp (star [Space; NonSpace])]) false.

Definition trailing_comma : RegExp :=
  mkRegExp (seq [lit ","; star [Space]; Eos]) false.

Record scan := mkScan {
  biomarkers : list jsstring;
  currentBiomarker : jsstring;
  braceCount : Z;
  inString : bool;
  escapeNext : bool
}.

Definition scan_start : scan := mkScan [] [] 0 false false.

(** One turn of the loop over the characters after the opening
    bracket. *)
Definition scan_step (st : scan) (char : N) : scan :=
  if escapeNext st then
    mkScan (biomarkers st) (currentBiomarker st ++ [char]) (braceCount st)
           (inString st) false
  else if (char =? 92)%N then
    mkScan (biomarkers st) (currentBiomarker st ++ [char]) (braceCount st)
           (inString st) true
  else
    let inString' := if (char =? 34)%N then negb (inString st) else inString st in
    let braceCount' :=
      if inString' then braceCount st
      else if (char =? 123)%N then (braceCount st + 1)%Z
      else if (char =? 125)%N then (braceCount st - 1)%Z
      else braceCount st in
    let current := currentBiomarker st ++ [char] in
    if negb inString' && (braceCount' =? 0)%Z && (0 <? List.length (trim current))%nat
    then
      let trimmed := trim current in
      let cleaned := replace_first trailing_comma [] trimmed in
      let found :=
        if startsWith cleaned (js "{") && endsWith cleaned (js "}") then
          match JSON.parse cleaned with
          | Some _ => biomarkers st ++ [cleaned]
          | None => biomarkers st
          end
        else biomarkers st in
      mkScan found [] braceCount' inString' false
    else mkScan (biomarkers st) current braceCount' inString' false.

(** The complete records the scan finds in the text after the opening
    bracket. *)
Definition recover (biomarkersText : jsstring) : list jsstring :=
  biomarkers (fold_left scan_step biomarkersText scan_start).

Definition fixedJson (found : list jsstring) : jsstring :=
  jsq "{'biomarkers': [" ++ join (js ",") found ++ js "]}".

Section Extraction.

(** The message the engine gives the SyntaxError of [JSON.parse] on a
    text. *)
Variable parseErrorMessage : jsstring -> jsstring.

(** The [try]/[catch] around [JSON.parse(cleanedContent)]. *)
Definition parseOrRecover (cleanedContent : jsstring) : outcome jsval :=
  match JSON.parse cleanedContent with
  | Some parsed => Returned parsed
  | None =>
    let message := parseErrorMessage cleanedContent in
    match exec biomarkers_key cleanedContent with
    | Some biomarkerMatches =>
      let biomarkersText := group biomarkerMatches 1 in
      match recover biomarkersText with
      | [] =>
        Thrown (Error (js "Failed to parse biomarker JSON. Could not extract any complete biomarkers. Error: " ++ message))
      | found =>
        match JSON.parse (fixedJson found) with
        | Some parsed => Returned parsed
        | None =>
          Thrown (Error (js "Failed to parse biomarker JSON. The AI response may be incomplete. Error: " ++ message))
        end
      end
    | None =>
      Thrown (Error (js "Failed to parse biomarker JSON. No biomarkers array found. Error: " ++ message))
    end
  end.

(** [extractBiomarkersFromText], from the text of the model's reply
    on: cleaning, parsing or recovery, normalization. *)
Definition extractBiomarkersFromText (content : jsstring) : outcome (list Biomarker) :=
  let cleanedContent := cleanJsonString content in
  do parsed <- parseOrRecover cleanedContent ;;
  do listed <- get parsed "biomarkers" ;;
  do normalized <- validateAndNormalizeBiomarkers (or_else listed (VArr [])) ;;
  match normalized with
  | [] => Thrown (Error (js "No valid biomarkers could be extracted from the AI response"))
  | _ => Returned normalized
  end.

End Extraction.

End AiService.
Import AiService.

(* ================================================================== *)
(** * analysisService *)
(* ================================================================== *)

Module AnalysisService.

(** A [Map] keyed by name: the entries in insertion order; setting a
    key that is present replaces its value in place. *)
Definition BiomarkerMap := list (jsstring * Biomarker).

Fixpoint map_get (mp : BiomarkerMap) (k : jsstring) : option Biomarker :=
  match mp with
  | [] => None
  | (k', v) :: r => if str_eqb k' k then Some v else map_get r k
  end.

Fixpoint map_set (mp : BiomarkerMap) (k : jsstring) (v : Biomarker) : BiomarkerMap :=
  match mp with
  | [] => [(k, v)]
  | (k', v') :: r => if str_eqb k' k then (k', v) :: r else (k', v') :: map_set r k v
  end.

Definition map_values (mp : BiomarkerMap) : list Biomarker := List.map snd mp.

Definition statusPriority (s : Status) : Z :=
  match s with
  | concerning => 3
  | suboptimal => 2
  | optimal => 1
  end.

Definition status_eqb (a b : Status) : bool :=
  match a, b with
  | optimal, optimal | suboptimal, suboptimal | concerning, concerning => true
  | _, _ => false
  end.

(** Distance of the value from the middle of its own range. *)
Definition distance (b : Biomarker) : float :=
  Math_abs (value b - (min (optimalRange b) + max (optimalRange b)) / 2)%float.

(** The callback of [forEach]. *)
Definition merge_step (biomarkerMap : BiomarkerMap) (marker : Biomarker) : BiomarkerMap :=
  match map_get biomarkerMap (name marker) with
  | None => map_set biomarkerMap (name marker) marker
  | Some existing =>
    if (statusPriority (status existing) <? statusPriority (status marker))%Z then
      map_set biomarkerMap (name marker) marker
    else if status_eqb (status marker) (status existing) then
      let existingDistance := distance existing in
      let newDistance := distance marker in
      if gt newDistance existingDistance then map_set biomarkerMap (name marker) marker
      else biomarkerMap
    else biomarkerMap
  end.

Definition mergeBiomarkers (biomarkers : list Biomarker) : list Biomarker :=
  map_values (fold_left merge_step biomarkers []).

Definition mock (n : string) (v : float) (u : string) (lo hi : float) (s : Status)
    (d : string) : Biomarker :=
  mkBiomarker (js n) v (js u) (mkRange lo hi) s (VStr (js d)).

Definition generateMockBiomarkers (variation : float) : list Biomarker :=
  let variationFactor := (1 + variation * 0.05)%float in
  let f := variationFactor in
  [ mock "RBC (Erythrocytes)" (Math_round (4.5 * f * 1000000)) "/µl" 4200000 5700000
      optimal "Red blood cell count within normal range";
    mock "Hemoglobin (Hb)" (Math_round (15 * f)) "g/dL" 14 18
      optimal "Hemoglobin levels normal";
    mock "Hematocrit (HCT)" (Math_round (45 * f)) "%" 40 54
      optimal "Hematocrit within normal range";
    mock "WBC (White Blood Cells)" (Math_round (7 * f * 1000)) "/µl" 4000 10000
      optimal "White blood cell count normal";
    mock "Platelets (PLT)" (Math_round (250 * f * 1000)) "/µl" 150000 400000
      optimal "Platelet count within normal range";
    mock "MCV" (Math_round (88 * f)) "fL" 82 96
      optimal "Mean corpuscular volume normal";
    mock "Total Cholesterol" (Math_round (220 * f)) "mg/dL" 0 200
      suboptimal "Slightly elevated cholesterol levels";
    mock "HDL Cholesterol" 55 "mg/dL" 40 100
      optimal "Good HDL levels";
    mock "LDL Cholesterol" 140 "mg/dL" 0 100
      suboptimal "LDL levels above optimal range";
    mock "Triglycerides" 150 "mg/dL" 0 150
      optimal "Triglycerides within normal range";
    mock "Glucose" (Math_round (95 * f)) "mg/dL" 70 100
      optimal "Blood glucose within normal range";
    mock "HbA1c" 5.4 "%" 4.0 5.6
      optimal "Excellent blood sugar control";
    mock "C-Reactive Protein (CRP)" 2.1 "mg/L" 0 1.0
      concerning "Elevated inflammation markers";
    mock "ESR" (Math_round (15 * f)) "mm/h" 0 20
      optimal "Erythrocyte sedimentation rate normal";
    mock "ALT" (Math_round (25 * f)) "U/L" 0 40
      optimal "ALT levels normal";
    mock "AST" (Math_round (28 * f)) "U/L" 0 40
      optimal "AST levels normal";
    mock "ALP" (Math_round (85 * f)) "U/L" 44 147
      optimal "Alkaline phosphatase normal";
    mock "Bilirubin" (Math_round (0.8 * f * 10) / 10) "mg/dL" 0.1 1.2
      optimal "Bilirubin levels normal";
    mock "GGT" (Math_round (30 * f)) "U/L" 0 60
      optimal "GGT levels normal";
    mock "Creatinine" (Math_round (0.9 * f * 10) / 10) "mg/dL" 0.6 1.2
      optimal "Creatinine levels normal";
    mock "BUN" (Math_round (15 * f)) "mg/dL" 7 20
      optimal "Blood urea nitrogen normal";
    mock "eGFR" (Math_round (90 * f)) "mL/min/1.73m²" 90 120
      optimal "Estimated glomerular filtration rate normal";
    mock "TSH" (Math_round (2.0 * f * 10) / 10) "mIU/L" 0.4 4.0
      optimal "Thyroid-stimulating hormone normal";
    mock "Free T4" (Math_round (1.2 * f * 10) / 10) "ng/dL" 0.8 1.8
      optimal "Free T4 levels normal";
    mock "Free T3" (Math_round (3.2 * f * 10) / 10) "pg/mL" 2.3 4.2
      optimal "Free T3 levels normal";
    mock "Vitamin D" 28 "ng/mL" 30 100
      suboptimal "Vitamin D levels below optimal";
    mock "Calcium" (Math_round (9.5 * f * 10) / 10) "mg/dL" 8.5 10.5
      optimal "Calcium levels normal";
    mock "Phosphorus" (Math_round (3.5 * f * 10) / 10) "mg/dL" 2.5 4.5
      optimal "Phosphorus levels normal";
    mock "Magnesium" (Math_round (2.0 * f * 10) / 10) "mg/dL" 1.7 2.2
      optimal "Magnesium levels normal";
    mock "Testosterone" 450 "ng/dL" 300 1000
      optimal "Testosterone within healthy range" ]%float.

End AnalysisService.
Import AnalysisService.

(* ================================================================== *)
(** * aiService: validation of summaries and recommendations *)
(* ================================================================== *)

Module Validators.

(** [Array.isArray(v) ? v : []] *)
Definition array_or_empty (v : jsval) : list jsval :=
  match v with
  | VArr items => items
  | _ => []
  end.

(** [typeof p === 'string' && p.trim().length > 0] *)
Definition nonblank_string (p : jsval) : bool :=
  match p with
  | VStr s => (0 <? List.length (trim s))%nat
  | _ => false
  end.

Record HealthSummary := mkHealthSummary {
  positives : list jsval;
  priorities : list jsval
}.

Definition validateHealthSummary (summary : jsval) : outcome HealthSummary :=
  do ps <- get summary "positives" ;;
  let positives := array_or_empty ps in
  do qs <- get summary "priorities" ;;
  let priorities := array_or_empty qs in
  let validPositives := List.filter nonblank_string positives in
  let validPriorities := List.filter nonblank_string priorities in
  Returned (mkHealthSummary (firstn 3 validPositives) (firstn 3 validPriorities)).

(** [options.includes(v)] for an array of strings *)
Definition one_of (options : list string) (v : jsval) : bool :=
  match v with
  | VStr s => existsb (fun o => str_eqb (js o) s) options
  | _ => false
  end.

(** [typeof v === 'number'] *)
Definition is_number (v : jsval) : bool :=
  match v with
  | VNum _ => true
  | _ => false
  end.

Definition actionTypes : list string :=
  ["supplementation"%string; "habit"%string; "lifestyle"%string].
Definition impacts : list string := ["high"%string; "medium"%string; "low"%string].

(** The callback of [filter]; the operands of [&&] are read in order,
    and the first one that is falsy ends the reading. *)
Definition acceptable (r : jsval) : outcome bool :=
  do t <- get r "title" ;;
  if negb (truthy t) then Returned false
  else
    do d <- get r "description" ;;
    if negb (truthy d) then Returned false
    else
      do a <- get r "actionType" ;;
      if negb (one_of actionTypes a) then Returned false
      else
        do i <- get r "impact" ;;
        if negb (one_of impacts i) then Returned false
        else
          do p <- get r "priority" ;;
          Returned (is_number p).

(** [filter] with a callback that may throw. *)
Fixpoint filterM {A : Type} (f : A -> outcome bool) (l : list A) : outcome (list A) :=
  match l with
  | [] => Returned []
  | a :: l' =>
    do b <- f a ;;
    do rest <- filterM f l' ;;
    Returned (if b then a :: rest else rest)
  end.

Record Recommendation := mkRecommendation {
  title : jsstring;
  description : jsstring;
  actionType : jsval;
  impact : jsval;
  priority : Z
}.

(** The callback of [map], with the index of the element. *)
Definition renumber (index : nat) (r : jsval) : outcome Recommendation :=
  do t <- get r "title" ;;
  do title <- toString t ;;
  do d <- get r "description" ;;
  do description <- toString d ;;
  do a <- get r "actionType" ;;
  do i <- get r "impact" ;;
  Returned (mkRecommendation (trim title) (trim description) a i (Z.of_nat index + 1)).

(** [map] with a callback that takes the index and may throw. *)
Fixpoint mapM_from {A B : Type} (f : nat -> A -> outcome B) (index : nat) (l : list A)
    : outcome (list B) :=
  match l with
  | [] => Returned []
  | a :: l' =>
    do b <- f index a ;;
    do bs <- mapM_from f (S index) l' ;;
    Returned (b :: bs)
  end.

Definition validateRecommendations (recommendations : jsval)
    : outcome (list Recommendation) :=
  match recommendations with
  | VArr items =>
    do kept <- filterM acceptable items ;;
    mapM_from renumber 0 (firstn 3 kept)
  | _ => Returned []
  end.

End Validators.

(* ================================================================== *)
(** * Vocabulary of the statements *)
(* ================================================================== *)

Definition cholesterol_record : list (jsstring * jsval) :=
  [ (js "name", VStr (js "Cholesterol")); (js "value", VStr (js "184,0"));
    (js "unit", VStr (js "mg/dL"));
    (js "optimalRange", VObj [(js "min", VStr (js "0")); (js "max", VStr (js "190,0"))]) ].

Definition nonempty_string (v : jsval) : bool :=
  match v with
  | VStr (_ :: _) => true
  | _ => false
  end.

(** What the leak validator looks for in the redacted text. *)
Definition leak_detected (redacted : jsstring) : bool :=
  test namePattern redacted || test peselPattern redacted || test emailPattern redacted.

(** Outcomes that agree on everything but the time stamp. *)
Definition same_but_timestamp (o1 o2 : outcome Anonymized) : Prop :=
  match o1, o2 with
  | Thrown e1, Thrown e2 => e1 = e2
  | Returned r1, Returned r2 =>
      anonymizedContent r1 = anonymizedContent r2
      /\ medicalData r1 = medicalData r2
      /\ fileType (metadata r1) = fileType (metadata r2)
      /\ fileSize (metadata r1) = fileSize (metadata r2)
  | _, _ => False
  end.

(** ** Calendar dates and their textual forms *)

Definition leap_year (y : Z) : bool :=
  ((y mod 4 =? 0) && negb (y mod 100 =? 0) || (y mod 400 =? 0))%Z.

Definition days_in_month (y m : Z) : Z :=
  if (m =? 2)%Z then (if leap_year y then 29 else 28)%Z
  else if ((m =? 4) || (m =? 6) || (m =? 9) || (m =? 11))%Z then 30%Z
  else 31%Z.

(** The canonical year-month-day string. *)
Definition iso_date (y m d : Z) : jsstring :=
  pad 4 y ++ js "-" ++ pad 2 m ++ js "-" ++ pad 2 d.

(** A day or month number, with or without its leading zero. *)
Definition numeral (padded : bool) (n : Z) : jsstring :=
  if padded then pad 2 n else Z_to_digits n.

Definition dotted (pd pm : bool) (y m d : Z) : jsstring :=
  numeral pd d ++ js "." ++ numeral pm m ++ js "." ++ pad 4 y.

Definition dashed (pd pm : bool) (y m d : Z) : jsstring :=
  pad 4 y ++ js "-" ++ numeral pm m ++ js "-" ++ numeral pd d.

Definition slashed (pd pm : bool) (y m d : Z) : jsstring :=
  numeral pd d ++ js "/" ++ numeral pm m ++ js "/" ++ pad 4 y.

(** The three supported forms of a date, each with every choice of
    leading zeros. *)
Definition date_texts (y m d : Z) : list jsstring :=
  flat_map (fun pd => flat_map (fun pm =>
    [dotted pd pm y m d; dashed pd pm y m d; slashed pd pm y m d])
    [true; false]) [true; false].

Definition expected_date (y m d : Z) : option jsstring :=
  if (d <=? days_in_month y m)%Z then Some (iso_date y m d) else None.

Definition opt_str_eqb (a b : option jsstring) : bool :=
  match a, b with
  | Some x, Some y => str_eqb x y
  | None, None => true
  | _, _ => false
  end.

(** The integers [lo], [lo + 1], ..., [lo + n - 1]. *)
Definition Zrange (lo : Z) (n : nat) : list Z :=
  List.map (fun i => (lo + Z.of_nat i)%Z) (List.seq 0 n).

(** The calendar check of the source agrees with the calendar on
    every day number of every month of a year. *)
Definition check_day (y m d : Z) : bool :=
  opt_str_eqb (accept_date y m d) (expected_date y m d).

Definition check_month (y m : Z) : bool := forallb (check_day y m) (Zrange 1 31).

Definition check_year (y : Z) : bool := forallb (check_month y) (Zrange 1 12).

(** A numeral of [lo] to [hi] digits that reads as [n]. *)
Definition reads_as (lo hi : nat) (n : Z) (w : jsstring) : bool :=
  forallb is_digit w && (lo <=? List.length w)%nat && (List.length w <=? hi)%nat
  && match parseInt w with Some v => (v =? n)%Z | None => false end.

Definition numerals_ok (lo : Z) (n : nat) : bool :=
  forallb (fun x => reads_as 1 2 x (numeral true x) && reads_as 1 2 x (numeral false x))
    (Zrange lo n).

Definition years_ok (lo : Z) (n : nat) : bool :=
  forallb (fun y => reads_as 4 4 y (pad 4 y)) (Zrange lo n).

(** The pattern of three numbers between two separators. *)
Definition three_numbers (sep : N) (a b c d e f : nat) : RegExp :=
  mkRegExp (seq [Grp (from_to [Digit] a b); chr sep; Grp (from_to [Digit] c d);
                 chr sep; Grp (from_to [Digit] e f)]) false.

(** ** Merge invariants *)

(** The entries are keyed by the name of the record they hold, once
    each. *)
Definition keyed (mp : BiomarkerMap) : Prop :=
  NoDup (List.map fst mp) /\ Forall (fun kv => name (snd kv) = fst kv) mp.

(** Every record seen so far is dominated by the entry of its name. *)
Definition dominated (mp : BiomarkerMap) (seen : list Biomarker) : Prop :=
  forall x, In x seen ->
    exists v, map_get mp (name x) = Some v
              /\ (statusPriority (status x) <= statusPriority (status v))%Z.

(** ** What a pattern can match *)

(** The code unit before the position reached after [pre]. *)
Definition prev_after (pv : option N) (pre : jsstring) : option N :=
  match rev pre with
  | c :: _ => Some c
  | [] => pv
  end.

(** Two matcher states at the same place of the input. *)
Definition same_place (st st' : mstate) : Prop :=
  prev st' = prev st /\ rest st' = rest st /\ pos st' = pos st.

Definition within (mx : option nat) (n : nat) : Prop :=
  match mx with
  | Some b => (n <= b)%nat
  | None => True
  end.

(** [den ci r st st']: the pattern can take the matcher from [st] to
    [st'] (captures aside). *)
Fixpoint den (ci : bool) (r : regex) (st st' : mstate) : Prop :=
  match r with
  | Eps => same_place st st'
  | Cls cs =>
      exists c s', rest st = c :: s' /\ in_class ci cs c = true
        /\ prev st' = Some c /\ rest st' = s' /\ pos st' = S (pos st)
  | Seq a b => exists mid, den ci a st mid /\ den ci b mid st'
  | Alt a b => den ci a st st' \/ den ci b st st'
  | Opt a => same_place st st' \/ den ci a st st'
  | Rep cs mn mx =>
      exists w, rest st = w ++ rest st'
        /\ Forall (fun c => in_class ci cs c = true) w
        /\ (mn <= List.length w)%nat /\ within mx (List.length w)
        /\ prev st' = prev_after (prev st) w
        /\ pos st' = (pos st + List.length w)%nat
  | Grp a => den ci a st st'
  | WordB =>
      same_place st st'
      /\ xorb (is_word_opt (prev st)) (is_word_opt (hd_error (rest st))) = true
  | Bos => same_place st st' /\ pos st = 0%nat
  | Eos => same_place st st' /\ rest st = []
  end.

(** The words a pattern can match, places aside. *)
Fixpoint shape (ci : bool) (r : regex) (w : jsstring) : Prop :=
  match r with
  | Eps | WordB | Bos | Eos => w = []
  | Cls cs => exists c, w = [c] /\ in_class ci cs c = true
  | Seq a b => exists w1 w2, w = w1 ++ w2 /\ shape ci a w1 /\ shape ci b w2
  | Alt a b => shape ci a w \/ shape ci b w
  | Opt a => w = [] \/ shape ci a w
  | Rep cs mn mx =>
      Forall (fun c => in_class ci cs c = true) w
      /\ (mn <= List.length w)%nat /\ within mx (List.length w)
  | Grp a => shape ci a w
  end.

(** ** What every match of a pattern holds and what none can hold *)

Definition citem_eqb (a b : citem) : bool :=
  match a, b with
  | One x, One y => (x =? y)%N
  | Range lo hi, Range lo' hi' => ((lo =? lo') && (hi =? hi'))%N
  | Digit, Digit | Space, Space | Word, Word | NonSpace, NonSpace => true
  | _, _ => false
  end.

Definition class_incl (cs G : class) : bool :=
  forallb (fun it => existsb (citem_eqb it) G) cs.

(** Every match goes through a code unit of class [G]. *)
Fixpoint musts (G : class) (r : regex) : bool :=
  match r with
  | Cls cs => class_incl cs G
  | Rep cs mn _ => (1 <=? mn)%nat && class_incl cs G
  | Seq a b => musts G a || musts G b
  | Alt a b => musts G a && musts G b
  | Grp a => musts G a
  | Eps | Opt _ | WordB | Bos | Eos => false
  end.

(** No match holds a code unit of the list [F]. *)
Fixpoint avoids (F : list N) (ci : bool) (r : regex) : bool :=
  match r with
  | Cls cs | Rep cs _ _ => forallb (fun x => negb (in_class ci cs x)) F
  | Seq a b | Alt a b => avoids F ci a && avoids F ci b
  | Opt a | Grp a => avoids F ci a
  | Eps | WordB | Bos | Eos => true
  end.

(** How the replacement of the text before a kept segment ends: with
    nothing, with the last code unit of that text, or with the last
    code unit of the placeholder. *)
Definition ends_like (skip : nat) (u by_ u' : jsstring) : Prop :=
  (u' = [] /\ (u = [] \/ (0 < skip)%nat))
  \/ exists a c, u' = a ++ [c]
       /\ ((exists b, u = b ++ [c]) \/ (exists b, by_ = b ++ [c])).

(** The digits. *)
Definition digit_codes : list N := [48; 49; 50; 51; 52; 53; 54; 55; 56; 57]%N.

(** The text as the rule for 11-digit numbers and as the rule for
    e-mail addresses receive it. *)
Definition before_pesel (content : jsstring) : jsstring :=
  replace_all namePattern (js "[NAME]") content.

Definition before_email (content : jsstring) : jsstring :=
  replace_all phonePattern (js "[PHONE]")
    (replace_all addressPattern (js "[ADDRESS]")
       (replace_all idPattern (js "[ID]")
          (replace_all peselPattern (js "[ID]") (before_pesel content)))).

(** How the replacement of the text after a kept segment starts: like
    that text, or with the placeholder. *)
Definition starts_like (by_ v v' : jsstring) : Prop :=
  hd_error v' = hd_error v \/ (v <> [] /\ hd_error v' = hd_error by_).

(** The code units of the brackets around a placeholder. *)
Definition brackets : list N := [91; 93]%N.

(** A placeholder: text in brackets that holds no code unit of the
    class [G] (under the pattern's case rule). *)
Definition bracketed (ci : bool) (G : class) (X : jsstring) : bool :=
  match X with
  | 91%N :: _ => true
  | _ => false
  end
  && (last X 0 =? 93)%N
  && forallb (fun c => negb (in_class ci G c)) X.

(** One code unit that every match of a redaction rule after the name
    rule goes through. *)
Definition institution_marks : class := [One 66; One 121; One 89; One 98]%N.

(** ** Sample documents *)

Definition sample_text : jsstring :=
  js "Pacjent: Jan Kowalski, PESEL: 85010112345, jan.kowalski@example.com".

Definition redacted_sample : Anonymized :=
  mkAnonymized (removePersonalIdentifiers sample_text) (extractMedicalData sample_text)
    (mkMetadata (VStr (js "unknown")) (VNum 0) (toISOString 0)).

Definition leaky_text : jsstring :=
  js "Jan Kowalski 85010112345 850101123450 123456789@wp.pl".

Definition redacted_leaky : Anonymized :=
  mkAnonymized (removePersonalIdentifiers leaky_text) (extractMedicalData leaky_text)
    (mkMetadata (VStr (js "unknown")) (VNum 0) (toISOString 0)).

(** ** The scanner's view of JSON text *)

(** The part of the scanner's state that follows the text alone. *)
Record lex := mkLex { depth : Z; inStr : bool; esc : bool }.

Definition lex_of (st : scan) : lex :=
  mkLex (braceCount st) (inString st) (escapeNext st).

Definition lex_step (l : lex) (c : N) : lex :=
  if esc l then mkLex (depth l) (inStr l) false
  else if (c =? 92)%N then mkLex (depth l) (inStr l) true
  else
    let i := if (c =? 34)%N then negb (inStr l) else inStr l in
    let d := if i then depth l
             else if (c =? 123)%N then (depth l + 1)%Z
             else if (c =? 125)%N then (depth l - 1)%Z
             else depth l in
    mkLex d i false.

Definition lex_run (l : lex) (w : jsstring) : lex := fold_left lex_step w l.

(** Outside any string, at brace depth [d]. *)
Definition level (d : Z) : lex := mkLex d false false.

(** Inside a string, at brace depth [d]. *)
Definition quoted (d : Z) : lex := mkLex d true false.

(** In a string, or at brace depth [d] or deeper. *)
Definition above (d : Z) (l : lex) : Prop := inStr l = true \/ (d <= depth l)%Z.

(** [P] holds after every code unit of [w]. *)
Fixpoint all_along (P : lex -> Prop) (l : lex) (w : jsstring) : Prop :=
  match w with
  | [] => True
  | c :: w' => P (lex_step l c) /\ all_along P (lex_step l c) w'
  end.

(** Text over which the scanner stays at its depth or deeper and comes
    back to where it started: what a JSON value is to the scanner. *)
Definition value_text (w : jsstring) : Prop :=
  forall d, lex_run (level d) w = level d /\ all_along (above d) (level d) w.

(** The rest of an object after its opening brace. *)
Definition members_text (w : jsstring) : Prop :=
  exists w', w = w' ++ [125%N] /\ value_text w'.

(** Text over which the scanner stays inside a string. *)
Definition string_body (w : jsstring) : Prop :=
  forall d, lex_run (quoted d) w = quoted d
            /\ all_along (fun l => inStr l = true) (quoted d) w.

(** The rest of a string after its opening quote. *)
Definition string_text (w : jsstring) : Prop :=
  exists w', w = w' ++ [34%N] /\ string_body w'.

(** A code unit the scanner passes over outside a string. *)
Definition plain (c : N) : bool :=
  negb ((c =? 34) || (c =? 92) || (c =? 123) || (c =? 125))%N.

(** ** Truncated replies *)

(** A record as the scan has to find it: the text of a JSON object,
    from its opening brace to its closing brace. *)
Definition complete_record (r : jsstring) : Prop :=
  hd_error r = Some 123%N
  /\ exists v, JSON.parse_value (S (List.length r)) r = Some (v, []).

(** What comes between records: white space and commas. *)
Definition gap (g : jsstring) : Prop :=
  Forall (fun c => JSON.is_ws c = true \/ c = 44%N) g.

(** What may stand between the last complete record and the cut: white
    space, commas, the closing bracket of the array. *)
Definition closing (g : jsstring) : Prop :=
  Forall (fun c => JSON.is_ws c = true \/ c = 44%N \/ c = 93%N) g.

(** What is left of a record cut short: a proper prefix of one. *)
Definition cut_record (p : jsstring) : Prop :=
  exists q, q <> [] /\ complete_record (p ++ q).

(** The opening of the envelope, up to the bracket of the array. *)
Definition envelope (w0 w1 w2 : jsstring) : jsstring :=
  [123%N] ++ w0 ++ jsq "'biomarkers'" ++ w1 ++ [58%N] ++ w2 ++ [91%N].

(** The records with what precedes each. *)
Definition records_text (items : list (jsstring * jsstring)) : jsstring :=
  flat_map (fun it => fst it ++ snd it) items.

Definition white (w : jsstring) : Prop := Forall (fun c => JSON.is_ws c = true) w.

(** [s] is a text of kind [T] followed by [r]. *)
Definition takes (T : jsstring -> Prop) (s r : jsstring) : Prop :=
  exists w, s = w ++ r /\ T w.

(** A reply cut inside the array: the envelope, the complete records
    with what precedes each, what follows the last one, and what is
    left of the record that was cut. *)
Definition truncated (w0 w1 w2 : jsstring) (items : list (jsstring * jsstring))
    (gT p : jsstring) : jsstring :=
  envelope w0 w1 w2 ++ records_text items ++ gT ++ p.

Definition no_records_error (message : jsstring) : error :=
  Error (js "Failed to parse biomarker JSON. Could not extract any complete biomarkers. Error: "
         ++ message).

Definition sample_record : jsstring := jsq "{'name': 'HDL', 'value': 58, 'unit': 'mg/dL'}".
Definition sample_cut : jsstring := jsq "{'name': 'LDL', 'val".
Definition sample_cut_rest : jsstring := jsq "ue': 1}".
Definition sample_items : list (jsstring * jsstring) := [([], sample_record)].
Definition sample_reply : jsstring :=
  truncated [] [] [32%N] sample_items (js ", ") sample_cut.

(** ** Further vocabulary *)

(** What the scan of the recovery path accepts as a record. *)
Definition well_formed_record (r : jsstring) : Prop :=
  startsWith r (js "{") = true /\ endsWith r (js "}") = true
  /\ exists v, JSON.parse r = Some v.

(** The entries hold records that were seen. *)
Definition from_seen (mp : BiomarkerMap) (seen : list Biomarker) : Prop :=
  Forall (fun kv => In (snd kv) seen) mp.

(** A text whose redaction joins a placeholder to an 11-digit number. *)
Definition leak_sample : jsstring := js "ul. Ab 12a12345678901".

(** The patterns of the redaction rules, in the order they are applied. *)
Definition rule_patterns : list RegExp :=
  [namePattern; peselPattern; idPattern; addressPattern; phonePattern; emailPattern]
  ++ institutionPatterns.

(** What every normalized record satisfies. *)
Definition normalized_record (b : Biomarker) : Prop :=
  name b <> [] /\ unit b <> []
  /\ isNaN (value b) = false
  /\ isNaN (min (optimalRange b)) = false
  /\ isNaN (max (optimalRange b)) = false
  /\ le (max (optimalRange b)) 999999 = true.

Definition array_length (v : jsval) : nat :=
  match v with
  | VArr items => List.length items
  | _ => 0%nat
  end.

(** A text that is a string and not blank. *)
Definition text_entry (p : jsval) : Prop := exists s, p = VStr s /\ trim s <> [].

Definition sample_summary : jsval :=
  VObj [ (js "positives",
          VArr [VStr (js "Good HDL"); VStr (js "  "); VNum 1; VStr (js "Normal TSH");
                VStr (js "Low CRP"); VStr (js "Normal eGFR")]);
         (js "priorities", VStr (js "none")) ].

Definition sample_recommendation (t : string) (p : jsval) : jsval :=
  VObj [ (js "title", VStr (js t)); (js "description", VStr (js "Do it"));
         (js "actionType", VStr (js "habit")); (js "impact", VStr (js "high"));
         (js "priority", p) ].

Definition sample_recommendations : jsval :=
  VArr [ sample_recommendation "A" (VNum 7); sample_recommendation "B" (VStr (js "1"));
         sample_recommendation "C" (VNum 9); sample_recommendation "D" (VNum 2);
         sample_recommendation "E" (VNum 3) ].

(** A text that opens with a brace and ends with [x]. *)
Definition object_text (r : jsstring) (x : N) : jsstring := 123%N :: r ++ [x].

Definition fenced_body : jsstring := jsq "'biomarkers': []".
Definition fenced_reply : jsstring :=
  js "```json" ++ [10%N] ++ object_text fenced_body 125 ++ [10%N] ++ js "```".

(** A record given without an optimal range. *)
Definition rangeless_record : jsval :=
  VObj [ (js "name", VStr (js "CRP")); (js "value", VNum 3); (js "unit", VStr (js "mg/L")) ].

(* ================================================================== *)
(** * Properties *)
(* ================================================================== *)

(** ** The embedding on the repository's own test inputs *)

Section TestSuite.

Example age_formats :
  List.map (fun s => extractAge (js s))
    ["Wiek: 42 lata"; "Age: 42 years"; "42 lat"; "42 years old"]%string
  = [Some 42; Some 42; Some 42; Some 42]%Z.
Proof. vm_compute. reflexivity. Qed.

Example weight_formats :
  List.map (fun s => extractWeight (js s))
    ["Masa: 83 kg"; "Weight: 83 kg"; "83 kg"; "Masa ciała: 75.5 kg"]%string
  = [Some 83; Some 83; Some 83; Some 75.5]%float.
Proof. vm_compute. reflexivity. Qed.

Example height_formats :
  List.map (fun s => extractHeight (js s))
    ["Wzrost: 181 cm"; "Height: 181 cm"; "181 cm"]%string
  = [Some 181; Some 181; Some 181]%Z.
Proof. vm_compute. reflexivity. Qed.

Example gender_formats :
  List.map (fun s => extractGender (js s)) ["Płeć: M"; "Płeć: K"]%string
  = [Some (js "M"); Some (js "F")].
Proof. vm_compute. reflexivity. Qed.

Example date_formats :
  List.map (fun s => extractTestDate (js s))
    ["Data: 15.01.2025"; "Date: 2025-01-15"; "15/01/2025"]%string
  = [Some (js "2025-01-15"); Some (js "2025-01-15"); Some (js "2025-01-15")].
Proof. vm_compute. reflexivity. Qed.

Example redaction_cases :
  List.map (fun s => removePersonalIdentifiers (js s))
    ["PESEL: 85010112345"; "Email: jan.kowalski@example.com";
     "Telefon: +48 123 456 789"; "Laboratorium ALAB Sp. z o.o."]%string
  = [js "PESEL: [ID]"; js "Email: [EMAIL]"; js "Telefon: +[PHONE] 789";
     js "[INSTITUTION]. z o.o."].
Proof. vm_compute. reflexivity. Qed.

Example number_parsing :
  (parseFloat (js "184.0") = 184 /\ parseFloat (js " -12.5e2xyz") = -1250
   /\ isNaN (parseFloat (js "abc")) = true /\ Math_round 2.5 = 3
   /\ Math_round (-2.5) = -2)%float.
Proof. vm_compute. repeat split; reflexivity. Qed.

Example number_printing :
  List.map Number_toString [0.1; 123.456; 1e21; 1e23; 5e-7; 100; -1234.5; 5e-324]%float
  = List.map js ["0.1"; "123.456"; "1e+21"; "1e+23"; "5e-7"; "100"; "-1234.5"; "5e-324"]%string.
Proof. vm_compute. reflexivity. Qed.

Example recovery_case :
  recover (jsq "{'name':'X','value':5,'unit':'u'}, {'name':'Y','value':'1,5','unit':'u'},{'na")
  = [jsq "{'name':'X','value':5,'unit':'u'}"; jsq "{'name':'Y','value':'1,5','unit':'u'}"].
Proof. vm_compute. reflexivity. Qed.

End TestSuite.

(** ** Strings *)

Lemma str_eqb_eq a b : str_eqb a b = true <-> a = b.
Proof.
  revert b; induction a as [|x a IH]; intros [|y b]; simpl;
    try (split; [discriminate | discriminate]); try tauto.
  rewrite andb_true_iff, N.eqb_eq, IH. split.
  - intros [-> ->]; reflexivity.
  - intros H; injection H; auto.
Qed.

Lemma str_eqb_refl a : str_eqb a a = true.
Proof. apply str_eqb_eq; reflexivity. Qed.

Lemma str_eqb_neq a b : str_eqb a b = false <-> a <> b.
Proof.
  split.
  - intros H E. apply str_eqb_eq in E. congruence.
  - intros H. destruct (str_eqb a b) eqn:E; auto. apply str_eqb_eq in E. contradiction.
Qed.

(** ** Number parsing and normalization (C7, C10, C3) *)

Section Normalization.

Lemma replace_first_comma (a b : jsstring) :
  ~ In 44%N a ->
  replace_str (a ++ 44%N :: b) [44%N] [46%N] = a ++ 46%N :: b.
Proof.
  induction a as [|c a IH]; intros Hc.
  - destruct b; reflexivity.
  - simpl in Hc.
    assert (c <> 44%N) by tauto.
    assert (~ In 44%N a) by tauto.
    cbn [app replace_str startsWith].
    destruct (N.eqb_spec 44 c); [congruence|].
    simpl. rewrite <- IH by assumption. reflexivity.
Qed.

(** C10: only the first comma of a string becomes the decimal point,
    so a second comma ends the number: ['1,200'] is 1.2 and
    ['1,234,5'] is 1.234, not NaN. *)
Theorem parsePolishNumber_first_comma_only :
  (forall a b : jsstring, ~ In 44%N a ->
     parsePolishNumber (VStr (a ++ 44%N :: b)) = parseFloat (a ++ 46%N :: b))
  /\ parsePolishNumber (VStr (js "1,200")) = 1.2%float
  /\ parsePolishNumber (VStr (js "1,234,5")) = 1.234%float
  /\ isNaN (parsePolishNumber (VStr (js "1,234,5"))) = false.
Proof.
  split.
  - intros a b H. unfold parsePolishNumber.
    change (js ",") with [44%N]. change (js ".") with [46%N].
    rewrite replace_first_comma by assumption. reflexivity.
  - vm_compute. repeat split; reflexivity.
Qed.

Lemma parsePolishNumber_first_comma_only_witness :
  ~ In 44%N (js "1") /\
  parsePolishNumber (VStr (js "1" ++ 44%N :: js "234,5")) = parseFloat (js "1" ++ 46%N :: js "234,5").
Proof.
  assert (H : ~ In 44%N (js "1")) by (vm_compute; intros [E|[]]; discriminate E).
  split; [exact H|].
  exact (proj1 parsePolishNumber_first_comma_only (js "1") (js "234,5") H).
Defined.

(** [String] on an object that owns a [toString] key throws, and so
    does the normalization of a record so named. *)
Example string_of_object_with_toString_key :
  toString (VObj [(js "toString", VNum 1)]) = Thrown TypeError
  /\ toString (VObj [(js "a", VNum 1)]) = Returned (js "[object Object]")
  /\ toString (VArr [VNum 1; VNull; VStr (js "x")]) = Returned (js "1,,x")
  /\ normalize (VObj [(js "name", VObj [(js "toString", VNum 1)]);
                      (js "value", VNum 1); (js "unit", VStr (js "x"))])
     = Thrown TypeError.
Proof. vm_compute. repeat split; reflexivity. Qed.

(** C7: a record with value ["184,0"] and range [{min: "0", max:
    "190,0"}] normalizes to value 184, range 0..190 and status
    optimal, with the trimmed texts of its name and unit; the list
    keeps it exactly when neither is blank.  When [String] throws on
    the name or on the unit (an object that owns a [toString] key),
    the normalization throws that error. *)
Theorem normalize_polish_record (fields rf : list (jsstring * jsval)) :
  lookup fields (js "value") = VStr (js "184,0") ->
  lookup fields (js "optimalRange") = VObj rf ->
  lookup rf (js "min") = VStr (js "0") ->
  lookup rf (js "max") = VStr (js "190,0") ->
  (forall nm un,
     toString (or_else (lookup fields (js "name")) (VStr [])) = Returned nm ->
     toString (or_else (lookup fields (js "unit")) (VStr [])) = Returned un ->
     exists b,
       normalize (VObj fields) = Returned (Some b)
       /\ name b = trim nm /\ unit b = trim un
       /\ value b = 184%float
       /\ optimalRange b = mkRange 0 190
       /\ status b = optimal
       /\ validateAndNormalizeBiomarkers (VArr [VObj fields])
          = Returned (match trim nm, trim un with
                      | _ :: _, _ :: _ => [b]
                      | _, _ => []
                      end))
  /\ (forall e,
        toString (or_else (lookup fields (js "name")) (VStr [])) = Thrown e
        \/ (exists nm,
              toString (or_else (lookup fields (js "name")) (VStr [])) = Returned nm
              /\ toString (or_else (lookup fields (js "unit")) (VStr [])) = Thrown e) ->
        normalize (VObj fields) = Thrown e
        /\ validateAndNormalizeBiomarkers (VArr [VObj fields]) = Thrown e).
Proof.
  intros Hv Hr Hmin Hmax.
  assert (E1 : parsePolishNumber (VStr (js "184,0")) = 184%float) by (vm_compute; reflexivity).
  assert (E2 : or_zero (parsePolishNumber (VStr (js "0"))) = 0%float) by (vm_compute; reflexivity).
  assert (E3 : or_zero (parsePolishNumber (VStr (js "190,0"))) = 190%float) by (vm_compute; reflexivity).
  assert (E4 : determineStatus 184 (mkRange 0 190) = optimal) by (vm_compute; reflexivity).
  assert (N : normalize (VObj fields) =
    do nm <- toString (or_else (lookup fields (js "name")) (VStr [])) ;;
    do un <- toString (or_else (lookup fields (js "unit")) (VStr [])) ;;
    Returned (Some (mkBiomarker (trim nm) 184%float (trim un) (mkRange 0 190) optimal
                      (or_else (lookup fields (js "description")) (VStr []))))).
  { unfold normalize, get. cbn [bind]. rewrite Hv, E1.
    change (isNaN 184) with false. cbv iota.
    rewrite Hr. change (truthy (VObj rf)) with true. cbv iota. cbn [bind].
    rewrite Hmin, Hmax, E2, E3.
    change (gt 190 999999) with false. cbv iota beta.
    rewrite E4. reflexivity. }
  split.
  - intros nm un Hn Hu. rewrite Hn, Hu in N. cbn [bind] in N.
    eexists. split; [exact N|]. cbn [name unit value optimalRange status].
    repeat (split; [reflexivity|]).
    unfold validateAndNormalizeBiomarkers. cbn [mapM bind].
    rewrite N. cbn [bind filter keep name unit value].
    change (isNaN 184) with false.
    destruct (trim nm); [reflexivity|]. destruct (trim un); reflexivity.
  - intros e [Hn|(nm & Hn & Hu)].
    + rewrite Hn in N. cbn [bind] in N. split; [exact N|].
      unfold validateAndNormalizeBiomarkers. cbn [mapM bind]. rewrite N. reflexivity.
    + rewrite Hn, Hu in N. cbn [bind] in N. split; [exact N|].
      unfold validateAndNormalizeBiomarkers. cbn [mapM bind]. rewrite N. reflexivity.
Qed.

Lemma normalize_polish_record_witness :
  exists b,
    normalize (VObj cholesterol_record) = Returned (Some b)
    /\ name b = js "Cholesterol" /\ unit b = js "mg/dL"
    /\ value b = 184%float
    /\ optimalRange b = mkRange 0 190
    /\ status b = optimal
    /\ validateAndNormalizeBiomarkers (VArr [VObj cholesterol_record]) = Returned [b].
Proof.
  destruct (proj1 (normalize_polish_record cholesterol_record
                     [(js "min", VStr (js "0")); (js "max", VStr (js "190,0"))]
                     eq_refl eq_refl eq_refl eq_refl)
              (js "Cholesterol") (js "mg/dL") eq_refl eq_refl)
    as (b & H1 & H2 & H3 & H4 & H5 & H6 & H7).
  exists b. split; [exact H1|]. split; [exact H2|]. split; [exact H3|].
  split; [exact H4|]. split; [exact H5|]. split; [exact H6 | exact H7].
Defined.

End Normalization.

(** ** Status classification (C3) *)

Section Classification.

Lemma normalize_status (x : jsval) (b : Biomarker) :
  normalize x = Returned (Some b) ->
  status b = determineStatus (value b) (optimalRange b).
Proof.
  unfold normalize, bind.
  destruct (get x "value") as [v|]; [|discriminate].
  destruct (isNaN (parsePolishNumber v)); [discriminate|].
  destruct (get x "optimalRange") as [r|]; [|discriminate].
  destruct (truthy r).
  - destruct (get r "min") as [rmin|]; [|discriminate].
    destruct (get r "max") as [rmax|]; [|discriminate].
    destruct (get x "name") as [n|]; [|discriminate].
    destruct (toString (or_else n (VStr []))); [|discriminate].
    destruct (get x "unit") as [u|]; [|discriminate].
    destruct (toString (or_else u (VStr []))); [|discriminate].
    destruct (get x "description"); [|discriminate].
    intros H; injection H as <-. reflexivity.
  - destruct (get x "name") as [n|]; [|discriminate].
    destruct (toString (or_else n (VStr []))); [|discriminate].
    destruct (get x "unit") as [u|]; [|discriminate].
    destruct (toString (or_else u (VStr []))); [|discriminate].
    destruct (get x "description"); [|discriminate].
    intros H; injection H as <-. reflexivity.
Qed.

Lemma mapM_in {A B : Type} (f : A -> outcome B) (l : list A) (bs : list B) (b : B) :
  mapM f l = Returned bs -> In b bs -> exists a, In a l /\ f a = Returned b.
Proof.
  revert bs; induction l as [|a l IH]; intros bs; cbn [mapM bind].
  - intros H; injection H as <-. intros [].
  - destruct (f a) as [b0|] eqn:Ea; [|discriminate].
    destruct (mapM f l) as [bs0|]; [|discriminate].
    intros H; injection H as <-. intros [<-|Hin].
    + exists a; split; [left; reflexivity | assumption].
    + destruct (IH bs0 eq_refl Hin) as (a' & Ha & Hf).
      exists a'; split; [right; assumption | assumption].
Qed.

Lemma in_somes {A : Type} (l : list (option A)) (a : A) :
  In a (somes l) <-> In (Some a) l.
Proof.
  induction l as [|[x|] l IH]; simpl; [tauto| |].
  - rewrite IH. split; intros [H|H]; auto; left; congruence.
  - rewrite IH. split; [auto|]. intros [H|H]; [discriminate|assumption].
Qed.

(** C3 (as amended): every record that validateAndNormalizeBiomarkers
    produces carries the status the margin rule gives its own value
    and range. *)
Theorem normalized_status_is_margin_rule (items : jsval) (bs : list Biomarker)
    (b : Biomarker) :
  validateAndNormalizeBiomarkers items = Returned bs ->
  In b bs ->
  status b = determineStatus (value b) (optimalRange b).
Proof.
  unfold validateAndNormalizeBiomarkers.
  destruct items as [| | | | |l|]; cbn [bind];
    try (intros H; injection H as <-; intros []).
  destruct (mapM normalize l) as [mapped|] eqn:E; [|discriminate].
  cbn [bind]. intros H; injection H as <-. intros Hin.
  apply in_somes in Hin. apply filter_In in Hin as [Hin _].
  destruct (mapM_in _ _ _ _ E Hin) as (x & _ & Hx).
  exact (normalize_status x b Hx).
Qed.

Lemma normalized_status_is_margin_rule_witness :
  let b := mkBiomarker (js "Cholesterol") 184 (js "mg/dL") (mkRange 0 190) optimal (VStr []) in
  status b = determineStatus (value b) (optimalRange b).
Proof.
  intros b.
  apply (normalized_status_is_margin_rule (VArr [VObj cholesterol_record]) [b] b).
  - vm_compute. reflexivity.
  - left. reflexivity.
Defined.

(** The margin rule on the mock record for total cholesterol: 220
    lies on the edge of the first band of 0..200. *)
Lemma mock_status_is_not_margin_rule :
  let b := mock "Total Cholesterol" 220 "mg/dL" 0 200 suboptimal
             "Slightly elevated cholesterol levels" in
  In b (generateMockBiomarkers 0)
  /\ status b = suboptimal
  /\ determineStatus (value b) (optimalRange b) = optimal.
Proof.
  intros b. split; [|split].
  - do 6 right. left. vm_compute. reflexivity.
  - reflexivity.
  - vm_compute. reflexivity.
Qed.

End Classification.

(** ** anonymizeDocument: errors and the clock (C5, C8) *)

Section Anonymize.

Lemma leak_has_errors (redacted : jsstring) (md : MedicalData) :
  leak_detected redacted = true -> validation_errors redacted md <> [].
Proof.
  unfold leak_detected, validation_errors. intros H.
  destruct (test namePattern redacted); [discriminate|].
  destruct (test peselPattern redacted); [discriminate|].
  destruct (test emailPattern redacted); [discriminate|].
  discriminate H.
Qed.

Lemma no_leak_when_valid (redacted : jsstring) (md : MedicalData) :
  validateAnonymization redacted md = Returned tt -> leak_detected redacted = false.
Proof.
  unfold validateAnonymization. intros H.
  destruct (leak_detected redacted) eqn:E; [|reflexivity].
  apply (leak_has_errors redacted md) in E.
  destruct (validation_errors redacted md); [congruence | discriminate].
Qed.

(** C5: input that is not a non-empty string is refused with the input
    error; when the validator finds a name, an 11-digit number or an
    email in the redacted text the call throws the validation error,
    so no text is returned. *)
Theorem anonymizeDocument_fails_closed :
  (forall now content metadata,
     nonempty_string content = false ->
     anonymizeDocument now content metadata
     = Thrown (Error (js "Content must be a non-empty string")))
  /\ (forall now content metadata,
        content <> [] ->
        leak_detected (removePersonalIdentifiers content) = true ->
        exists errors,
          errors <> [] /\
          anonymizeDocument now (VStr content) metadata
          = Thrown (Error (js "Anonymization validation failed: "
                           ++ join (js "; ") errors))).
Proof.
  split.
  - intros now content metadata H.
    destruct content as [| | | |[|c s]| |]; try reflexivity. discriminate H.
  - intros now [|c s] metadata Hne Hleak; [congruence|].
    exists (validation_errors (removePersonalIdentifiers (c :: s))
              (extractMedicalData (c :: s))).
    pose proof (leak_has_errors _ (extractMedicalData (c :: s)) Hleak) as Herr.
    split; [exact Herr|].
    unfold anonymizeDocument, validateAnonymization.
    destruct (validation_errors _ _); [congruence|]. reflexivity.
Qed.

Lemma anonymizeDocument_fails_closed_witness :
  anonymizeDocument 0 (VNum 123) VUndefined
  = Thrown (Error (js "Content must be a non-empty string"))
  /\ exists errors,
       errors <> [] /\
       anonymizeDocument 0 (VStr (js "ul. Ab 12a12345678901")) VUndefined
       = Thrown (Error (js "Anonymization validation failed: "
                        ++ join (js "; ") errors)).
Proof.
  split.
  - apply (proj1 anonymizeDocument_fails_closed). reflexivity.
  - apply (proj2 anonymizeDocument_fails_closed).
    + vm_compute. discriminate.
    + vm_compute. reflexivity.
Defined.



End Anonymize.

(** ** Merge (C4) *)

Section Merge.

Lemma map_get_set_same mp k v : map_get (map_set mp k v) k = Some v.
Proof.
  induction mp as [|[k' v'] mp IH]; simpl.
  - rewrite str_eqb_refl. reflexivity.
  - destruct (str_eqb k' k) eqn:E; simpl; rewrite E; auto.
Qed.

Lemma map_get_set_other mp k v k0 :
  k0 <> k -> map_get (map_set mp k v) k0 = map_get mp k0.
Proof.
  intros Hne. induction mp as [|[k' v'] mp IH]; simpl.
  - apply str_eqb_neq in Hne. destruct (str_eqb k k0) eqn:E; [|reflexivity].
    apply str_eqb_eq in E. apply str_eqb_neq in Hne. congruence.
  - destruct (str_eqb k' k) eqn:E; simpl.
    + apply str_eqb_eq in E. subst k'.
      destruct (str_eqb k k0) eqn:E0; [|reflexivity].
      apply str_eqb_eq in E0. congruence.
    + destruct (str_eqb k' k0); auto.
Qed.

Lemma map_get_none_keys mp k : map_get mp k = None -> ~ In k (List.map fst mp).
Proof.
  induction mp as [|[k' v'] mp IH]; simpl; [tauto|].
  destruct (str_eqb k' k) eqn:E; [discriminate|].
  apply str_eqb_neq in E. intros H [H1|H1]; [congruence | exact (IH H H1)].
Qed.

Lemma map_set_keys_fresh mp k v :
  map_get mp k = None -> List.map fst (map_set mp k v) = List.map fst mp ++ [k].
Proof.
  induction mp as [|[k' v'] mp IH]; simpl; [reflexivity|].
  destruct (str_eqb k' k); [discriminate|]. intros H. simpl. rewrite IH; auto.
Qed.

Lemma map_set_keys_present mp k v v0 :
  map_get mp k = Some v0 -> List.map fst (map_set mp k v) = List.map fst mp.
Proof.
  induction mp as [|[k' v'] mp IH]; simpl; [discriminate|].
  destruct (str_eqb k' k); [reflexivity|]. intros H. simpl. rewrite IH; auto.
Qed.

Lemma map_set_named mp m :
  Forall (fun kv => name (snd kv) = fst kv) mp ->
  Forall (fun kv => name (snd kv) = fst kv) (map_set mp (name m) m).
Proof.
  induction mp as [|[k' v'] mp IH]; simpl; intros H.
  - constructor; [reflexivity | constructor].
  - inversion H; subst. destruct (str_eqb k' (name m)) eqn:E.
    + constructor; [|assumption]. apply str_eqb_eq in E. simpl. congruence.
    + constructor; [assumption | auto].
Qed.

Lemma map_set_keyed mp m : keyed mp -> keyed (map_set mp (name m) m).
Proof.
  intros [Hnd Hnm]. split; [|apply map_set_named; assumption].
  destruct (map_get mp (name m)) as [v0|] eqn:E.
  - rewrite (map_set_keys_present _ _ _ _ E). assumption.
  - rewrite (map_set_keys_fresh _ _ _ E).
    apply NoDup_app; [exact Hnd | repeat constructor; intros [] |].
    intros x Hx [<-|[]]. exact (map_get_none_keys _ _ E Hx).
Qed.

Lemma merge_step_keyed mp m : keyed mp -> keyed (merge_step mp m).
Proof.
  intros H. unfold merge_step.
  destruct (map_get mp (name m)) as [ex|]; [|apply map_set_keyed; assumption].
  destruct (_ <? _)%Z; [apply map_set_keyed; assumption|].
  destruct (status_eqb _ _); [|assumption].
  destruct (gt _ _); [apply map_set_keyed; assumption | assumption].
Qed.

Lemma status_eqb_priority a b :
  status_eqb a b = true -> statusPriority a = statusPriority b.
Proof. destruct a, b; simpl; congruence. Qed.

Lemma dominated_set mp seen m ex :
  dominated mp seen ->
  map_get mp (name m) = Some ex ->
  (statusPriority (status ex) <= statusPriority (status m))%Z ->
  dominated (map_set mp (name m) m) (seen ++ [m]).
Proof.
  intros D E Hle x Hx. apply in_app_or in Hx as [Hx|[<-|[]]].
  - destruct (D x Hx) as (v & Hv & Hr).
    destruct (list_eq_dec N.eq_dec (name x) (name m)) as [En|En].
    + rewrite En, map_get_set_same. exists m. split; [reflexivity|].
      rewrite En, E in Hv. injection Hv as <-. lia.
    + rewrite map_get_set_other by assumption. exists v. auto.
  - rewrite map_get_set_same. exists m. split; [reflexivity | lia].
Qed.

Lemma dominated_keep mp seen m ex :
  dominated mp seen ->
  map_get mp (name m) = Some ex ->
  (statusPriority (status m) <= statusPriority (status ex))%Z ->
  dominated mp (seen ++ [m]).
Proof.
  intros D E Hle x Hx. apply in_app_or in Hx as [Hx|[<-|[]]]; [auto|].
  exists ex. auto.
Qed.

Lemma merge_step_dominated mp seen m :
  dominated mp seen -> dominated (merge_step mp m) (seen ++ [m]).
Proof.
  intros D. unfold merge_step.
  destruct (map_get mp (name m)) as [ex|] eqn:E.
  - destruct (Z.ltb_spec (statusPriority (status ex)) (statusPriority (status m))).
    + apply (dominated_set _ _ _ ex); auto; lia.
    + destruct (status_eqb (status m) (status ex)) eqn:Es.
      * apply status_eqb_priority in Es.
        destruct (gt _ _).
        -- apply (dominated_set _ _ _ ex); auto; lia.
        -- apply (dominated_keep _ _ _ ex); auto; lia.
      * apply (dominated_keep _ _ _ ex); auto; lia.
  - intros x Hx. apply in_app_or in Hx as [Hx|[<-|[]]].
    + destruct (D x Hx) as (v & Hv & Hr).
      assert (name x <> name m) by (intros En; rewrite En in Hv; congruence).
      rewrite map_get_set_other by assumption. exists v. auto.
    + rewrite map_get_set_same. exists m. split; [reflexivity | lia].
Qed.

Lemma merge_fold_invariant l : forall mp seen,
  keyed mp -> dominated mp seen ->
  keyed (fold_left merge_step l mp) /\ dominated (fold_left merge_step l mp) (seen ++ l).
Proof.
  induction l as [|m l IH]; intros mp seen K D; simpl.
  - rewrite app_nil_r. auto.
  - replace (seen ++ m :: l) with ((seen ++ [m]) ++ l) by (rewrite <- app_assoc; reflexivity).
    apply IH; [apply merge_step_keyed | apply merge_step_dominated]; assumption.
Qed.

Lemma keyed_filter mp k v :
  keyed mp -> map_get mp k = Some v ->
  List.filter (fun x => str_eqb (name x) k) (map_values mp) = [v].
Proof.
  unfold map_values. induction mp as [|[k' v'] mp IH]; simpl; [discriminate|].
  intros [Hnd Hnm] Hget. inversion Hnd as [|? ? Hnotin Hnd']; subst.
  inversion Hnm as [|? ? Hk Hnm']; subst. simpl in Hk.
  assert (Hrest : forall mp0, Forall (fun kv => name (snd kv) = fst kv) mp0 ->
            ~ In k (List.map fst mp0) ->
            List.filter (fun x => str_eqb (name x) k) (List.map snd mp0) = []).
  { induction mp0 as [|[k0 v0] mp0 IH0]; simpl; intros Hf Hn; [reflexivity|].
    inversion Hf; subst. simpl in *.
    destruct (str_eqb (name v0) k) eqn:E.
    - apply str_eqb_eq in E. exfalso. apply Hn. left. congruence.
    - apply IH0; tauto. }
  rewrite Hk. destruct (str_eqb k' k) eqn:E.
  - injection Hget as ->. apply str_eqb_eq in E. subst k'.
    rewrite Hrest; auto.
  - apply IH; [split; assumption | assumption].
Qed.

Lemma merge_two (a b : Biomarker) :
  name a = name b ->
  mergeBiomarkers [a; b]
  = if (statusPriority (status a) <? statusPriority (status b))%Z then [b]
    else if status_eqb (status b) (status a)
         then if gt (distance b) (distance a) then [b] else [a]
         else [a].
Proof.
  intros En. unfold mergeBiomarkers.
  cbn [fold_left]. unfold merge_step at 2. cbn [map_get map_set].
  unfold merge_step. cbn [map_get]. rewrite En, str_eqb_refl.
  destruct (_ <? _)%Z.
  - cbn [map_set]. rewrite str_eqb_refl. reflexivity.
  - destruct (status_eqb _ _); [|reflexivity].
    destruct (gt _ _); [|reflexivity].
    cbn [map_set]. rewrite str_eqb_refl. reflexivity.
Qed.

(** C4: when the input holds a concerning record and an optimal record
    of one name, the output holds exactly one record of that name and
    it is concerning, wherever the two stand in the input; for the two
    alone, the concerning record is the result in both orders. *)
Theorem merge_keeps_concerning :
  (forall (l : list Biomarker) (a b : Biomarker),
     In a l -> In b l -> name a = name b ->
     status a = concerning -> status b = optimal ->
     exists r,
       List.filter (fun x => str_eqb (name x) (name a)) (mergeBiomarkers l) = [r]
       /\ status r = concerning)
  /\ (forall a b : Biomarker,
        name a = name b -> status a = concerning -> status b = optimal ->
        mergeBiomarkers [a; b] = [a] /\ mergeBiomarkers [b; a] = [a]).
Proof.
  split.
  - intros l a b Ha _ _ Sa _.
    destruct (merge_fold_invariant l [] []) as [K D].
    { split; constructor. }
    { intros x []. }
    destruct (D a Ha) as (v & Hv & Hr).
    exists v. split.
    + unfold mergeBiomarkers. apply keyed_filter; assumption.
    + rewrite Sa in Hr. destruct (status v); simpl in Hr; [lia | lia | reflexivity].
  - intros a b En Sa Sb. split.
    + rewrite (merge_two a b En), Sa, Sb. reflexivity.
    + rewrite (merge_two b a (eq_sym En)), Sa, Sb. reflexivity.
Qed.

Lemma merge_keeps_concerning_witness :
  let a := mock "CRP" 12 "mg/L" 0 5 concerning "high" in
  let b := mock "CRP" 3 "mg/L" 0 5 optimal "fine" in
  (exists r,
     List.filter (fun x => str_eqb (name x) (name a)) (mergeBiomarkers [b; a]) = [r]
     /\ status r = concerning)
  /\ mergeBiomarkers [a; b] = [a] /\ mergeBiomarkers [b; a] = [a].
Proof.
  intros a b. split.
  - apply (proj1 merge_keeps_concerning [b; a] a b);
      try reflexivity; simpl; auto.
  - apply (proj2 merge_keeps_concerning a b); reflexivity.
Defined.

End Merge.

(** ** Searching *)

Section Search.

Lemma prev_after_cons pv c pre : prev_after pv (c :: pre) = prev_after (Some c) pre.
Proof.
  unfold prev_after. simpl. destruct (rev pre) as [|x r] eqn:E; reflexivity.
Qed.

(** A match at a later position makes the search succeed (with the
    leftmost match, which may be an earlier one). *)
Lemma search_from_complete (re : RegExp) (pre post : jsstring) :
  forall pv p,
  match_at re (prev_after pv pre) post (p + List.length pre)%nat <> None ->
  search_from re pv (pre ++ post) p <> None.
Proof.
  induction pre as [|c pre IH]; intros pv p H.
  - simpl in *. rewrite Nat.add_0_r in H. unfold prev_after in H. simpl in H.
    destruct post; simpl; destruct (match_at re pv _ p); congruence.
  - cbn [app search_from]. destruct (match_at re pv (c :: pre ++ post) p); [discriminate|].
    apply IH. rewrite prev_after_cons in H.
    replace (S p + List.length pre)%nat with (p + List.length (c :: pre))%nat by (simpl; lia).
    exact H.
Qed.

Lemma test_complete (re : RegExp) (pre post : jsstring) :
  match_at re (prev_after None pre) post (List.length pre) <> None ->
  test re (pre ++ post) = true.
Proof.
  intros H. unfold test, exec.
  pose proof (search_from_complete re pre post None 0 H) as S.
  destruct (search_from re None (pre ++ post) 0); [reflexivity | congruence].
Qed.

Lemma m_alt_l ci a b k st : m ci a k st <> None -> m ci (Alt a b) k st <> None.
Proof. simpl. destruct (m ci a k st); congruence. Qed.

Lemma m_alt_r ci a b k st : m ci b k st <> None -> m ci (Alt a b) k st <> None.
Proof. simpl. destruct (m ci a k st); congruence. Qed.

End Search.

(** ** extractGender (C9) *)

Section Gender.

Lemma male_bare_m_shape :
  exists a b, nth 1 malePatterns (mkRegExp Eps false)
              = mkRegExp (Alt a (Alt b (Seq (Cls [One 109%N]) WordB))) true.
Proof. eexists; eexists; reflexivity. Qed.

(** C9: a text in which an [m] or [M] ends a word (a code unit that is
    not a word character, or nothing, follows it) is read as male,
    whatever else it contains, a female marker included: the male
    patterns are all tried first. *)
Theorem extractGender_word_ending_in_m :
  (forall (pre post : jsstring) (c : N),
     c = 109%N \/ c = 77%N ->
     is_word_opt (hd_error post) = false ->
     extractGender (pre ++ c :: post) = Some (js "M"))
  /\ extractGender (js "Wzrost: 181 cm, Płeć: K") = Some (js "M")
  /\ extractGender (js "kobieta, 181 cm") = Some (js "M")
  /\ extractGender (js "Płeć: K") = Some (js "F").
Proof.
  split; [|vm_compute; repeat split; reflexivity].
  intros pre post c Hc Hw.
  destruct male_bare_m_shape as (a & b & Hshape).
  assert (T : test (nth 1 malePatterns (mkRegExp Eps false)) (pre ++ c :: post) = true).
  { apply test_complete. rewrite Hshape. unfold match_at. cbn [source ignoreCase].
    apply m_alt_r, m_alt_r. cbn [m rest pos caps prev].
    assert (Hin : in_class true [One 109%N] c = true)
      by (destruct Hc as [-> | ->]; reflexivity).
    rewrite Hin. cbn [m rest pos caps prev hd_error is_word_opt].
    assert (Hwc : is_word c = true) by (destruct Hc as [-> | ->]; reflexivity).
    rewrite Hwc.
    destruct post as [|d post']; cbn [hd_error is_word_opt] in *.
    - discriminate.
    - rewrite Hw. discriminate. }
  unfold extractGender.
  assert (E : existsb (fun pattern => test pattern (pre ++ c :: post)) malePatterns = true).
  { apply existsb_exists. exists (nth 1 malePatterns (mkRegExp Eps false)).
    split; [right; left; reflexivity | exact T]. }
  rewrite E. reflexivity.
Qed.

Lemma extractGender_word_ending_in_m_witness :
  extractGender (js "Wzrost: 181 c" ++ 109%N :: js ", kobieta") = Some (js "M").
Proof.
  apply (proj1 extractGender_word_ending_in_m); [left; reflexivity | reflexivity].
Defined.

End Gender.

(** ** What a match consists of *)

Section MatcherSoundness.

Lemma prev_after_nil pv : prev_after pv [] = pv.
Proof. reflexivity. Qed.

Lemma prev_after_app pv w1 w2 :
  prev_after pv (w1 ++ w2) = prev_after (prev_after pv w1) w2.
Proof.
  revert pv; induction w1 as [|c w1 IH]; intros pv; [reflexivity|].
  simpl app. rewrite !prev_after_cons. apply IH.
Qed.

Lemma prev_after_last pv w c : prev_after pv (w ++ [c]) = Some c.
Proof. rewrite prev_after_app. reflexivity. Qed.

Lemma same_place_refl st : same_place st st.
Proof. repeat split. Qed.

Lemma rep_sound ci cs k cp res : forall s mn mx pv p,
  rep ci cs mn mx k pv s p cp = Some res ->
  exists w s', s = w ++ s'
    /\ Forall (fun c => in_class ci cs c = true) w
    /\ (mn <= List.length w)%nat /\ within mx (List.length w)
    /\ k (mkState (prev_after pv w) s' (p + List.length w)%nat cp) = Some res.
Proof.
  assert (Stay : forall s mn mx pv p,
    match mn with O => k (mkState pv s p cp) | S _ => None end = Some res ->
    exists w s', s = w ++ s'
      /\ Forall (fun c => in_class ci cs c = true) w
      /\ (mn <= List.length w)%nat /\ within mx (List.length w)
      /\ k (mkState (prev_after pv w) s' (p + List.length w)%nat cp) = Some res).
  { intros s mn mx pv p H. destruct mn; [|discriminate].
    exists [], s. simpl. rewrite Nat.add_0_r.
    repeat split; auto. destruct mx; simpl; lia. }
  induction s as [|c s IH]; intros mn mx pv p H.
  - simpl in H. apply Stay; assumption.
  - cbn [rep] in H.
    destruct (in_class ci cs c && negb (max_is_zero mx)) eqn:E; [|apply Stay; assumption].
    destruct (rep ci cs (Nat.pred mn) (dec_max mx) k (Some c) s (S p) cp) as [r|] eqn:R;
      [|apply Stay; assumption].
    injection H as <-.
    apply andb_true_iff in E as [Ec Em].
    destruct (IH _ _ _ _ R) as (w & s' & -> & Hall & Hmn & Hmx & Hk).
    exists (c :: w), s'. rewrite prev_after_cons. simpl List.length.
    replace (p + S (List.length w))%nat with (S p + List.length w)%nat by lia.
    repeat split; auto; try lia.
    all: destruct mx as [[|n]|]; simpl in *; try discriminate; try lia; try exact I.
Qed.

(** Whatever the matcher returns went through a state the pattern
    can reach. *)
Lemma m_sound ci r : forall k st res,
  m ci r k st = Some res ->
  exists st', den ci r st st' /\ k st' = Some res.
Proof.
  induction r as [|cs|a IHa b IHb|a IHa b IHb|a IHa|cs mn mx|a IHa| | |];
    intros k st res H; cbn [m] in H.
  - exists st. split; [apply same_place_refl | assumption].
  - destruct (rest st) as [|c s'] eqn:E; [discriminate|].
    destruct (in_class ci cs c) eqn:Ec; [|discriminate].
    eexists. split; [|exact H]. cbn [den]. exists c, s'. auto.
  - apply IHa in H as (mid & Da & H). apply IHb in H as (st' & Db & H).
    exists st'. split; [exists mid; auto | assumption].
  - destruct (m ci a k st) as [r|] eqn:E.
    + injection H as <-. apply IHa in E as (st' & D & E).
      exists st'. split; [left; assumption | assumption].
    + apply IHb in H as (st' & D & H).
      exists st'. split; [right; assumption | assumption].
  - destruct (m ci a _ st) as [r|] eqn:E.
    + injection H as <-. apply IHa in E as (st' & D & E).
      destruct (Nat.eqb (pos st') (pos st)); [discriminate|].
      exists st'. split; [right; assumption | assumption].
    + exists st. split; [left; apply same_place_refl | assumption].
  - apply rep_sound in H as (w & s' & E & Hall & Hmn & Hmx & Hk).
    eexists. split; [|exact Hk]. cbn [den]. exists w. cbn. auto 8.
  - apply IHa in H as (st' & D & H).
    eexists. split; [|exact H]. cbn [den].
    clear - D. revert st st' D.
    assert (G : forall r0 st st' cp, den ci r0 st st' ->
              den ci r0 st (mkState (prev st') (rest st') (pos st') cp)).
    { induction r0; intros st st' cp D; cbn [den] in *.
      - exact D.
      - destruct D as (c & s' & ?); exists c, s'; exact H.
      - destruct D as (mid & D1 & D2). exists mid. auto.
      - destruct D; auto.
      - destruct D; auto.
      - exact D.
      - auto.
      - exact D.
      - exact D.
      - exact D. }
    intros; apply G; assumption.
  - destruct (xorb _ _) eqn:E; [|discriminate].
    exists st. split; [split; [apply same_place_refl | assumption] | assumption].
  - destruct (Nat.eqb (pos st) 0) eqn:E; [|discriminate]. apply Nat.eqb_eq in E.
    exists st. split; [split; [apply same_place_refl | assumption] | assumption].
  - destruct (rest st) eqn:E; [|discriminate].
    exists st. split; [split; [apply same_place_refl | assumption] | assumption].
Qed.

(** A reachable state lies further along the same input, past a word
    of the pattern's shape. *)
Lemma den_shape ci r : forall st st',
  den ci r st st' ->
  exists w, rest st = w ++ rest st' /\ shape ci r w
    /\ prev st' = prev_after (prev st) w
    /\ pos st' = (pos st + List.length w)%nat.
Proof.
  assert (Same : forall st st', same_place st st' ->
    rest st = [] ++ rest st' /\ prev st' = prev_after (prev st) []
    /\ pos st' = (pos st + List.length (@nil N))%nat).
  { intros st st' (H1 & H2 & H3). simpl. rewrite H1, H2, H3. auto. }
  induction r as [|cs|a IHa b IHb|a IHa b IHb|a IHa|cs mn mx|a IHa| | |];
    intros st st' D; cbn [den shape] in *.
  - exists []. destruct (Same _ _ D) as (? & ? & ?). auto.
  - destruct D as (c & s' & E & Hc & Hp & Hr & Hn).
    exists [c]. rewrite E, Hr, Hp, Hn. simpl.
    repeat split; [exists c; auto | lia].
  - destruct D as (mid & Da & Db).
    destruct (IHa _ _ Da) as (w1 & E1 & S1 & P1 & N1).
    destruct (IHb _ _ Db) as (w2 & E2 & S2 & P2 & N2).
    exists (w1 ++ w2). rewrite E1, E2, <- app_assoc, prev_after_app, <- P1, P2, N2, N1.
    rewrite length_app. repeat split; [exists w1, w2; auto | lia].
  - destruct D as [D|D]; [apply IHa in D | apply IHb in D];
      destruct D as (w & ? & ? & ? & ?); exists w; auto.
  - destruct D as [D|D].
    + exists []. destruct (Same _ _ D) as (? & ? & ?). auto.
    + apply IHa in D as (w & ? & ? & ? & ?). exists w; auto.
  - destruct D as (w & E & Hall & Hmn & Hmx & Hp & Hn). exists w. auto 8.
  - apply IHa; assumption.
  - destruct D as [D _]. exists []. destruct (Same _ _ D) as (? & ? & ?). auto.
  - destruct D as [D _]. exists []. destruct (Same _ _ D) as (? & ? & ?). auto.
  - destruct D as [D _]. exists []. destruct (Same _ _ D) as (? & ? & ?). auto.
Qed.

(** A greedy repetition over a run of the class, when what follows
    the run accepts it whole. *)
Lemma rep_take ci cs k cp res : forall w tail mn mx pv p,
  Forall (fun c => in_class ci cs c = true) w ->
  (mn <= List.length w)%nat -> within mx (List.length w) ->
  (mx = Some (List.length w) \/ tail = []
   \/ exists c t, tail = c :: t /\ in_class ci cs c = false) ->
  k (mkState (prev_after pv w) tail (p + List.length w)%nat cp) = Some res ->
  rep ci cs mn mx k pv (w ++ tail) p cp = Some res.
Proof.
  induction w as [|c w IH]; intros tail mn mx pv p Hall Hmn Hmx Hstop Hk.
  - simpl in *. rewrite Nat.add_0_r in Hk. unfold prev_after in Hk. simpl in Hk.
    assert (mn = 0%nat) by lia. subst mn.
    destruct tail as [|c t]; cbn [rep]; [assumption|].
    destruct Hstop as [->|[E|(c' & t' & E & Hc)]].
    + simpl. rewrite andb_false_r. assumption.
    + discriminate.
    + injection E as <- <-. rewrite Hc. assumption.
  - inversion Hall as [|? ? Hc Hall']; subst. simpl app. cbn [rep].
    rewrite Hc. simpl List.length in *.
    assert (Hz : max_is_zero mx = false)
      by (destruct mx as [[|n]|]; simpl in *; auto; lia).
    rewrite Hz. cbn [andb negb].
    rewrite (IH tail (Nat.pred mn) (dec_max mx) (Some c) (S p)); auto.
    + lia.
    + destruct mx as [n|]; simpl in *; [lia | exact I].
    + destruct Hstop as [->|[->|H]]; [left; reflexivity | auto | auto].
    + rewrite prev_after_cons in Hk.
      replace (S p + List.length w)%nat with (p + S (List.length w))%nat by lia.
      exact Hk.
Qed.

(** What a successful search found: a position, no match before it,
    the match there. *)
Lemma search_from_sound re : forall s pv p f,
  search_from re pv s p = Some f ->
  exists pre st,
    s = pre ++ matched f ++ after f
    /\ index f = (p + List.length pre)%nat
    /\ match_at re (prev_after pv pre) (matched f ++ after f) (index f) = Some st
    /\ rest st = after f /\ groups f = caps st /\ after_prev f = prev st
    /\ pos st = (index f + List.length (matched f))%nat
    /\ (forall pre1 c pre2, pre = pre1 ++ c :: pre2 ->
          match_at re (prev_after pv pre1) (c :: pre2 ++ matched f ++ after f)
            (p + List.length pre1)%nat = None).
Proof.
  assert (Here : forall s pv p st,
    match_at re pv s p = Some st ->
    s = firstn (pos st - p) s ++ rest st
    /\ pos st = (p + List.length (firstn (pos st - p) s))%nat).
  { intros s pv p st E. unfold match_at in E.
    apply m_sound in E as (st' & D & Hk). injection Hk as ->.
    apply den_shape in D as (w & Hw & _ & _ & Hn). cbn [rest pos prev] in *.
    assert (Hf : firstn (pos st - p) s = w).
    { rewrite Hn, Hw.
      replace (p + List.length w - p)%nat with (List.length w + 0)%nat by lia.
      rewrite firstn_app_2. simpl. apply app_nil_r. }
    rewrite Hf. auto. }
  induction s as [|c s IH]; intros pv p f H; cbn [search_from] in H.
  - destruct (match_at re pv [] p) as [st|] eqn:E; [|discriminate].
    injection H as <-. cbn [matched after index groups after_prev].
    destruct (Here _ _ _ _ E) as [Hs Hn].
    exists [], st. cbn [app List.length prev_after rev]. rewrite Nat.add_0_r, <- Hs.
    repeat split; auto.
    intros pre1 c pre2 Habs. destruct pre1; discriminate.
  - destruct (match_at re pv (c :: s) p) as [st|] eqn:E.
    + injection H as <-. cbn [matched after index groups after_prev].
      destruct (Here _ _ _ _ E) as [Hs Hn].
      exists [], st. cbn [app List.length prev_after rev]. rewrite Nat.add_0_r, <- Hs.
      repeat split; auto.
      intros pre1 c' pre2 Habs. destruct pre1; discriminate.
    + apply IH in H as (pre & st & Es & Ei & Em & Hr & Hg & Hp & Hn & Hleft).
      exists (c :: pre), st. rewrite prev_after_cons. simpl List.length.
      repeat split; auto.
      * simpl. congruence.
      * lia.
      * intros pre1 c' pre2 Habs. destruct pre1 as [|x pre1].
        -- simpl in Habs. injection Habs as <- <-. simpl.
           rewrite Nat.add_0_r, <- Es. exact E.
        -- simpl in Habs. injection Habs as <- Habs. rewrite prev_after_cons.
           simpl List.length.
           replace (p + S (List.length pre1))%nat with (S p + List.length pre1)%nat by lia.
           apply Hleft. assumption.
Qed.

End MatcherSoundness.

(** ** extractTestDate (C6) *)

Section Dates.

Lemma In_Zrange lo n x : (lo <= x < lo + Z.of_nat n)%Z -> In x (Zrange lo n).
Proof.
  intros H. unfold Zrange. apply in_map_iff.
  exists (Z.to_nat (x - lo)). split; [lia|]. apply in_seq. lia.
Qed.

Lemma calendar_check : forallb check_year (Zrange 2000 101) = true.
Proof. vm_cast_no_check (eq_refl true). Qed.

Lemma numerals_check :
  numerals_ok 1 31 = true /\ years_ok 2000 101 = true.
Proof. vm_compute. split; reflexivity. Qed.

Lemma accept_date_calendar y m d :
  (2000 <= y <= 2100)%Z -> (1 <= m <= 12)%Z -> (1 <= d <= 31)%Z ->
  accept_date y m d = expected_date y m d.
Proof.
  intros Hy Hm Hd.
  assert (Iy : In y (Zrange 2000 101)) by (apply In_Zrange; simpl; lia).
  assert (Im : In m (Zrange 1 12)) by (apply In_Zrange; simpl; lia).
  assert (Id : In d (Zrange 1 31)) by (apply In_Zrange; simpl; lia).
  pose proof (proj1 (forallb_forall check_year (Zrange 2000 101)) calendar_check y Iy) as Cy.
  pose proof (proj1 (forallb_forall (check_month y) (Zrange 1 12)) Cy m Im) as Cm.
  pose proof (proj1 (forallb_forall (check_day y m) (Zrange 1 31)) Cm d Id) as C.
  unfold check_day in C.
  destruct (accept_date y m d), (expected_date y m d); cbn [opt_str_eqb] in C;
    try discriminate; try reflexivity.
  apply str_eqb_eq in C. congruence.
Qed.

Lemma reads_as_spec lo hi n w :
  reads_as lo hi n w = true ->
  Forall (fun c => is_digit c = true) w
  /\ (lo <= List.length w <= hi)%nat /\ parseInt w = Some n.
Proof.
  unfold reads_as. rewrite !andb_true_iff, forallb_forall, Forall_forall.
  intros [[[H1 H2] H3] H4]. apply Nat.leb_le in H2, H3.
  destruct (parseInt w) as [v|]; [|discriminate]. apply Z.eqb_eq in H4. subst v. auto.
Qed.

Lemma numeral_reads pd x :
  (1 <= x <= 31)%Z -> reads_as 1 2 x (numeral pd x) = true.
Proof.
  intros H. destruct numerals_check as [C _]. unfold numerals_ok in C.
  assert (Ix : In x (Zrange 1 31)) by (apply In_Zrange; simpl; lia).
  rewrite forallb_forall in C. specialize (C x Ix).
  apply andb_true_iff in C as [C1 C2]. destruct pd; assumption.
Qed.

Lemma year_reads y : (2000 <= y <= 2100)%Z -> reads_as 4 4 y (pad 4 y) = true.
Proof.
  intros H. destruct numerals_check as [_ C]. unfold years_ok in C.
  assert (Iy : In y (Zrange 2000 101)) by (apply In_Zrange; simpl; lia).
  rewrite forallb_forall in C. exact (C y Iy).
Qed.

Lemma in_class_digit c : in_class false [Digit] c = is_digit c.
Proof. unfold in_class, class_has. simpl. apply orb_false_r. Qed.

Lemma in_class_one c x : in_class false [One x] c = (c =? x)%N.
Proof. unfold in_class, class_has. simpl. apply orb_false_r. Qed.

(** A group of digits, closed by the end of the input or by a code
    unit that is not a digit. *)
Lemma m_digit_group lo hi k w tail pv p cp res :
  Forall (fun c => is_digit c = true) w ->
  (lo <= List.length w <= hi)%nat ->
  (tail = [] \/ exists c t, tail = c :: t /\ is_digit c = false) ->
  k (mkState (prev_after pv w) tail (p + List.length w)%nat (cp ++ [w])) = Some res ->
  m false (Grp (Rep [Digit] lo (Some hi))) k (mkState pv (w ++ tail) p cp) = Some res.
Proof.
  intros Hd Hl Ht Hk. cbn [m rest pos prev caps].
  apply rep_take.
  - eapply Forall_impl; [|exact Hd]. intros c Hc. rewrite in_class_digit. exact Hc.
  - lia.
  - simpl. lia.
  - destruct Ht as [->|(c & t & -> & Hc)]; [auto|].
    right; right. exists c, t. rewrite in_class_digit. auto.
  - cbn [rest pos prev caps].
    replace (p + List.length w - p)%nat with (List.length w + 0)%nat by lia.
    rewrite firstn_app_2. simpl firstn. rewrite app_nil_r. exact Hk.
Qed.

Lemma m_digit_group_end lo hi k w pv p cp res :
  Forall (fun c => is_digit c = true) w ->
  (lo <= List.length w <= hi)%nat ->
  k (mkState (prev_after pv w) [] (p + List.length w)%nat (cp ++ [w])) = Some res ->
  m false (Grp (Rep [Digit] lo (Some hi))) k (mkState pv w p cp) = Some res.
Proof.
  intros Hd Hl Hk. rewrite <- (app_nil_r w) at 1. apply m_digit_group; auto.
Qed.

Lemma m_chr c k s pv p cp res :
  k (mkState (Some c) s (S p) cp) = Some res ->
  m false (Cls [One c]) k (mkState pv (c :: s) p cp) = Some res.
Proof.
  intros H. cbn [m rest pos prev caps]. rewrite in_class_one, N.eqb_refl. exact H.
Qed.

Lemma m_seq ci a b k st : m ci (Seq a b) k st = m ci a (m ci b k) st.
Proof. reflexivity. Qed.

Lemma search_from_here re pv s p st :
  match_at re pv s p = Some st ->
  search_from re pv s p
  = Some (mkFound p (firstn (pos st - p) s) (caps st) (prev st) (rest st)).
Proof. intros H. destruct s; cbn [search_from]; rewrite H; reflexivity. Qed.

(** The pattern of three numbers on three numerals between its
    separators: the groups are the numerals. *)
Lemma exec_three_numbers sep a b c d e f w1 w2 w3 :
  is_digit sep = false ->
  reads_as a b 0 w1 || true = true ->
  Forall (fun x => is_digit x = true) w1 -> (a <= List.length w1 <= b)%nat ->
  Forall (fun x => is_digit x = true) w2 -> (c <= List.length w2 <= d)%nat ->
  Forall (fun x => is_digit x = true) w3 -> (e <= List.length w3 <= f)%nat ->
  exists mt, exec (three_numbers sep a b c d e f) (w1 ++ sep :: w2 ++ sep :: w3) = Some mt
             /\ groups mt = [w1; w2; w3].
Proof.
  intros Hs _ D1 L1 D2 L2 D3 L3.
  eexists. split.
  - unfold exec. apply search_from_here.
    unfold match_at, three_numbers, from_to, chr. cbn [source ignoreCase seq].
    rewrite m_seq. apply m_digit_group; auto.
    { right. eexists; eexists; split; [reflexivity | exact Hs]. }
    rewrite m_seq. apply m_chr.
    rewrite m_seq. apply m_digit_group; auto.
    { right. eexists; eexists; split; [reflexivity | exact Hs]. }
    rewrite m_seq. apply m_chr.
    apply m_digit_group_end; auto.
  - reflexivity.
Qed.

(** The pattern needs its separator. *)
Lemma exec_needs_separator sep a b c d e f text :
  ~ In sep text -> exec (three_numbers sep a b c d e f) text = None.
Proof.
  intros Hn. destruct (exec _ text) as [mt|] eqn:E; [|reflexivity]. exfalso.
  apply search_from_sound in E as (pre & st & Es & _ & Em & _).
  unfold match_at in Em. apply m_sound in Em as (st' & D & _).
  apply den_shape in D as (w & Hw & S & _). cbn [rest] in Hw.
  unfold three_numbers in S. cbn [source ignoreCase seq from_to chr shape] in S.
  destruct S as (w1 & w2 & -> & _ & (x1 & x2 & -> & (c0 & -> & Hc) & _)).
  rewrite in_class_one in Hc. apply N.eqb_eq in Hc. subst c0.
  apply Hn. rewrite Es, Hw. apply in_or_app. right.
  apply in_or_app. left. apply in_or_app. right. left. reflexivity.
Qed.

Lemma date_patterns_shape :
  datePatterns = [ (three_numbers 46 1 2 1 2 4 4, true);
                   (three_numbers 45 4 4 1 2 1 2, false);
                   (three_numbers 47 1 2 1 2 4 4, true) ].
Proof. reflexivity. Qed.

Lemma numerals_lack sep w1 w2 w3 other :
  Forall (fun x => is_digit x = true) w1 ->
  Forall (fun x => is_digit x = true) w2 ->
  Forall (fun x => is_digit x = true) w3 ->
  is_digit other = false -> other <> sep ->
  ~ In other (w1 ++ sep :: w2 ++ sep :: w3).
Proof.
  intros D1 D2 D3 Ho Hne Hin. rewrite Forall_forall in D1, D2, D3.
  apply in_app_or in Hin as [H|[H|H]]; [apply D1 in H; congruence | congruence |].
  apply in_app_or in H as [H|[H|H]]; [apply D2 in H; congruence | congruence |].
  apply D3 in H; congruence.
Qed.

Section OneDate.

Variables y mo d : Z.
Hypothesis Hy : (2000 <= y <= 2100)%Z.
Hypothesis Hm : (1 <= mo <= 12)%Z.
Hypothesis Hd : (1 <= d <= 31)%Z.

Lemma extract_dotted pd pm :
  extractTestDate (dotted pd pm y mo d) = expected_date y mo d.
Proof.
  destruct (reads_as_spec _ _ _ _ (numeral_reads pd d Hd)) as (Dd & Ld & Pd).
  assert (Hm' : (1 <= mo <= 31)%Z) by lia.
  destruct (reads_as_spec _ _ _ _ (numeral_reads pm mo Hm')) as (Dm & Lm & Pm).
  destruct (reads_as_spec _ _ _ _ (year_reads y Hy)) as (Dy & Ly & Py).
  unfold extractTestDate, dotted. rewrite date_patterns_shape.
  change (js ".") with [46%N]. cbn [app].
  destruct (exec_three_numbers 46 1 2 1 2 4 4 _ _ _ eq_refl (orb_true_r _) Dd Ld Dm Lm Dy Ly)
    as (mt & E & G).
  cbn [extractTestDate_from]. rewrite E. unfold group. rewrite G. cbn [nth Nat.sub].
  rewrite Pd, Pm, Py, (accept_date_calendar y mo d Hy Hm Hd).
  destruct (expected_date y mo d); [reflexivity|].
  rewrite !exec_needs_separator; [reflexivity | |];
    apply numerals_lack; auto; discriminate.
Qed.

Lemma extract_dashed pd pm :
  extractTestDate (dashed pd pm y mo d) = expected_date y mo d.
Proof.
  destruct (reads_as_spec _ _ _ _ (numeral_reads pd d Hd)) as (Dd & Ld & Pd).
  assert (Hm' : (1 <= mo <= 31)%Z) by lia.
  destruct (reads_as_spec _ _ _ _ (numeral_reads pm mo Hm')) as (Dm & Lm & Pm).
  destruct (reads_as_spec _ _ _ _ (year_reads y Hy)) as (Dy & Ly & Py).
  unfold extractTestDate, dashed. rewrite date_patterns_shape.
  change (js "-") with [45%N]. cbn [app].
  destruct (exec_three_numbers 45 4 4 1 2 1 2 _ _ _ eq_refl (orb_true_r _) Dy Ly Dm Lm Dd Ld)
    as (mt & E & G).
  cbn [extractTestDate_from].
  rewrite exec_needs_separator by (apply numerals_lack; auto; discriminate).
  rewrite E. unfold group. rewrite G. cbn [nth Nat.sub].
  rewrite Pd, Pm, Py, (accept_date_calendar y mo d Hy Hm Hd).
  destruct (expected_date y mo d); [reflexivity|].
  rewrite exec_needs_separator; [reflexivity|].
  apply numerals_lack; auto; discriminate.
Qed.

Lemma extract_slashed pd pm :
  extractTestDate (slashed pd pm y mo d) = expected_date y mo d.
Proof.
  destruct (reads_as_spec _ _ _ _ (numeral_reads pd d Hd)) as (Dd & Ld & Pd).
  assert (Hm' : (1 <= mo <= 31)%Z) by lia.
  destruct (reads_as_spec _ _ _ _ (numeral_reads pm mo Hm')) as (Dm & Lm & Pm).
  destruct (reads_as_spec _ _ _ _ (year_reads y Hy)) as (Dy & Ly & Py).
  unfold extractTestDate, slashed. rewrite date_patterns_shape.
  change (js "/") with [47%N]. cbn [app].
  destruct (exec_three_numbers 47 1 2 1 2 4 4 _ _ _ eq_refl (orb_true_r _) Dd Ld Dm Lm Dy Ly)
    as (mt & E & G).
  cbn [extractTestDate_from].
  rewrite !exec_needs_separator by (apply numerals_lack; auto; discriminate).
  rewrite E. unfold group. rewrite G. cbn [nth Nat.sub].
  rewrite Pd, Pm, Py, (accept_date_calendar y mo d Hy Hm Hd).
  destruct (expected_date y mo d); reflexivity.
Qed.

End OneDate.

(** C6: for a year from 2000 to 2100, a month number and a day number
    from 1 to 31, each of the three textual forms (with or without
    leading zeros) is read as the one canonical year-month-day string
    when the day exists in that month, and is not accepted when it
    does not. *)
Theorem extractTestDate_canonical (y mo d : Z) (text : jsstring) :
  (2000 <= y <= 2100)%Z -> (1 <= mo <= 12)%Z -> (1 <= d <= 31)%Z ->
  In text (date_texts y mo d) ->
  extractTestDate text
  = if (d <=? days_in_month y mo)%Z then Some (iso_date y mo d) else None.
Proof.
  intros Hy Hm Hd Hin. change (extractTestDate text = expected_date y mo d).
  unfold date_texts in Hin. cbn [flat_map app] in Hin.
  repeat (destruct Hin as [<-|Hin];
          [first [apply extract_dotted | apply extract_dashed | apply extract_slashed];
           assumption|]).
  destruct Hin.
Qed.

Lemma extractTestDate_canonical_witness :
  extractTestDate (js "15.01.2025") = Some (js "2025-01-15")
  /\ extractTestDate (js "2025-01-15") = Some (js "2025-01-15")
  /\ extractTestDate (js "15/01/2025") = Some (js "2025-01-15")
  /\ extractTestDate (js "31.04.2025") = None.
Proof.
  split; [|split; [|split]].
  - apply (extractTestDate_canonical 2025 1 15); try lia. left. reflexivity.
  - apply (extractTestDate_canonical 2025 1 15); try lia. right; left. reflexivity.
  - apply (extractTestDate_canonical 2025 1 15); try lia. right; right; left. reflexivity.
  - apply (extractTestDate_canonical 2025 4 31); try lia. left. reflexivity.
Defined.

End Dates.

(** ** Replacement keeps what no match can touch *)

Section ShapeAnalyses.

Lemma citem_eqb_eq a b : citem_eqb a b = true -> a = b.
Proof.
  destruct a, b; simpl; try discriminate; try reflexivity.
  - intros H. apply N.eqb_eq in H. congruence.
  - intros H. apply andb_true_iff in H as [H1 H2].
    apply N.eqb_eq in H1, H2. congruence.
Qed.

Lemma class_has_incl cs G c :
  class_incl cs G = true -> class_has cs c = true -> class_has G c = true.
Proof.
  unfold class_incl, class_has. rewrite forallb_forall.
  intros Hi H. apply existsb_exists in H as (it & Hit & Hc).
  specialize (Hi it Hit). apply existsb_exists in Hi as (it' & Hit' & He).
  apply citem_eqb_eq in He. subst it'.
  apply existsb_exists. exists it. auto.
Qed.

Lemma in_class_incl ci cs G c :
  class_incl cs G = true -> in_class ci cs c = true -> in_class ci G c = true.
Proof.
  intros Hi. unfold in_class. destruct ci.
  - rewrite !orb_true_iff. intros [H|H]; [left | right]; eapply class_has_incl; eauto.
  - apply class_has_incl; assumption.
Qed.

Lemma shape_musts ci G r : forall w,
  musts G r = true -> shape ci r w ->
  Exists (fun c => in_class ci G c = true) w.
Proof.
  induction r as [|cs|a IHa b IHb|a IHa b IHb|a IHa|cs mn mx|a IHa| | |];
    intros w Hm Hs; cbn [musts shape] in *; try discriminate.
  - destruct Hs as (c & -> & Hc). constructor. eapply in_class_incl; eauto.
  - destruct Hs as (w1 & w2 & -> & S1 & S2). apply Exists_app.
    apply orb_true_iff in Hm as [Hm|Hm]; [left | right]; auto.
  - apply andb_true_iff in Hm as [H1 H2]. destruct Hs; auto.
  - apply andb_true_iff in Hm as [H1 H2]. apply Nat.leb_le in H1.
    destruct Hs as (Hall & Hmn & _).
    destruct w as [|c w]; [simpl in Hmn; lia|].
    inversion Hall; subst. constructor. eapply in_class_incl; eauto.
  - auto.
Qed.

Lemma shape_avoids ci F r : forall w,
  avoids F ci r = true -> shape ci r w -> Forall (fun c => ~ In c F) w.
Proof.
  assert (One : forall cs c, forallb (fun x => negb (in_class ci cs x)) F = true ->
            in_class ci cs c = true -> ~ In c F).
  { intros cs c Hf Hc Hin. rewrite forallb_forall in Hf.
    specialize (Hf c Hin). rewrite Hc in Hf. discriminate. }
  induction r as [|cs|a IHa b IHb|a IHa b IHb|a IHa|cs mn mx|a IHa| | |];
    intros w Ha Hs; cbn [avoids shape] in *; try (subst w; constructor).
  - destruct Hs as (c & -> & Hc). constructor; [eapply One; eauto | constructor].
  - apply andb_true_iff in Ha as [H1 H2].
    destruct Hs as (w1 & w2 & -> & S1 & S2). apply Forall_app. auto.
  - apply andb_true_iff in Ha as [H1 H2]. destruct Hs; auto.
  - destruct Hs as [->|Hs]; [constructor | auto].
  - destruct Hs as (Hall & _). eapply Forall_impl; [|exact Hall].
    intros c Hc. eapply One; eauto.
  - auto.
Qed.

(** The word a match at a position of the input covers. *)
Lemma match_at_word re pv s p st :
  match_at re pv s p = Some st ->
  exists w, s = w ++ rest st /\ pos st = (p + List.length w)%nat
            /\ shape (ignoreCase re) (source re) w.
Proof.
  unfold match_at. intros H. apply m_sound in H as (st' & D & Hk).
  injection Hk as ->. apply den_shape in D as (w & Hw & Hs & _ & Hn).
  exists w. auto.
Qed.

End ShapeAnalyses.

Section Protected.

Variables (re : RegExp) (by_ : jsstring) (F : list N) (G : class) (X : jsstring).

Hypothesis Hav : avoids F (ignoreCase re) (source re) = true.
Hypothesis Hmu : musts G (source re) = true.
Hypothesis Hby : by_ <> [].
Hypothesis Hhd : exists x X', X = x :: X' /\ In x F.
Hypothesis Hlast : exists X' x, X = X' ++ [x] /\ In x F.
Hypothesis Hin : Forall (fun c => in_class (ignoreCase re) G c = false) X.

Lemma touch_word pv s p st :
  match_at re pv s p = Some st ->
  exists w, s = w ++ rest st /\ pos st = (p + List.length w)%nat /\ w <> []
            /\ Forall (fun c => ~ In c F) w
            /\ Exists (fun c => in_class (ignoreCase re) G c = true) w.
Proof.
  intros H. apply match_at_word in H as (w & Hw & Hn & Hs).
  pose proof (shape_musts _ _ _ _ Hmu Hs) as Hex.
  exists w. repeat split; auto.
  - intros ->. inversion Hex.
  - eapply shape_avoids; eauto.
Qed.

Lemma no_match_inside X1 X2 v pv p :
  X = X1 ++ X2 -> X2 <> [] -> match_at re pv (X2 ++ v) p = None.
Proof.
  intros HX Hne. destruct (match_at re pv (X2 ++ v) p) as [st|] eqn:E; [|reflexivity].
  exfalso. apply touch_word in E as (w & Hw & _ & _ & Hall & Hex).
  apply app_eq_app in Hw as (l & [[E1 E2]|[E1 E2]]).
  - apply Exists_exists in Hex as (c & Hc & Hg).
    rewrite Forall_forall in Hin.
    assert (Hx : In c X) by (rewrite HX, E1; apply in_or_app; right; apply in_or_app; auto).
    rewrite (Hin c Hx) in Hg. discriminate.
  - destruct Hlast as (X' & x & HX' & HxF).
    assert (Hx : In x X2).
    { rewrite (app_removelast_last x Hne) in HX. rewrite app_assoc in HX.
      rewrite HX' in HX. apply app_inj_tail in HX as [_ Hl].
      rewrite Hl. rewrite (app_removelast_last x Hne) at 2.
      apply in_or_app. right. left. reflexivity. }
    rewrite Forall_forall in Hall. apply (Hall x); [|assumption].
    rewrite E1. apply in_or_app. auto.
Qed.

Lemma match_stays_before u2 v pv p st :
  match_at re pv (u2 ++ X ++ v) p = Some st ->
  exists w u3, u2 = w ++ u3 /\ pos st = (p + List.length w)%nat /\ w <> [].
Proof.
  intros E. apply touch_word in E as (w & Hw & Hn & Hne & Hall & _).
  apply app_eq_app in Hw as (l & [[E1 E2]|[E1 E2]]).
  - exists w, l. auto.
  - destruct l as [|c l].
    + exists w, []. rewrite app_nil_r in *. auto.
    + exfalso. destruct Hhd as (x & X' & HX & HxF). rewrite HX in E2.
      simpl in E2. injection E2 as <- _.
      rewrite Forall_forall in Hall. apply (Hall x); [|assumption].
      rewrite E1. apply in_or_app. right. left. reflexivity.
Qed.

Lemma tail_replaced v pv p : starts_like by_ v (replace_loop re by_ 0 pv v p).
Proof.
  destruct v as [|c v1]; cbn [replace_loop].
  - destruct (match_at re pv [] p) as [st|] eqn:E; [|left; reflexivity].
    exfalso. apply touch_word in E as (w & Hw & _ & Hne & _).
    destruct w; [congruence | discriminate].
  - destruct (match_at re pv (c :: v1) p) as [st|]; [|left; reflexivity].
    right. split; [discriminate|]. destruct by_; [congruence | reflexivity].
Qed.

Lemma inside_copied : forall X2 X1 pv p v,
  X = X1 ++ X2 ->
  exists v', replace_loop re by_ 0 pv (X2 ++ v) p = X2 ++ v' /\ starts_like by_ v v'.
Proof.
  induction X2 as [|c X2 IH]; intros X1 pv p v HX.
  - eexists. split; [reflexivity | apply tail_replaced].
  - cbn [app replace_loop].
    change (c :: X2 ++ v) with ((c :: X2) ++ v).
    rewrite (no_match_inside X1 (c :: X2) v pv p HX) by discriminate.
    destruct (IH (X1 ++ [c]) (Some c) (S p) v) as (v' & E & Hs).
    { rewrite <- app_assoc. exact HX. }
    exists v'. rewrite E. auto.
Qed.

Lemma replace_loop_keeps : forall u skip pv p v,
  (skip <= List.length u)%nat ->
  exists u' v',
    replace_loop re by_ skip pv (u ++ X ++ v) p = u' ++ X ++ v'
    /\ ends_like skip u by_ u' /\ starts_like by_ v v'.
Proof.
  induction u as [|c u IH]; intros skip pv p v Hs.
  - simpl in Hs. assert (skip = 0%nat) by lia. subst skip.
    destruct (inside_copied X [] pv p v eq_refl) as (v' & E & Hv).
    exists [], v'. cbn [app]. rewrite E. repeat split; auto.
    left. auto.
  - simpl in Hs. destruct skip as [|n].
    + cbn [app replace_loop].
      destruct (match_at re pv (c :: u ++ X ++ v) p) as [st|] eqn:E.
      * change (c :: u ++ X ++ v) with ((c :: u) ++ X ++ v) in E.
        apply match_stays_before in E as (w & u3 & Hu & Hn & Hne).
        destruct w as [|c0 w]; [congruence|]. simpl in Hu. injection Hu as <- Hu.
        rewrite Hn. replace (p + List.length (c :: w) - p)%nat with (S (List.length w))
          by (simpl; lia).
        destruct (IH (List.length w) (Some c) (S p) v) as (u' & v' & E & He & Hv).
        { rewrite Hu, length_app. lia. }
        exists (by_ ++ u'), v'. rewrite E, <- app_assoc. repeat split; auto.
        right. destruct He as [[-> _]|(a & x & -> & Hx)].
        -- destruct (exists_last Hby) as (b & x & Eb).
           exists b, x. rewrite app_nil_r. split; [assumption|]. right. exists b. assumption.
        -- exists (by_ ++ a), x. rewrite app_assoc. split; [reflexivity|].
           destruct Hx as [(b & ->)|Hx]; [left; exists (c :: b); reflexivity | right; assumption].
      * destruct (IH 0%nat (Some c) (S p) v) as (u' & v' & E' & He & Hv); [lia|].
        exists (c :: u'), v'. rewrite E'. repeat split; auto.
        right. destruct He as [[-> [->|Hlt]]|(a & x & -> & Hx)].
        -- exists [], c. split; [reflexivity|]. left. exists []. reflexivity.
        -- lia.
        -- exists (c :: a), x. split; [reflexivity|].
           destruct Hx as [(b & ->)|Hx]; [left; exists (c :: b); reflexivity | right; assumption].
    + cbn [app replace_loop].
      destruct (IH n (Some c) (S p) v) as (u' & v' & E & He & Hv); [lia|].
      exists u', v'. rewrite E. repeat split; auto.
      destruct He as [[-> _]|(a & x & -> & Hx)].
      * left. split; [reflexivity|]. right. lia.
      * right. exists a, x. split; [reflexivity|].
        destruct Hx as [(b & ->)|Hx]; [left; exists (c :: b); reflexivity | right; assumption].
Qed.

(** Replacing every match keeps a segment no match can touch. *)
Lemma replace_all_keeps u v :
  exists u' v',
    replace_all re by_ (u ++ X ++ v) = u' ++ X ++ v'
    /\ ends_like 0 u by_ u' /\ starts_like by_ v v'.
Proof. apply replace_loop_keeps. lia. Qed.

End Protected.

(** ** Redaction (C1) *)

Section Redaction.

Lemma startsWith_app X v : startsWith (X ++ v) X = true.
Proof.
  induction X as [|c X IH]; simpl; [destruct v; reflexivity|].
  rewrite N.eqb_refl. exact IH.
Qed.

Lemma includes_app u X v : includes (u ++ X ++ v) X = true.
Proof.
  induction u as [|c u IH].
  - simpl app. pose proof (startsWith_app X v) as H.
    destruct (X ++ v); cbn [includes]; rewrite H; reflexivity.
  - cbn [app includes]. rewrite IH. apply orb_true_r.
Qed.

Lemma startsWith_split s X : startsWith s X = true -> exists v, s = X ++ v.
Proof.
  revert s; induction X as [|c X IH]; intros s H.
  - exists s. reflexivity.
  - destruct s as [|d s]; simpl in H; [discriminate|].
    apply andb_true_iff in H as [H1 H2]. apply N.eqb_eq in H1. subst d.
    destruct (IH s H2) as (v & ->). exists v. reflexivity.
Qed.

Lemma includes_split s X : includes s X = true -> exists u v, s = u ++ X ++ v.
Proof.
  induction s as [|c s IH]; cbn [includes]; intros H.
  - rewrite orb_false_r in H. apply startsWith_split in H as (v & E).
    exists [], v. exact E.
  - apply orb_true_iff in H as [H|H].
    + apply startsWith_split in H as (v & E). exists [], v. exact E.
    + destruct (IH H) as (u & v & ->). exists (c :: u), v. reflexivity.
Qed.

(** The first match is replaced. *)
Lemma replace_loop_first re by_ rest_ st : forall pre pv p,
  (forall pre1 c pre2, pre = pre1 ++ c :: pre2 ->
     match_at re (prev_after pv pre1) (c :: pre2 ++ rest_) (p + List.length pre1)%nat = None) ->
  match_at re (prev_after pv pre) rest_ (p + List.length pre)%nat = Some st ->
  exists v, replace_loop re by_ 0 pv (pre ++ rest_) p = pre ++ by_ ++ v.
Proof.
  induction pre as [|c pre IH]; intros pv p Hleft Hm.
  - simpl in Hm. rewrite Nat.add_0_r in Hm. unfold prev_after in Hm. simpl in Hm.
    simpl app. destruct rest_; cbn [replace_loop]; rewrite Hm; eexists; reflexivity.
  - cbn [app replace_loop].
    pose proof (Hleft [] c pre eq_refl) as H0. simpl in H0. rewrite Nat.add_0_r in H0.
    unfold prev_after in H0. simpl in H0. rewrite H0.
    destruct (IH (Some c) (S p)) as (v & E).
    + intros pre1 c' pre2 Hp. specialize (Hleft (c :: pre1) c' pre2).
      rewrite prev_after_cons in Hleft. simpl List.length in Hleft.
      replace (S p + List.length pre1)%nat with (p + S (List.length pre1))%nat by lia.
      apply Hleft. rewrite Hp. reflexivity.
    + rewrite prev_after_cons in Hm. simpl List.length in Hm.
      replace (S p + List.length pre)%nat with (p + S (List.length pre))%nat by lia.
      exact Hm.
    + exists v. rewrite E. reflexivity.
Qed.

Lemma replace_all_inserts re by_ t :
  test re t = true -> includes (replace_all re by_ t) by_ = true.
Proof.
  unfold test, exec. destruct (search_from re None t 0) as [f|] eqn:E; [|discriminate].
  intros _. apply search_from_sound in E as (pre & st & Et & Ei & Em & _ & _ & _ & _ & Hleft).
  rewrite Ei in Em.
  destruct (replace_loop_first re by_ _ st pre None 0%nat Hleft Em) as (v & Hv).
  unfold replace_all. rewrite Et, Hv. apply includes_app.
Qed.

(** A rule whose matches hold no bracket and all hold a code unit that
    the placeholder lacks leaves the placeholder in the text. *)
Lemma replace_all_keeps_placeholder re by_ G X t :
  avoids brackets (ignoreCase re) (source re) = true ->
  musts G (source re) = true ->
  by_ <> [] ->
  bracketed (ignoreCase re) G X = true ->
  includes t X = true ->
  includes (replace_all re by_ t) X = true.
Proof.
  intros Hav Hmu Hby Hbr Hinc.
  apply includes_split in Hinc as (u & v & ->).
  unfold bracketed in Hbr. apply andb_true_iff in Hbr as [Hbr Hg].
  apply andb_true_iff in Hbr as [Hh Hl]. apply N.eqb_eq in Hl.
  assert (Hne : X <> []) by (intros ->; discriminate).
  destruct (replace_all_keeps re by_ brackets G X Hav Hmu Hby) with (u := u) (v := v)
    as (u' & v' & E & _).
  - destruct X as [|x X']; [discriminate|]. exists x, X'. split; [reflexivity|].
    destruct x; try discriminate. repeat (destruct p; try discriminate). left. reflexivity.
  - exists (removelast X), (last X 0%N). split; [apply app_removelast_last; assumption|].
    rewrite Hl. right. left. reflexivity.
  - rewrite forallb_forall in Hg. apply Forall_forall. intros c Hc.
    specialize (Hg c Hc). destruct (in_class _ G c); [discriminate | reflexivity].
  - rewrite E. apply includes_app.
Qed.

Lemma remove_steps content :
  removePersonalIdentifiers content
  = replace_all (nth 0 institutionPatterns namePattern) (js "[INSTITUTION]")
      (replace_all emailPattern (js "[EMAIL]") (before_email content)).
Proof. reflexivity. Qed.

Ltac keep_placeholder G :=
  apply (replace_all_keeps_placeholder _ _ G);
  [ vm_compute; reflexivity | vm_compute; reflexivity | discriminate
  | vm_compute; reflexivity | ].

Lemma name_placeholder_stays content :
  includes (before_pesel content) (js "[NAME]") = true ->
  includes (removePersonalIdentifiers content) (js "[NAME]") = true.
Proof.
  intros H. rewrite remove_steps. unfold before_email.
  keep_placeholder institution_marks.
  keep_placeholder [One 64%N].
  keep_placeholder [Digit].
  keep_placeholder [Space].
  keep_placeholder [Digit].
  keep_placeholder [Digit].
  exact H.
Qed.

Lemma id_placeholder_stays content :
  includes (replace_all peselPattern (js "[ID]") (before_pesel content)) (js "[ID]") = true ->
  includes (removePersonalIdentifiers content) (js "[ID]") = true.
Proof.
  intros H. rewrite remove_steps. unfold before_email.
  keep_placeholder institution_marks.
  keep_placeholder [One 64%N].
  keep_placeholder [Digit].
  keep_placeholder [Space].
  keep_placeholder [Digit].
  exact H.
Qed.

Lemma email_placeholder_stays content :
  includes (replace_all emailPattern (js "[EMAIL]") (before_email content)) (js "[EMAIL]") = true ->
  includes (removePersonalIdentifiers content) (js "[EMAIL]") = true.
Proof.
  intros H. rewrite remove_steps.
  keep_placeholder institution_marks.
  exact H.
Qed.

End Redaction.

Section RedactionOfNumbers.

Lemma is_digit_codes c : is_digit c = true -> In c digit_codes.
Proof.
  unfold is_digit, between. intros H. apply andb_true_iff in H as [H1 H2].
  apply N.leb_le in H1, H2. unfold digit_codes.
  assert (c = 48 \/ c = 49 \/ c = 50 \/ c = 51 \/ c = 52 \/ c = 53 \/ c = 54
          \/ c = 55 \/ c = 56 \/ c = 57)%N as Hc by lia.
  simpl. intuition.
Qed.

Lemma is_digit_word c : is_digit c = true -> is_word c = true.
Proof. unfold is_word, is_digit. intros ->. rewrite orb_true_r. reflexivity. Qed.

Lemma digit_not_capital c : is_digit c = true -> in_class false upperPL c = false.
Proof.
  intros H. apply is_digit_codes in H. unfold digit_codes in H. simpl in H.
  repeat (destruct H as [<-|H]; [reflexivity|]). destruct H.
Qed.

Lemma prev_after_digits pv w :
  Forall (fun c => is_digit c = true) w -> w <> [] ->
  is_word_opt (prev_after pv w) = true.
Proof.
  intros Hd Hne. destruct (exists_last Hne) as (w' & x & ->).
  rewrite prev_after_last. simpl. apply is_digit_word.
  rewrite Forall_forall in Hd. apply Hd. apply in_or_app. right. left. reflexivity.
Qed.

Lemma pesel_shape :
  source peselPattern = Seq WordB (Seq (Rep [Digit] 11%nat (Some 11%nat)) WordB)
  /\ ignoreCase peselPattern = false.
Proof. split; reflexivity. Qed.

(** What the 11-digit pattern matches: eleven digits, with no word
    character before or after. *)
Lemma pesel_match_inv pv s p st :
  match_at peselPattern pv s p = Some st ->
  exists w, s = w ++ rest st
    /\ Forall (fun c => is_digit c = true) w /\ List.length w = 11%nat
    /\ is_word_opt pv = false /\ is_word_opt (hd_error (rest st)) = false.
Proof.
  unfold match_at. destruct pesel_shape as [-> ->]. intros H.
  apply m_sound in H as (st' & D & Hk). injection Hk as ->.
  cbn [den] in D.
  destruct D as (m1 & [(P1 & R1 & N1) B1] & m2
                 & (w & Hw & Hall & Hlo & Hhi & Hp & Hn) & [(P2 & R2 & N2) B2]).
  cbn [prev rest pos] in *. simpl in Hhi.
  assert (Hd : Forall (fun c => is_digit c = true) w).
  { eapply Forall_impl; [|exact Hall]. intros c Hc. cbv beta in Hc.
    rewrite in_class_digit in Hc. exact Hc. }
  assert (Hne : w <> []) by (intros ->; simpl in Hlo; lia).
  exists w. rewrite R2, <- Hw, R1. repeat split; auto; try lia.
  - rewrite <- R1, Hw in B1. destruct w as [|c w]; [congruence|]. simpl in B1.
    inversion Hd as [|? ? Hc0 Hd']. rewrite (is_digit_word c Hc0) in B1.
    destruct (is_word_opt pv); [discriminate | reflexivity].
  - rewrite Hp, P1 in B2. rewrite (prev_after_digits pv w Hd Hne) in B2.
    destruct (is_word_opt (hd_error (rest m2))); [discriminate | reflexivity].
Qed.

Lemma pesel_matches pv w post p :
  Forall (fun c => is_digit c = true) w -> List.length w = 11%nat ->
  is_word_opt pv = false -> is_word_opt (hd_error post) = false ->
  match_at peselPattern pv (w ++ post) p <> None.
Proof.
  intros Hd Hl Hpv Hpost. unfold match_at. destruct pesel_shape as [-> ->].
  assert (Hne : w <> []) by (intros ->; discriminate).
  cbn [m prev rest pos caps]. rewrite Hpv.
  destruct w as [|c w0] eqn:Ew; [congruence|]. rewrite <- Ew in *.
  assert (Hc : is_word_opt (hd_error (w ++ post)) = true).
  { rewrite Ew. simpl. apply is_digit_word. rewrite Ew in Hd. inversion Hd; assumption. }
  rewrite Hc. cbn [xorb].
  erewrite rep_take; [discriminate | | lia | simpl; lia | left; rewrite Hl; reflexivity | ].
  - eapply Forall_impl; [|exact Hd]. intros x Hx. rewrite in_class_digit. exact Hx.
  - cbn [prev rest pos caps]. rewrite (prev_after_digits pv w Hd Hne), Hpost. reflexivity.
Qed.

(** An 11-digit number of the input is still one when the names are
    replaced. *)
Lemma pesel_survives_names content :
  test peselPattern content = true ->
  test peselPattern (before_pesel content) = true.
Proof.
  unfold test at 1, exec.
  destruct (search_from peselPattern None content 0) as [f|] eqn:E; [|discriminate].
  intros _. apply search_from_sound in E as (pre & st & Et & _ & Em & Hr & _).
  apply pesel_match_inv in Em as (w & Hw & Hd & Hl & Hpv & Hpost).
  rewrite Hr in Hw, Hpost. rewrite Hw in Et.
  assert (Hne : w <> []) by (intros ->; discriminate).
  destruct (replace_all_keeps namePattern (js "[NAME]") digit_codes upperPL w)
    with (u := pre) (v := after f) as (u' & v' & E & He & Hs).
  - vm_compute. reflexivity.
  - vm_compute. reflexivity.
  - discriminate.
  - destruct w as [|x w']; [congruence|]. exists x, w'. split; [reflexivity|].
    apply is_digit_codes. inversion Hd; assumption.
  - destruct (exists_last Hne) as (w' & x & Ew). exists w', x. split; [assumption|].
    apply is_digit_codes. rewrite Forall_forall in Hd. apply Hd. rewrite Ew.
    apply in_or_app. right. left. reflexivity.
  - eapply Forall_impl; [|exact Hd]. intros c Hc. apply digit_not_capital. exact Hc.
  - unfold before_pesel. rewrite Et, E. apply test_complete.
    apply pesel_matches; auto.
    + destruct He as [[-> _]|(a & c & -> & [(b & Hb)|(b & Hb)])].
      * reflexivity.
      * rewrite prev_after_last. rewrite Hb, prev_after_last in Hpv. exact Hpv.
      * rewrite prev_after_last.
        change (js "[NAME]") with (js "[NAME" ++ [93%N]) in Hb.
        apply app_inj_tail in Hb as [_ <-]. reflexivity.
    + destruct Hs as [->|[_ ->]]; [exact Hpost | reflexivity].
Qed.

End RedactionOfNumbers.

Section RedactionResult.

(** What a call that returns went through. *)
Lemma anonymizeDocument_returned now content metadata r :
  anonymizeDocument now content metadata = Returned r ->
  exists s, content = VStr s /\ s <> []
    /\ validateAnonymization (removePersonalIdentifiers s) (extractMedicalData s) = Returned tt
    /\ anonymizedContent r = removePersonalIdentifiers s
    /\ medicalData r = extractMedicalData s
    /\ anonymizedAt (AnonymizationService.metadata r) = toISOString now.
Proof.
  unfold anonymizeDocument.
  destruct content as [| | | |[|c s]| |]; try discriminate.
  destruct (validateAnonymization _ _) as [[]|e] eqn:V; cbn [bind]; [|discriminate].
  destruct (get _ "type") as [ty|]; cbn [bind]; [|discriminate].
  destruct (get _ "size") as [sz|]; cbn [bind]; [|discriminate].
  intros H; injection H as <-. exists (c :: s). cbn.
  repeat split; auto. discriminate.
Qed.




End RedactionResult.

(** ** How the scanner reads what [JSON.parse] accepts *)

Section ScannerOnJson.

Lemma lex_run_app l a b : lex_run l (a ++ b) = lex_run (lex_run l a) b.
Proof. unfold lex_run. apply fold_left_app. Qed.

Lemma all_along_app P a : forall l b,
  all_along P l (a ++ b) <-> all_along P l a /\ all_along P (lex_run l a) b.
Proof.
  induction a as [|c a IH]; intros l b; simpl.
  - tauto.
  - rewrite IH. tauto.
Qed.

Lemma all_along_impl (P Q : lex -> Prop) w : forall l,
  (forall x, P x -> Q x) -> all_along P l w -> all_along Q l w.
Proof.
  induction w as [|c w IH]; intros l H; simpl; [tauto|].
  intros [H1 H2]. split; [auto | apply IH; auto].
Qed.

Lemma plain_step d c : plain c = true -> lex_step (level d) c = level d.
Proof.
  unfold plain, lex_step, level. cbn [esc inStr depth].
  rewrite negb_true_iff, !orb_false_iff. intros [[[H1 H2] H3] H4].
  rewrite H1, H2, H3, H4. reflexivity.
Qed.

Lemma above_level d : above d (level d).
Proof. right. simpl. lia. Qed.

Lemma above_weaken d d' l : (d <= d')%Z -> above d' l -> above d l.
Proof. intros H [A|A]; [left; assumption | right; lia]. Qed.

Lemma value_text_nil : value_text [].
Proof. intros d. simpl. auto. Qed.

Lemma value_text_app a b : value_text a -> value_text b -> value_text (a ++ b).
Proof.
  intros Ha Hb d. destruct (Ha d) as [Ra Aa]. destruct (Hb d) as [Rb Ab].
  rewrite lex_run_app, Ra. split; [assumption|].
  apply all_along_app. rewrite Ra. auto.
Qed.

Lemma value_text_one c : plain c = true -> value_text [c].
Proof.
  intros H d. unfold lex_run. simpl. rewrite plain_step by assumption.
  split; [reflexivity | split; [apply above_level | exact I]].
Qed.

Lemma value_text_plain w : Forall (fun c => plain c = true) w -> value_text w.
Proof.
  induction 1 as [|c w Hc _ IH]; [apply value_text_nil|].
  change (c :: w) with ([c] ++ w). apply value_text_app; [apply value_text_one|]; assumption.
Qed.

Lemma value_text_string w : string_text w -> value_text (34%N :: w).
Proof.
  intros (w' & -> & H) d. destruct (H d) as [R A].
  assert (S1 : lex_step (level d) 34 = quoted d) by reflexivity.
  assert (S2 : lex_step (quoted d) 34 = level d) by reflexivity.
  change (34%N :: w' ++ [34%N]) with ([34%N] ++ w' ++ [34%N]).
  rewrite !lex_run_app. unfold lex_run at 3. cbn [fold_left]. rewrite S1, R.
  unfold lex_run. cbn [fold_left]. rewrite S2. split; [reflexivity|].
  cbn [app all_along]. rewrite S1. split; [left; reflexivity|].
  apply all_along_app. split.
  - eapply all_along_impl; [|exact A]. intros x Hx. left. exact Hx.
  - rewrite R. cbn [all_along]. rewrite S2. split; [apply above_level | exact I].
Qed.

Lemma value_text_object w : members_text w -> value_text (123%N :: w).
Proof.
  intros (w' & -> & H) d. destruct (H (d + 1)%Z) as [R A].
  assert (S1 : lex_step (level d) 123 = level (d + 1)) by reflexivity.
  assert (S2 : lex_step (level (d + 1)) 125 = level d).
  { unfold lex_step, level. cbn. f_equal. lia. }
  change (123%N :: w' ++ [125%N]) with ([123%N] ++ w' ++ [125%N]).
  rewrite !lex_run_app. unfold lex_run at 3. cbn [fold_left]. rewrite S1, R.
  unfold lex_run. cbn [fold_left]. rewrite S2. split; [reflexivity|].
  cbn [app all_along]. rewrite S1. split; [right; simpl; lia|].
  apply all_along_app. split.
  - eapply all_along_impl; [|exact A]. intros x Hx. eapply above_weaken; [|exact Hx]. lia.
  - rewrite R. cbn [all_along]. rewrite S2. split; [apply above_level | exact I].
Qed.

Lemma takes_refl (T : jsstring -> Prop) s : T [] -> takes T s s.
Proof. intros H. exists []. auto. Qed.

Lemma takes_value_trans s r t :
  takes value_text s r -> takes value_text r t -> takes value_text s t.
Proof.
  intros (a & -> & Ha) (b & -> & Hb). exists (a ++ b).
  rewrite app_assoc. split; [reflexivity | apply value_text_app; assumption].
Qed.

Lemma takes_plain c s : plain c = true -> takes value_text (c :: s) s.
Proof. intros H. exists [c]. split; [reflexivity | apply value_text_one; assumption]. Qed.

Lemma is_ws_plain c : JSON.is_ws c = true -> plain c = true.
Proof.
  unfold JSON.is_ws, plain. rewrite !orb_true_iff, !N.eqb_eq.
  intros [[[->| ->]| ->]| ->]; reflexivity.
Qed.

Lemma is_digit_plain c : is_digit c = true -> plain c = true.
Proof.
  intros H. apply is_digit_codes in H. unfold digit_codes in H. simpl in H.
  repeat (destruct H as [<-|H]; [reflexivity|]). destruct H.
Qed.

Lemma skip_ws_white s : exists w, s = w ++ JSON.skip_ws s /\ white w.
Proof.
  induction s as [|c s (w & E & W)]; simpl.
  - exists []. split; [reflexivity | constructor].
  - destruct (JSON.is_ws c) eqn:Ec.
    + exists (c :: w). simpl. rewrite <- E. split; [reflexivity | constructor; assumption].
    + exists []. split; [reflexivity | constructor].
Qed.

Lemma white_value w : white w -> value_text w.
Proof.
  intros H. apply value_text_plain. eapply Forall_impl; [|exact H].
  intros c Hc. apply is_ws_plain. exact Hc.
Qed.

Lemma takes_skip_ws s : takes value_text s (JSON.skip_ws s).
Proof.
  destruct (skip_ws_white s) as (w & E & W). exists w. split; [exact E | apply white_value; exact W].
Qed.

Lemma read_digits_takes s : forall acc n v n' r,
  read_digits acc n s = (v, n', r) -> takes value_text s r.
Proof.
  induction s as [|c s IH]; intros acc n v n' r H; simpl in H.
  - injection H as _ _ <-. apply takes_refl, value_text_nil.
  - destruct (is_digit c) eqn:Ec.
    + apply IH in H. eapply takes_value_trans; [|exact H].
      apply takes_plain, is_digit_plain. exact Ec.
    + injection H as _ _ <-. apply takes_refl, value_text_nil.
Qed.

End ScannerOnJson.

Section ParserOnScanner.

Lemma string_body_nil : string_body [].
Proof. intros d. simpl. auto. Qed.

Lemma string_body_app a b : string_body a -> string_body b -> string_body (a ++ b).
Proof.
  intros Ha Hb d. destruct (Ha d) as [Ra Aa]. destruct (Hb d) as [Rb Ab].
  rewrite lex_run_app, Ra. split; [assumption|].
  apply all_along_app. rewrite Ra. auto.
Qed.

Lemma string_body_one c : c <> 34%N -> c <> 92%N -> string_body [c].
Proof.
  intros H1 H2 d. unfold lex_run, lex_step, quoted. cbn.
  apply N.eqb_neq in H1, H2. rewrite H1, H2. cbn. auto.
Qed.

Lemma string_body_escape e : string_body [92%N; e].
Proof. intros d. unfold lex_run, lex_step, quoted. cbn. auto. Qed.

Lemma hex_val_plain h v : JSON.hex_val h = Some v -> h <> 34%N /\ h <> 92%N.
Proof.
  unfold JSON.hex_val, between. intros H. split; intros ->; discriminate H.
Qed.

Lemma takes_string_cons a s r :
  string_body a -> takes string_text s r -> takes string_text (a ++ s) r.
Proof.
  intros Ha (w & -> & w' & -> & Hw). exists (a ++ w' ++ [34%N]).
  rewrite <- !app_assoc. split; [reflexivity|].
  exists (a ++ w'). rewrite <- app_assoc. split; [reflexivity|].
  apply string_body_app; assumption.
Qed.

Lemma parse_chars_takes : forall n s acc str r,
  (List.length s <= n)%nat ->
  JSON.parse_chars s acc = Some (str, r) -> takes string_text s r.
Proof.
  induction n as [|n IH]; intros s acc str r Hn H.
  - destruct s; [discriminate | simpl in Hn; lia].
  - destruct s as [|c s]; [discriminate|]. simpl in Hn. cbn [JSON.parse_chars] in H.
    destruct (N.eqb_spec c 34) as [->|Hq].
    + injection H as _ <-. exists [34%N]. split; [reflexivity|].
      exists []. split; [reflexivity | apply string_body_nil].
    + destruct (N.eqb_spec c 92) as [->|Hb].
      * destruct s as [|e s]; [discriminate|]. simpl in Hn.
        destruct (N.eqb_spec e 117) as [->|He].
        -- destruct s as [|h1 [|h2 [|h3 [|h4 s]]]]; try discriminate.
           simpl in Hn.
           destruct (JSON.hex_val h1) eqn:E1; [|discriminate].
           destruct (JSON.hex_val h2) eqn:E2; [|discriminate].
           destruct (JSON.hex_val h3) eqn:E3; [|discriminate].
           destruct (JSON.hex_val h4) eqn:E4; [|discriminate].
           apply IH in H; [|lia].
           apply hex_val_plain in E1 as [? ?], E2 as [? ?], E3 as [? ?], E4 as [? ?].
           change (92%N :: 117%N :: h1 :: h2 :: h3 :: h4 :: s)
             with (([92%N; 117%N] ++ [h1] ++ [h2] ++ [h3] ++ [h4]) ++ s).
           apply takes_string_cons; [|exact H].
           repeat apply string_body_app;
             first [apply string_body_escape | apply string_body_one; assumption].
        -- destruct (JSON.escape e); [|discriminate].
           apply IH in H; [|lia].
           change (92%N :: e :: s) with ([92%N; e] ++ s).
           apply takes_string_cons; [apply string_body_escape | exact H].
      * destruct (c <? 32)%N; [discriminate|].
        apply IH in H; [|lia].
        change (c :: s) with ([c] ++ s).
        apply takes_string_cons; [apply string_body_one; assumption | exact H].
Qed.

Lemma takes_string_value s r :
  takes string_text s r -> takes value_text (34%N :: s) r.
Proof.
  intros (w & -> & Hw). exists (34%N :: w). split; [reflexivity|].
  apply value_text_string. exact Hw.
Qed.

Lemma takes_app_plain a s :
  Forall (fun c => plain c = true) a -> takes value_text (a ++ s) s.
Proof. intros H. exists a. split; [reflexivity | apply value_text_plain; exact H]. Qed.

Lemma takes_literal s lit_ n :
  startsWith s lit_ = true -> List.length lit_ = n ->
  Forall (fun c => plain c = true) lit_ ->
  takes value_text s (skipn n s).
Proof.
  intros H Hl Hp. apply startsWith_split in H as (v & ->).
  rewrite <- Hl, skipn_app, skipn_all, Nat.sub_diag. simpl.
  apply takes_app_plain. exact Hp.
Qed.

Lemma minus_takes s neg s1 : JSON.minus s = (neg, s1) -> takes value_text s s1.
Proof.
  destruct s as [|c t]; simpl.
  - intros E. injection E as _ <-. apply takes_refl, value_text_nil.
  - destruct (N.eqb_spec c 45) as [->|H]; intros E; injection E as _ <-.
    + apply takes_plain. reflexivity.
    + apply takes_refl, value_text_nil.
Qed.

Lemma integer_takes s ip s2 : JSON.integer s = Some (ip, s2) -> takes value_text s s2.
Proof.
  destruct s as [|c t]; [discriminate|]. cbn [JSON.integer].
  destruct (is_digit c) eqn:Ec; [|discriminate].
  destruct (c =? 48)%N.
  - intros E. injection E as _ <-. apply takes_plain, is_digit_plain. exact Ec.
  - destruct (read_digits 0 0 (c :: t)) as [[ip' n0] s2'] eqn:Er.
    intros E. injection E as _ <-. eapply read_digits_takes. exact Er.
Qed.

Lemma fraction_takes ip s mant nf s3 :
  JSON.fraction ip s = Some (mant, nf, s3) -> takes value_text s s3.
Proof.
  destruct s as [|c t]; cbn [JSON.fraction].
  - intros E. injection E as _ _ <-. apply takes_refl, value_text_nil.
  - destruct (N.eqb_spec c 46) as [->|H].
    + destruct (read_digits ip 0 t) as [[fp nf'] s3'] eqn:Er.
      destruct (nf' =? 0)%Z; [discriminate|]. intros E. injection E as _ _ <-.
      eapply takes_value_trans; [apply takes_plain; reflexivity|].
      eapply read_digits_takes. exact Er.
    + intros E. injection E as _ _ <-. apply takes_refl, value_text_nil.
Qed.

Lemma exponent_sign_takes s eneg t : JSON.exponent_sign s = (eneg, t) -> takes value_text s t.
Proof.
  destruct s as [|c u]; simpl.
  - intros E. injection E as _ <-. apply takes_refl, value_text_nil.
  - destruct (N.eqb_spec c 45) as [->|H1]; [|destruct (N.eqb_spec c 43) as [->|H2]];
      intros E; injection E as _ <-;
      [apply takes_plain; reflexivity | apply takes_plain; reflexivity
       | apply takes_refl, value_text_nil].
Qed.

Lemma exponent_takes neg mant nf s x r :
  JSON.exponent neg mant nf s = Some (x, r) -> takes value_text s r.
Proof.
  destruct s as [|e t]; cbn [JSON.exponent].
  - intros E. injection E as _ <-. apply takes_refl, value_text_nil.
  - destruct ((e =? 101)%N || (e =? 69)%N) eqn:Ee.
    + destruct (JSON.exponent_sign t) as [eneg t'] eqn:Es.
      destruct (read_digits 0 0 t') as [[ev ne] s4] eqn:Er.
      destruct (ne =? 0)%Z; [discriminate|]. intros E. injection E as _ <-.
      eapply takes_value_trans.
      { apply takes_plain. apply orb_true_iff in Ee as [Ee|Ee];
          apply N.eqb_eq in Ee; subst e; reflexivity. }
      eapply takes_value_trans; [eapply exponent_sign_takes; exact Es|].
      eapply read_digits_takes. exact Er.
    + intros E. injection E as _ <-. apply takes_refl, value_text_nil.
Qed.

Lemma parse_number_takes s x r :
  JSON.parse_number s = Some (x, r) -> takes value_text s r.
Proof.
  unfold JSON.parse_number.
  destruct (JSON.minus s) as [neg s1] eqn:E1.
  destruct (JSON.integer s1) as [[ip s2]|] eqn:E2; [|discriminate].
  destruct (JSON.fraction ip s2) as [[[mant nf] s3]|] eqn:E3; [|discriminate].
  intros E4.
  eapply takes_value_trans; [eapply minus_takes; exact E1|].
  eapply takes_value_trans; [eapply integer_takes; exact E2|].
  eapply takes_value_trans; [eapply fraction_takes; exact E3|].
  eapply exponent_takes. exact E4.
Qed.

Lemma expect_cons c s r : JSON.expect c s = Some r -> s = c :: r.
Proof.
  destruct s as [|x s]; simpl; [discriminate|].
  destruct (N.eqb_spec x c); [|discriminate]. intros H; injection H as <-. congruence.
Qed.

Lemma takes_expect c s r :
  plain c = true -> JSON.expect c (JSON.skip_ws s) = Some r -> takes value_text s r.
Proof.
  intros Hp H. apply expect_cons in H.
  eapply takes_value_trans; [apply takes_skip_ws|]. rewrite H. apply takes_plain. exact Hp.
Qed.

Lemma members_takes pv :
  (forall s v r, pv s = Some (v, r) -> takes value_text s r) ->
  forall f s acc v r,
    JSON.parse_members pv f s acc = Some (v, r) -> takes value_text s (125%N :: r).
Proof.
  intros Hpv. induction f as [|f IH]; intros s acc v r H; [discriminate|].
  cbn [JSON.parse_members] in H.
  destruct (JSON.expect 34 (JSON.skip_ws s)) as [r0|] eqn:E0; [|discriminate].
  destruct (JSON.parse_chars r0 []) as [[k r1]|] eqn:E1; [|discriminate].
  destruct (JSON.expect 58 (JSON.skip_ws r1)) as [r2|] eqn:E2; [|discriminate].
  destruct (pv r2) as [[v0 r3]|] eqn:E3; [|discriminate].
  assert (Head : takes value_text s (JSON.skip_ws r3)).
  { apply expect_cons in E0.
    eapply takes_value_trans; [apply takes_skip_ws|]. rewrite E0.
    eapply takes_value_trans.
    { apply takes_string_value. eapply parse_chars_takes; [apply le_n | exact E1]. }
    eapply takes_value_trans; [eapply takes_expect; [|exact E2]; reflexivity|].
    eapply takes_value_trans; [eapply Hpv; exact E3|]. apply takes_skip_ws. }
  destruct (JSON.skip_ws r3) as [|c r4]; [discriminate|].
  destruct (N.eqb_spec c 44) as [->|H44].
  - apply IH in H. eapply takes_value_trans; [exact Head|].
    eapply takes_value_trans; [apply takes_plain; reflexivity | exact H].
  - destruct (N.eqb_spec c 125) as [->|H125]; [|discriminate].
    injection H as _ <-. exact Head.
Qed.

Lemma elements_takes pv :
  (forall s v r, pv s = Some (v, r) -> takes value_text s r) ->
  forall f s acc v r,
    JSON.parse_elements pv f s acc = Some (v, r) -> takes value_text s r.
Proof.
  intros Hpv. induction f as [|f IH]; intros s acc v r H; [discriminate|].
  cbn [JSON.parse_elements] in H.
  destruct (pv s) as [[v0 r0]|] eqn:E0; [|discriminate].
  assert (Head : takes value_text s (JSON.skip_ws r0)).
  { eapply takes_value_trans; [eapply Hpv; exact E0 | apply takes_skip_ws]. }
  destruct (JSON.skip_ws r0) as [|c r1]; [discriminate|].
  destruct (N.eqb_spec c 44) as [->|H44].
  - apply IH in H. eapply takes_value_trans; [exact Head|].
    eapply takes_value_trans; [apply takes_plain; reflexivity | exact H].
  - destruct (N.eqb_spec c 93) as [->|H93]; [|discriminate].
    injection H as _ <-. eapply takes_value_trans; [exact Head|].
    apply takes_plain. reflexivity.
Qed.

Lemma takes_object s r :
  takes value_text s (125%N :: r) -> takes value_text (123%N :: s) r.
Proof.
  intros (w & -> & Hw). exists (123%N :: w ++ [125%N]).
  split; [simpl; rewrite <- app_assoc; reflexivity|].
  apply value_text_object. exists w. auto.
Qed.

(** The scanner's brace depth and string state follow the structure of
    any value the parser accepts. *)
Lemma value_takes : forall f s v r,
  JSON.parse_value f s = Some (v, r) -> takes value_text s r.
Proof.
  induction f as [|f IH]; intros s v r H; [discriminate|].
  cbn [JSON.parse_value] in H.
  eapply takes_value_trans; [apply takes_skip_ws|].
  destruct (JSON.skip_ws s) as [|c r0]; [discriminate|].
  destruct (N.eqb_spec c 123) as [->|H123].
  { apply takes_object.
    destruct (JSON.expect 125 (JSON.skip_ws r0)) as [r'|] eqn:E.
    - injection H as _ <-. apply expect_cons in E.
      rewrite <- E. apply takes_skip_ws.
    - eapply members_takes; [exact IH | exact H]. }
  destruct (N.eqb_spec c 91) as [->|H91].
  { eapply takes_value_trans; [apply takes_plain; reflexivity|].
    destruct (JSON.expect 93 (JSON.skip_ws r0)) as [r'|] eqn:E.
    - injection H as _ <-. eapply takes_expect; [|exact E]; reflexivity.
    - eapply elements_takes; [exact IH | exact H]. }
  destruct (N.eqb_spec c 34) as [->|H34].
  { destruct (JSON.parse_chars r0 []) as [[str r']|] eqn:E; [|discriminate].
    injection H as _ <-. apply takes_string_value.
    eapply parse_chars_takes; [apply le_n | exact E]. }
  destruct (startsWith (c :: r0) (js "true")) eqn:Et.
  { injection H as _ <-.
    apply (takes_literal (c :: r0) (js "true") 4%nat Et eq_refl). repeat constructor. }
  destruct (startsWith (c :: r0) (js "false")) eqn:Ef.
  { injection H as _ <-.
    apply (takes_literal (c :: r0) (js "false") 5%nat Ef eq_refl). repeat constructor. }
  destruct (startsWith (c :: r0) (js "null")) eqn:En.
  { injection H as _ <-.
    apply (takes_literal (c :: r0) (js "null") 4%nat En eq_refl). repeat constructor. }
  destruct (JSON.parse_number (c :: r0)) as [[x r']|] eqn:E; [|discriminate].
  injection H as _ <-. eapply parse_number_takes. exact E.
Qed.

(** A complete record is an opening brace, text the scanner reads at
    depth one or deeper, and the closing brace. *)
Lemma complete_record_shape r :
  complete_record r -> exists w, r = 123%N :: w ++ [125%N] /\ value_text w.
Proof.
  intros [Hh (v & H)]. destruct r as [|c r0]; [discriminate|].
  injection Hh as ->. cbn [JSON.parse_value] in H.
  assert (E0 : JSON.skip_ws (123%N :: r0) = 123%N :: r0) by reflexivity.
  rewrite E0 in H. cbv beta iota in H. rewrite N.eqb_refl in H.
  assert (T : takes value_text r0 [125%N]).
  { destruct (JSON.expect 125 (JSON.skip_ws r0)) as [r'|] eqn:E.
    - injection H as _ ->. apply expect_cons in E. rewrite <- E. apply takes_skip_ws.
    - eapply members_takes; [apply value_takes | exact H]. }
  destruct T as (w & -> & Hw). exists w. auto.
Qed.

End ParserOnScanner.

(** ** The scan of the recovery path *)

Section Scan.

Lemma drop_space_spaces ws s :
  Forall (fun c => is_space c = true) ws -> drop_space (ws ++ s) = drop_space s.
Proof. induction 1 as [|c ws Hc _ IH]; simpl; [reflexivity|]. rewrite Hc. exact IH. Qed.

Lemma drop_space_solid c s : is_space c = false -> drop_space (c :: s) = c :: s.
Proof. intros H. simpl. rewrite H. reflexivity. Qed.

Lemma trim_spaces ws : Forall (fun c => is_space c = true) ws -> trim ws = [].
Proof.
  intros H. unfold trim, trimEnd, trimStart.
  rewrite <- (app_nil_r ws), drop_space_spaces by assumption. reflexivity.
Qed.

(** Trimming strips the white space before a text that starts and ends
    with something else. *)
Lemma trim_solid ws c r x :
  Forall (fun c => is_space c = true) ws ->
  is_space c = false -> is_space x = false ->
  hd_error (r ++ [x]) = Some c ->
  trim (ws ++ r ++ [x]) = r ++ [x].
Proof.
  intros Hws Hc Hx Hh. unfold trim, trimEnd, trimStart.
  rewrite drop_space_spaces by assumption.
  assert (E : drop_space (r ++ [x]) = r ++ [x]).
  { destruct (r ++ [x]) as [|c0 s]; [reflexivity|].
    injection Hh as ->. apply drop_space_solid. exact Hc. }
  rewrite E, rev_app_distr.
  change (rev [x] ++ rev r) with (x :: rev r).
  rewrite drop_space_solid by assumption.
  change (x :: rev r) with ([x] ++ rev r). rewrite rev_app_distr, rev_involutive.
  reflexivity.
Qed.

Lemma is_ws_space c : JSON.is_ws c = true -> is_space c = true.
Proof.
  unfold JSON.is_ws. rewrite !orb_true_iff, !N.eqb_eq.
  intros [[[->| ->]| ->]| ->]; reflexivity.
Qed.

Lemma in_class_space c : in_class false [Space] c = is_space c.
Proof. unfold in_class, class_has. simpl. apply orb_false_r. Qed.

(** A text that ends with a closing brace has no trailing comma. *)
Lemma no_trailing_comma r :
  replace_first trailing_comma [] (r ++ [125%N]) = r ++ [125%N].
Proof.
  unfold replace_first. destruct (exec trailing_comma (r ++ [125%N])) as [f|] eqn:E;
    [|reflexivity].
  exfalso. unfold exec in E.
  apply search_from_sound in E as (pre & st & Et & _ & Em & _).
  unfold match_at in Em. apply m_sound in Em as (st' & D & _).
  change (source trailing_comma)
    with (Seq (Cls [One 44%N]) (Seq (Rep [Space] 0%nat None) Eos)) in D.
  cbn [den ignoreCase trailing_comma] in D.
  destruct D as (m1 & (c & s' & R0 & Hc & _ & R1 & _) & m2
                 & (w & Rw & Hall & _) & (_ & _ & _) & Re).
  cbn [rest] in R0. rewrite in_class_one in Hc. apply N.eqb_eq in Hc. subst c.
  rewrite Re, app_nil_r in Rw. rewrite R0, <- R1, Rw in Et.
  destruct (exists_last (l := 44%N :: w) ltac:(discriminate)) as (w' & x & Ew).
  rewrite Ew, app_assoc in Et. apply app_inj_tail in Et as [_ Hx].
  destruct w as [|y w0].
  - change [44%N] with ([] ++ [44%N]) in Ew. apply app_inj_tail in Ew as [_ <-].
    discriminate Hx.
  - assert (Hin : In x (y :: w0)).
    { assert (In x (44%N :: y :: w0)) as [H|H]
        by (rewrite Ew; apply in_or_app; right; left; reflexivity).
      - exfalso. rewrite <- H in Hx. discriminate Hx.
      - exact H. }
    rewrite Forall_forall in Hall. specialize (Hall x Hin).
    rewrite in_class_space in Hall. subst x. discriminate Hall.
Qed.

Lemma lex_of_step st c : lex_of (scan_step st c) = lex_step (lex_of st) c.
Proof.
  unfold scan_step, lex_step, lex_of. cbn [esc inStr depth].
  destruct (escapeNext st); [reflexivity|].
  destruct (c =? 92)%N; [reflexivity|].
  destruct (_ && _ && _); reflexivity.
Qed.

(** While the scanner is in a string or inside braces it only gathers
    code units. *)
Lemma scan_step_quiet st c :
  above 1 (lex_step (lex_of st) c) ->
  scan_step st c
  = mkScan (biomarkers st) (currentBiomarker st ++ [c])
      (depth (lex_step (lex_of st) c)) (inStr (lex_step (lex_of st) c))
      (esc (lex_step (lex_of st) c)).
Proof.
  unfold scan_step, lex_step, lex_of, above. cbn [esc inStr depth].
  destruct (escapeNext st); [reflexivity|].
  destruct (c =? 92)%N; [reflexivity|].
  cbn [esc inStr depth]. intros [H|H].
  - rewrite H. reflexivity.
  - match goal with |- context [(?d =? 0)%Z] => destruct (Z.eqb_spec d 0) as [E|E] end.
    + rewrite E in H. lia.
    + rewrite andb_false_r. reflexivity.
Qed.

Lemma scan_quiet_run w : forall st,
  all_along (above 1) (lex_of st) w ->
  fold_left scan_step w st
  = mkScan (biomarkers st) (currentBiomarker st ++ w)
      (depth (lex_run (lex_of st) w)) (inStr (lex_run (lex_of st) w))
      (esc (lex_run (lex_of st) w)).
Proof.
  induction w as [|c w IH]; intros st H.
  - simpl. rewrite app_nil_r. destruct st; reflexivity.
  - destruct H as [H1 H2]. cbn [fold_left]. rewrite IH.
    + rewrite lex_of_step. rewrite (scan_step_quiet st c H1).
      cbn [biomarkers currentBiomarker]. rewrite <- app_assoc. reflexivity.
    + rewrite lex_of_step. exact H2.
Qed.

Lemma complete_record_parses r : complete_record r -> exists v, JSON.parse r = Some v.
Proof.
  intros [_ (v & H)]. exists v. unfold JSON.parse. rewrite H. reflexivity.
Qed.

(** The scan over a complete record, from between records: the record
    is found. *)
Lemma scan_record found cur r :
  Forall (fun c => is_space c = true) cur ->
  complete_record r ->
  fold_left scan_step r (mkScan found cur 0 false false)
  = mkScan (found ++ [r]) [] 0 false false.
Proof.
  intros Hcur Hr. destruct (complete_record_parses r Hr) as (v & Hv).
  destruct (complete_record_shape r Hr) as (w & -> & Hw).
  change (123%N :: w ++ [125%N]) with ((123%N :: w) ++ [125%N]) in *.
  rewrite fold_left_app.
  destruct (Hw 1%Z) as [Rw Aw].
  rewrite (scan_quiet_run (123%N :: w)).
  2:{ cbn [all_along].
      change (lex_step (lex_of (mkScan found cur 0 false false)) 123) with (level 1).
      split; [apply above_level | exact Aw]. }
  cbn [biomarkers currentBiomarker].
  change (lex_run (lex_of (mkScan found cur 0 false false)) (123%N :: w))
    with (lex_run (level 1) w).
  rewrite Rw. cbn [depth inStr esc level fold_left].
  unfold scan_step. cbn [escapeNext inString braceCount currentBiomarker biomarkers].
  change (125 =? 92)%N with false. change (125 =? 34)%N with false.
  change (125 =? 123)%N with false. change (125 =? 125)%N with true.
  cbv beta iota. change (1 - 1 =? 0)%Z with true. cbn [negb andb].
  rewrite <- app_assoc.
  assert (T : trim (cur ++ (123%N :: w) ++ [125%N]) = (123%N :: w) ++ [125%N]).
  { apply (trim_solid cur 123%N (123%N :: w) 125%N); auto. }
  rewrite T. rewrite no_trailing_comma.
  change (0 <? List.length ((123%N :: w) ++ [125%N]))%nat with true. cbv iota.
  assert (S1 : startsWith ((123%N :: w) ++ [125%N]) (js "{") = true).
  { simpl. destruct (w ++ [125%N]); reflexivity. }
  assert (S2 : endsWith ((123%N :: w) ++ [125%N]) (js "}") = true).
  { unfold endsWith. rewrite rev_app_distr. simpl.
    destruct (rev w ++ [123%N]); reflexivity. }
  rewrite S1, S2, Hv. reflexivity.
Qed.

Lemma gap_closing g : gap g -> closing g.
Proof.
  intros H. eapply Forall_impl; [|exact H]. intros c [Hc|Hc]; [left | right; left]; exact Hc.
Qed.

(** The scan over white space, commas and closing brackets between
    records: nothing is found, only white space is gathered. *)
Lemma scan_gap g : forall found cur,
  Forall (fun c => is_space c = true) cur ->
  closing g ->
  exists cur', Forall (fun c => is_space c = true) cur'
    /\ fold_left scan_step g (mkScan found cur 0 false false)
       = mkScan found cur' 0 false false.
Proof.
  induction g as [|c g IH]; intros found cur Hcur Hg.
  - exists cur. auto.
  - inversion Hg as [|? ? Hc Hg']; subst. cbn [fold_left].
    destruct Hc as [Hc|Hc].
    + assert (E : scan_step (mkScan found cur 0 false false) c
                  = mkScan found (cur ++ [c]) 0 false false).
      { unfold scan_step. cbn [escapeNext inString braceCount currentBiomarker biomarkers].
        pose proof (is_ws_plain c Hc) as Hp. unfold plain in Hp.
        rewrite negb_true_iff, !orb_false_iff in Hp. destruct Hp as [[[H1 H2] H3] H4].
        rewrite H1, H2, H3, H4. cbv beta iota.
        rewrite trim_spaces; [reflexivity|].
        apply Forall_app. split; [assumption|]. constructor; [|constructor].
        apply is_ws_space. exact Hc. }
      rewrite E. apply IH; [|assumption].
      apply Forall_app. split; [assumption|]. constructor; [|constructor].
      apply is_ws_space. exact Hc.
    + assert (E : scan_step (mkScan found cur 0 false false) c
                  = mkScan found [] 0 false false).
      { assert (T : trim (cur ++ [] ++ [c]) = [] ++ [c]).
        { apply (trim_solid cur c [] c); auto; destruct Hc as [->| ->]; reflexivity. }
        cbn [app] in T.
        unfold scan_step. cbn [escapeNext inString braceCount currentBiomarker biomarkers].
        rewrite T. destruct Hc as [->| ->]; reflexivity. }
      rewrite E. apply IH; [constructor | assumption].
Qed.

(** The scan over a record cut short: nothing is found. *)
Lemma scan_cut p found cur :
  cut_record p ->
  biomarkers (fold_left scan_step p (mkScan found cur 0 false false)) = found.
Proof.
  intros (q & Hq & Hr). destruct (complete_record_shape _ Hr) as (w & E & Hw).
  destruct (exists_last Hq) as (q' & x & ->).
  change (123%N :: w ++ [125%N]) with ((123%N :: w) ++ [125%N]) in E.
  rewrite app_assoc in E. apply app_inj_tail in E as [E _].
  assert (A : all_along (above 1) (level 0) (p ++ q')).
  { rewrite E. cbn [all_along]. change (lex_step (level 0) 123) with (level 1).
    split; [apply above_level | apply (Hw 1%Z)]. }
  apply all_along_app in A as [A _].
  rewrite scan_quiet_run by exact A. reflexivity.
Qed.

(** The scan finds the complete records, in order, and nothing else. *)
Lemma scan_records items : forall found cur,
  Forall (fun c => is_space c = true) cur ->
  Forall (fun it => gap (fst it) /\ complete_record (snd it)) items ->
  exists cur', Forall (fun c => is_space c = true) cur'
    /\ fold_left scan_step (records_text items) (mkScan found cur 0 false false)
       = mkScan (found ++ List.map snd items) cur' 0 false false.
Proof.
  induction items as [|[g r] items IH]; intros found cur Hcur Hall.
  - exists cur. simpl. rewrite app_nil_r. auto.
  - inversion Hall as [|? ? [Hg Hr] Hall']; subst. cbn [fst snd] in *.
    unfold records_text. cbn [flat_map fst snd]. rewrite <- app_assoc, !fold_left_app.
    destruct (scan_gap g found cur Hcur (gap_closing g Hg)) as (cur1 & Hc1 & E1).
    rewrite E1.
    rewrite (scan_record found cur1 r Hc1 Hr).
    destruct (IH (found ++ [r]) [] (Forall_nil _) Hall') as (cur' & Hc' & E').
    exists cur'. split; [assumption|].
    unfold records_text in E'. rewrite E'. cbn [List.map snd]. rewrite <- app_assoc.
    reflexivity.
Qed.

Lemma recover_records items gT p :
  Forall (fun it => gap (fst it) /\ complete_record (snd it)) items ->
  closing gT -> cut_record p ->
  recover (records_text items ++ gT ++ p) = List.map snd items.
Proof.
  intros Hall Hg Hp. unfold recover, scan_start. rewrite !fold_left_app.
  destruct (scan_records items [] [] (Forall_nil _) Hall) as (cur & Hc & E).
  cbn [app] in E. rewrite E.
  destruct (scan_gap gT (List.map snd items) cur Hc Hg) as (cur' & Hc' & E').
  rewrite E'. apply scan_cut. exact Hp.
Qed.

End Scan.

(** ** The text after the opening bracket *)

Section Envelope.

Lemma search_from_skip re x r' pre post :
  source re = Seq (Cls [One x]) r' -> ignoreCase re = false ->
  Forall (fun c => c <> x) pre ->
  forall pv p,
  search_from re pv (pre ++ post) p
  = search_from re (prev_after pv pre) post (p + List.length pre)%nat.
Proof.
  intros Hs Hi. induction 1 as [|c pre Hc _ IH]; intros pv p.
  - cbn [app List.length]. rewrite Nat.add_0_r. reflexivity.
  - cbn [app search_from].
    assert (E : match_at re pv (c :: pre ++ post) p = None).
    { unfold match_at. rewrite Hs, Hi. cbn [m rest]. rewrite in_class_one.
      apply N.eqb_neq in Hc. rewrite Hc. reflexivity. }
    rewrite E, IH, prev_after_cons. f_equal. simpl. lia.
Qed.

Lemma m_rep ci cs mn mx k pv s p cp :
  m ci (Rep cs mn mx) k (mkState pv s p cp) = rep ci cs mn mx k pv s p cp.
Proof. reflexivity. Qed.

Lemma m_grp ci a k st :
  m ci (Grp a) k st
  = m ci a (fun st' => k (mkState (prev st') (rest st') (pos st')
                            (caps st' ++ [firstn (pos st' - pos st) (rest st)]))) st.
Proof. reflexivity. Qed.

Lemma in_class_any c : in_class false [Space; NonSpace] c = true.
Proof. unfold in_class, class_has. simpl. destruct (is_space c); reflexivity. Qed.

Lemma white_spaces w : white w -> Forall (fun c => in_class false [Space] c = true) w.
Proof.
  intros H. eapply Forall_impl; [|exact H]. intros c Hc.
  rewrite in_class_space. apply is_ws_space. exact Hc.
Qed.

Lemma white_no_quote w : white w -> Forall (fun c => c <> 34%N) w.
Proof.
  intros H. eapply Forall_impl; [|exact H]. intros c Hc ->. discriminate Hc.
Qed.

(** The pattern of the recovery path on an envelope: its group is the
    whole text after the opening bracket. *)
Lemma exec_envelope w0 w1 w2 body :
  white w0 -> white w1 -> white w2 ->
  exists f, exec biomarkers_key (envelope w0 w1 w2 ++ body) = Some f
            /\ group f 1 = body.
Proof.
  intros H0 H1 H2. unfold exec, envelope.
  replace (([123%N] ++ w0 ++ jsq "'biomarkers'" ++ w1 ++ [58%N] ++ w2 ++ [91%N]) ++ body)
    with ((123%N :: w0) ++ jsq "'biomarkers'" ++ w1 ++ 58%N :: w2 ++ 91%N :: body)
    by (cbn [app]; rewrite <- !app_assoc; cbn [app]; repeat (f_equal; rewrite <- ?app_assoc)).
  rewrite (search_from_skip biomarkers_key 34%N
             (seq [lit "biomarkers"; chr 34; star [Space]; lit ":";
                   star [Space]; lit "["; Grp (star [Space; NonSpace])]));
    [| reflexivity | reflexivity
     | constructor; [discriminate | apply white_no_quote; exact H0]].
  eexists. split.
  - apply search_from_here. unfold match_at.
    let r := eval cbv in (source biomarkers_key) in change (source biomarkers_key) with r.
    let t := eval cbv in (jsq "'biomarkers'") in change (jsq "'biomarkers'") with t.
    cbn [app ignoreCase biomarkers_key].
    do 12 (rewrite ?m_seq; apply m_chr).
    rewrite m_seq, m_rep. apply rep_take;
      [apply white_spaces; exact H1 | lia | exact I
       | right; right; eexists; eexists; split; [reflexivity | reflexivity] |].
    rewrite m_seq. apply m_chr.
    rewrite m_seq, m_rep. apply rep_take;
      [apply white_spaces; exact H2 | lia | exact I
       | right; right; eexists; eexists; split; [reflexivity | reflexivity] |].
    rewrite m_seq. apply m_chr.
    rewrite m_grp, m_rep.
    rewrite <- (app_nil_r body) at 1. apply rep_take;
      [apply Forall_forall; intros c _; apply in_class_any | lia | exact I
       | right; left; reflexivity |].
    cbn [rest pos prev caps]. reflexivity.
  - unfold group. cbn [groups caps Nat.sub nth app].
    match goal with |- firstn ?n _ = _ => replace n with (List.length body) by lia end.
    apply firstn_all.
Qed.

Lemma lex_value d w : value_text w -> lex_run (level d) w = level d.
Proof. intros H. apply (H d). Qed.

Lemma closing_value g : closing g -> value_text g.
Proof.
  intros H. apply value_text_plain. eapply Forall_impl; [|exact H].
  intros c [Hc|[->| ->]]; [apply is_ws_plain; exact Hc | reflexivity | reflexivity].
Qed.

Lemma record_value r : complete_record r -> value_text r.
Proof.
  intros H. destruct (complete_record_shape r H) as (w & -> & Hw).
  apply value_text_object. exists w. auto.
Qed.

Lemma records_value items :
  Forall (fun it => gap (fst it) /\ complete_record (snd it)) items ->
  value_text (records_text items).
Proof.
  induction 1 as [|[g r] items [Hg Hr] _ IH]; [apply value_text_nil|].
  unfold records_text. cbn [flat_map fst snd] in *. rewrite <- app_assoc.
  apply value_text_app; [apply closing_value, gap_closing; exact Hg|].
  apply value_text_app; [apply record_value; exact Hr | exact IH].
Qed.

Lemma all_along_last (P : lex -> Prop) w : forall l,
  P l -> all_along P l w -> P (lex_run l w).
Proof.
  induction w as [|c w IH]; intros l Hl H; [exact Hl|].
  destruct H as [H1 H2]. apply (IH _ H1 H2).
Qed.

Lemma lex_envelope w0 w1 w2 :
  white w0 -> white w1 -> white w2 -> lex_run (level 0) (envelope w0 w1 w2) = level 1.
Proof.
  intros H0 H1 H2. unfold envelope. rewrite !lex_run_app.
  change (lex_run (level 0) [123%N]) with (level 1).
  rewrite (lex_value 1 w0) by (apply white_value; exact H0).
  change (lex_run (level 1) (jsq "'biomarkers'")) with (level 1).
  rewrite (lex_value 1 w1) by (apply white_value; exact H1).
  change (lex_run (level 1) [58%N]) with (level 1).
  rewrite (lex_value 1 w2) by (apply white_value; exact H2).
  reflexivity.
Qed.

(** At the end of a text cut inside the array the scanner is in a
    string or inside braces. *)
Lemma lex_truncated w0 w1 w2 items gT p :
  white w0 -> white w1 -> white w2 ->
  Forall (fun it => gap (fst it) /\ complete_record (snd it)) items ->
  closing gT -> cut_record p ->
  above 1 (lex_run (level 0) (envelope w0 w1 w2 ++ records_text items ++ gT ++ p)).
Proof.
  intros H0 H1 H2 Hall Hg (q & Hq & Hr).
  rewrite lex_run_app, lex_envelope by assumption.
  rewrite lex_run_app, (lex_value 1 _ (records_value items Hall)).
  rewrite lex_run_app, (lex_value 1 _ (closing_value gT Hg)).
  destruct (complete_record_shape _ Hr) as (w & E & Hw).
  destruct (exists_last Hq) as (q' & x & ->).
  change (123%N :: w ++ [125%N]) with ((123%N :: w) ++ [125%N]) in E.
  rewrite app_assoc in E. apply app_inj_tail in E as [E _].
  assert (A : all_along (above 1) (level 1) (p ++ q')).
  { rewrite E. cbn [all_along]. change (lex_step (level 1) 123) with (level 2).
    split; [right; simpl; lia|].
    eapply all_along_impl; [|apply (Hw 2%Z)]. intros l. apply above_weaken. lia. }
  apply all_along_app in A as [A _].
  apply all_along_last; [apply above_level | exact A].
Qed.

Lemma skip_ws_nil r : JSON.skip_ws r = [] -> white r.
Proof.
  intros H. destruct (skip_ws_white r) as (w & E & W).
  rewrite H, app_nil_r in E. subst w. exact W.
Qed.

(** A text that strict parsing accepts leaves the scanner where it
    started. *)
Lemma parse_lex text v : JSON.parse text = Some v -> lex_run (level 0) text = level 0.
Proof.
  unfold JSON.parse. intros H.
  destruct (JSON.parse_value _ text) as [[v0 r]|] eqn:E; [|discriminate].
  destruct (JSON.skip_ws r) eqn:Er; [|discriminate].
  apply value_takes in E as (w & -> & Hw).
  rewrite lex_run_app, (lex_value 0 w Hw).
  apply lex_value, white_value, skip_ws_nil. exact Er.
Qed.

(** Strict parsing rejects a text cut inside the array. *)
Lemma parse_truncated w0 w1 w2 items gT p :
  white w0 -> white w1 -> white w2 ->
  Forall (fun it => gap (fst it) /\ complete_record (snd it)) items ->
  closing gT -> cut_record p ->
  JSON.parse (envelope w0 w1 w2 ++ records_text items ++ gT ++ p) = None.
Proof.
  intros H0 H1 H2 Hall Hg Hp.
  destruct (JSON.parse _) as [v|] eqn:E; [|reflexivity].
  pose proof (lex_truncated w0 w1 w2 items gT p H0 H1 H2 Hall Hg Hp) as A.
  rewrite (parse_lex _ v E) in A. destruct A as [A|A]; [discriminate A | simpl in A; lia].
Qed.

End Envelope.

(** ** Parsing a text followed by more text *)

Section ParserExtension.

Variable x : jsstring.

Lemma skip_ws_app s : JSON.skip_ws s <> [] -> JSON.skip_ws (s ++ x) = JSON.skip_ws s ++ x.
Proof.
  induction s as [|c s IH]; simpl; [congruence|].
  destruct (JSON.is_ws c); [exact IH | reflexivity].
Qed.

Lemma expect_ws_app c s r :
  JSON.expect c (JSON.skip_ws s) = Some r ->
  JSON.expect c (JSON.skip_ws (s ++ x)) = Some (r ++ x).
Proof.
  intros H. rewrite skip_ws_app by (intros E; rewrite E in H; discriminate H).
  apply expect_cons in H. rewrite H. simpl. rewrite N.eqb_refl. reflexivity.
Qed.

Lemma expect_ws_none c s :
  JSON.skip_ws s <> [] -> JSON.expect c (JSON.skip_ws s) = None ->
  JSON.expect c (JSON.skip_ws (s ++ x)) = None.
Proof.
  intros Hn H. rewrite skip_ws_app by assumption.
  destruct (JSON.skip_ws s) as [|d t]; [congruence|]. simpl in *.
  destruct (d =? c)%N; [discriminate | reflexivity].
Qed.

Lemma parse_chars_app : forall n s acc str r,
  (List.length s <= n)%nat ->
  JSON.parse_chars s acc = Some (str, r) ->
  JSON.parse_chars (s ++ x) acc = Some (str, r ++ x).
Proof.
  induction n as [|n IH]; intros s acc str r Hn H.
  - destruct s; [discriminate | simpl in Hn; lia].
  - destruct s as [|c s]; [discriminate|]. simpl in Hn.
    cbn [JSON.parse_chars app] in *.
    destruct (c =? 34)%N; [injection H as <- <-; reflexivity|].
    destruct (c =? 92)%N.
    + destruct s as [|e s]; [discriminate|]. cbn [app]. simpl in Hn.
      destruct (e =? 117)%N.
      * destruct s as [|h1 [|h2 [|h3 [|h4 s]]]]; try discriminate. cbn [app].
        destruct (JSON.hex_val h1), (JSON.hex_val h2), (JSON.hex_val h3), (JSON.hex_val h4);
          try discriminate.
        apply IH; [simpl in Hn; lia | exact H].
      * destruct (JSON.escape e); [|discriminate]. apply IH; [lia | exact H].
    + destruct (c <? 32)%N; [discriminate|]. apply IH; [lia | exact H].
Qed.

Lemma read_digits_app s : forall acc n v n' r,
  read_digits acc n s = (v, n', r) -> r <> [] ->
  read_digits acc n (s ++ x) = (v, n', r ++ x).
Proof.
  induction s as [|c s IH]; intros acc n v n' r H Hr; simpl in H.
  - injection H as _ _ <-. congruence.
  - cbn [app read_digits]. destruct (is_digit c).
    + apply IH; assumption.
    + injection H as <- <- <-. reflexivity.
Qed.

Lemma minus_app s neg s1 :
  JSON.minus s = (neg, s1) -> s1 <> [] -> JSON.minus (s ++ x) = (neg, s1 ++ x).
Proof.
  destruct s as [|c t]; simpl; intros E Hn.
  - injection E as _ <-. congruence.
  - destruct (c =? 45)%N; injection E as <- <-; reflexivity.
Qed.

Lemma integer_app s ip s2 :
  JSON.integer s = Some (ip, s2) -> s2 <> [] ->
  JSON.integer (s ++ x) = Some (ip, s2 ++ x).
Proof.
  destruct s as [|c t]; [discriminate|]. cbn [JSON.integer app].
  destruct (is_digit c) eqn:Ec; [|discriminate].
  destruct (c =? 48)%N.
  - intros E _. injection E as <- <-. reflexivity.
  - destruct (read_digits 0 0 (c :: t)) as [[ip' n0] s2'] eqn:Er.
    intros E Hn. injection E as <- <-.
    change (c :: t ++ x) with ((c :: t) ++ x).
    rewrite (read_digits_app _ _ _ _ _ _ Er Hn). reflexivity.
Qed.

Lemma fraction_app ip s mant nf s3 :
  JSON.fraction ip s = Some (mant, nf, s3) -> s3 <> [] ->
  JSON.fraction ip (s ++ x) = Some (mant, nf, s3 ++ x).
Proof.
  destruct s as [|c t]; cbn [JSON.fraction app].
  - intros E Hn. injection E as _ _ <-. congruence.
  - destruct (c =? 46)%N.
    + destruct (read_digits ip 0 t) as [[fp nf'] s3'] eqn:Er.
      destruct (nf' =? 0)%Z eqn:En; [discriminate|]. intros E Hn. injection E as <- <- <-.
      rewrite (read_digits_app _ _ _ _ _ _ Er Hn), En. reflexivity.
    + intros E _. injection E as <- <- <-. reflexivity.
Qed.

Lemma exponent_sign_app s eneg t :
  JSON.exponent_sign s = (eneg, t) -> t <> [] ->
  JSON.exponent_sign (s ++ x) = (eneg, t ++ x).
Proof.
  destruct s as [|c u]; simpl; intros E Hn.
  - injection E as _ <-. congruence.
  - destruct (c =? 45)%N; [|destruct (c =? 43)%N]; injection E as <- <-; reflexivity.
Qed.

Lemma exponent_app neg mant nf s v r :
  JSON.exponent neg mant nf s = Some (v, r) -> r <> [] ->
  JSON.exponent neg mant nf (s ++ x) = Some (v, r ++ x).
Proof.
  destruct s as [|e t]; cbn [JSON.exponent app].
  - intros E Hn. injection E as _ <-. congruence.
  - destruct ((e =? 101)%N || (e =? 69)%N).
    + destruct (JSON.exponent_sign t) as [eneg t'] eqn:Es.
      destruct (read_digits 0 0 t') as [[ev ne] s4] eqn:Er.
      destruct (ne =? 0)%Z eqn:En; [discriminate|]. intros E Hn. injection E as <- <-.
      assert (Ht : t' <> []).
      { intros ->. simpl in Er. injection Er as _ _ <-. congruence. }
      rewrite (exponent_sign_app _ _ _ Es Ht), (read_digits_app _ _ _ _ _ _ Er Hn), En.
      reflexivity.
    + intros E _. injection E as <- <-. reflexivity.
Qed.

Lemma parse_number_app s v r :
  JSON.parse_number s = Some (v, r) -> r <> [] ->
  JSON.parse_number (s ++ x) = Some (v, r ++ x).
Proof.
  unfold JSON.parse_number.
  destruct (JSON.minus s) as [neg s1] eqn:E1.
  destruct (JSON.integer s1) as [[ip s2]|] eqn:E2; [|discriminate].
  destruct (JSON.fraction ip s2) as [[[mant nf] s3]|] eqn:E3; [|discriminate].
  intros E4 Hn.
  assert (H3 : s3 <> []).
  { intros ->. simpl in E4. injection E4 as _ <-. congruence. }
  assert (H2 : s2 <> []).
  { intros ->. simpl in E3. injection E3 as _ _ <-. congruence. }
  assert (H1 : s1 <> []) by (intros ->; discriminate E2).
  rewrite (minus_app _ _ _ E1 H1), (integer_app _ _ _ E2 H2), (fraction_app _ _ _ _ _ E3 H3).
  apply exponent_app; assumption.
Qed.

(** A number starts with a minus sign or a digit. *)
Lemma parse_number_head c s v r :
  JSON.parse_number (c :: s) = Some (v, r) -> c = 45%N \/ is_digit c = true.
Proof.
  unfold JSON.parse_number. cbn [JSON.minus].
  destruct (N.eqb_spec c 45) as [->|H]; [left; reflexivity|].
  cbn [JSON.integer]. destruct (is_digit c); [right; reflexivity | discriminate].
Qed.

Lemma startsWith_head c s p0 p : c <> p0 -> startsWith (c :: s) (p0 :: p) = false.
Proof.
  intros H. simpl. destruct (N.eqb_spec p0 c) as [E|_]; [congruence | reflexivity].
Qed.

Lemma startsWith_more s p : startsWith s p = true -> startsWith (s ++ x) p = true.
Proof.
  intros H. apply startsWith_split in H as (v & ->). rewrite <- app_assoc.
  apply startsWith_app.
Qed.

Lemma skipn_more s p :
  startsWith s p = true ->
  skipn (List.length p) (s ++ x) = skipn (List.length p) s ++ x.
Proof.
  intros H. apply startsWith_split in H as (v & ->).
  rewrite <- app_assoc, !skipn_app, !skipn_all, Nat.sub_diag. reflexivity.
Qed.

Lemma parse_value_skips f s v r :
  JSON.parse_value f s = Some (v, r) -> JSON.skip_ws s <> [].
Proof.
  destruct f as [|f]; [discriminate|]. cbn [JSON.parse_value].
  destruct (JSON.skip_ws s); [discriminate | discriminate].
Qed.

Lemma members_ext (pv pv' : JSON.parser) :
  (forall s v t, pv s = Some (v, t) -> t <> [] -> pv' (s ++ x) = Some (v, t ++ x)) ->
  forall f f' s acc v t, (f <= f')%nat ->
    JSON.parse_members pv f s acc = Some (v, t) ->
    JSON.parse_members pv' f' (s ++ x) acc = Some (v, t ++ x).
Proof.
  intros Hpv. induction f as [|f IH]; intros f' s acc v t Hf H; [discriminate|].
  destruct f' as [|f']; [lia|].
  cbn [JSON.parse_members] in *.
  destruct (JSON.expect 34 (JSON.skip_ws s)) as [r0|] eqn:E0; [|discriminate].
  rewrite (expect_ws_app _ _ _ E0).
  destruct (JSON.parse_chars r0 []) as [[k r1]|] eqn:E1; [|discriminate].
  rewrite (parse_chars_app _ _ _ _ _ (le_n _) E1).
  destruct (JSON.expect 58 (JSON.skip_ws r1)) as [r2|] eqn:E2; [|discriminate].
  rewrite (expect_ws_app _ _ _ E2).
  destruct (pv r2) as [[v0 r3]|] eqn:E3; [|discriminate].
  destruct (JSON.skip_ws r3) as [|c r4] eqn:E4; [discriminate|].
  assert (H3 : r3 <> []) by (intros ->; discriminate E4).
  rewrite (Hpv _ _ _ E3 H3).
  rewrite skip_ws_app by (rewrite E4; discriminate). rewrite E4. cbn [app].
  destruct (c =? 44)%N; [apply IH; [lia | exact H]|].
  destruct (c =? 125)%N; [|discriminate]. injection H as <- <-. reflexivity.
Qed.

Lemma elements_ext (pv pv' : JSON.parser) :
  (forall s v t, pv s = Some (v, t) -> t <> [] -> pv' (s ++ x) = Some (v, t ++ x)) ->
  forall f f' s acc v t, (f <= f')%nat ->
    JSON.parse_elements pv f s acc = Some (v, t) ->
    JSON.parse_elements pv' f' (s ++ x) acc = Some (v, t ++ x).
Proof.
  intros Hpv. induction f as [|f IH]; intros f' s acc v t Hf H; [discriminate|].
  destruct f' as [|f']; [lia|].
  cbn [JSON.parse_elements] in *.
  destruct (pv s) as [[v0 r]|] eqn:E0; [|discriminate].
  destruct (JSON.skip_ws r) as [|c r'] eqn:E1; [discriminate|].
  assert (H0 : r <> []) by (intros ->; discriminate E1).
  rewrite (Hpv _ _ _ E0 H0).
  rewrite skip_ws_app by (rewrite E1; discriminate). rewrite E1. cbn [app].
  destruct (c =? 44)%N; [apply IH; [lia | exact H]|].
  destruct (c =? 93)%N; [|discriminate]. injection H as <- <-. reflexivity.
Qed.

Lemma members_start pv f s acc v t :
  JSON.parse_members pv f s acc = Some (v, t) -> exists r, JSON.skip_ws s = 34%N :: r.
Proof.
  destruct f as [|f]; [discriminate|]. cbn [JSON.parse_members].
  destruct (JSON.expect 34 (JSON.skip_ws s)) as [r0|] eqn:E0; [|discriminate].
  intros _. exists r0. apply expect_cons. exact E0.
Qed.

Lemma elements_start g f s acc v t :
  JSON.parse_elements (JSON.parse_value g) f s acc = Some (v, t) -> JSON.skip_ws s <> [].
Proof.
  destruct f as [|f]; [discriminate|]. cbn [JSON.parse_elements].
  destruct (JSON.parse_value g s) as [[v0 r]|] eqn:E; [|discriminate].
  intros _. eapply parse_value_skips. exact E.
Qed.

Lemma startsWith_first c s p0 p : startsWith (c :: s) (p0 :: p) = true -> c = p0.
Proof.
  simpl. intros H. apply andb_true_iff in H as [H _]. apply N.eqb_eq in H. congruence.
Qed.

(** A value that is not a number at the end of the text is parsed the
    same, with the same or more fuel, when more text follows. *)
Lemma value_ext : forall f f' s v t, (f <= f')%nat ->
  JSON.parse_value f s = Some (v, t) ->
  (t <> [] \/ hd_error (JSON.skip_ws s) = Some 123%N) ->
  JSON.parse_value f' (s ++ x) = Some (v, t ++ x).
Proof.
  induction f as [|f IH]; intros f' s v t Hf H Ht; [discriminate|].
  destruct f' as [|f']; [lia|].
  assert (IHpv : forall s v t, JSON.parse_value f s = Some (v, t) -> t <> [] ->
                   JSON.parse_value f' (s ++ x) = Some (v, t ++ x)).
  { intros s0 v0 t0 H0 Hn. apply (IH f' s0 v0 t0); [lia | exact H0 | left; exact Hn]. }
  cbn [JSON.parse_value] in *.
  destruct (JSON.skip_ws s) as [|c r] eqn:Es; [discriminate|].
  rewrite skip_ws_app by (rewrite Es; discriminate). rewrite Es. cbn [app].
  destruct (N.eqb_spec c 123) as [->|N123].
  { destruct (JSON.expect 125 (JSON.skip_ws r)) as [r'|] eqn:E.
    - rewrite (expect_ws_app _ _ _ E). injection H as <- <-. reflexivity.
    - destruct (members_start _ _ _ _ _ _ H) as (r0 & E0).
      rewrite expect_ws_none; [| rewrite E0; discriminate | exact E].
      apply (members_ext _ _ IHpv f f'); [lia | exact H]. }
  destruct (N.eqb_spec c 91) as [->|N91].
  { destruct (JSON.expect 93 (JSON.skip_ws r)) as [r'|] eqn:E.
    - rewrite (expect_ws_app _ _ _ E). injection H as <- <-. reflexivity.
    - rewrite expect_ws_none; [| eapply elements_start; exact H | exact E].
      apply (elements_ext _ _ IHpv f f'); [lia | exact H]. }
  destruct (N.eqb_spec c 34) as [->|N34].
  { destruct (JSON.parse_chars r []) as [[str r']|] eqn:E; [|discriminate].
    rewrite (parse_chars_app _ _ _ _ _ (le_n _) E). injection H as <- <-. reflexivity. }
  change (c :: r ++ x) with ((c :: r) ++ x).
  destruct (startsWith (c :: r) (js "true")) eqn:T1.
  { rewrite (startsWith_more _ _ T1). injection H as <- <-. f_equal. f_equal.
    exact (skipn_more (c :: r) (js "true") T1). }
  destruct (startsWith (c :: r) (js "false")) eqn:T2.
  { assert (Ec : c = 102%N) by exact (startsWith_first c r 102%N (js "alse") T2).
    assert (F1 : startsWith ((c :: r) ++ x) (js "true") = false)
      by (apply (startsWith_head c (r ++ x) 116%N (js "rue")); rewrite Ec; discriminate).
    rewrite F1, (startsWith_more _ _ T2). injection H as <- <-. f_equal. f_equal.
    exact (skipn_more (c :: r) (js "false") T2). }
  destruct (startsWith (c :: r) (js "null")) eqn:T3.
  { assert (Ec : c = 110%N) by exact (startsWith_first c r 110%N (js "ull") T3).
    assert (F1 : startsWith ((c :: r) ++ x) (js "true") = false)
      by (apply (startsWith_head c (r ++ x) 116%N (js "rue")); rewrite Ec; discriminate).
    assert (F2 : startsWith ((c :: r) ++ x) (js "false") = false)
      by (apply (startsWith_head c (r ++ x) 102%N (js "alse")); rewrite Ec; discriminate).
    rewrite F1, F2, (startsWith_more _ _ T3). injection H as <- <-. f_equal. f_equal.
    exact (skipn_more (c :: r) (js "null") T3). }
  destruct (JSON.parse_number (c :: r)) as [[n r']|] eqn:E; [|discriminate].
  injection H as <- <-.
  assert (Hc : forall k, is_digit k = false -> k <> 45%N -> c <> k).
  { intros k Hk1 Hk2 ->. destruct (parse_number_head _ _ _ _ E) as [E'|E']; congruence. }
  assert (F1 : startsWith ((c :: r) ++ x) (js "true") = false)
    by (apply (startsWith_head c (r ++ x) 116%N (js "rue")); apply Hc;
        [reflexivity | discriminate]).
  assert (F2 : startsWith ((c :: r) ++ x) (js "false") = false)
    by (apply (startsWith_head c (r ++ x) 102%N (js "alse")); apply Hc;
        [reflexivity | discriminate]).
  assert (F3 : startsWith ((c :: r) ++ x) (js "null") = false)
    by (apply (startsWith_head c (r ++ x) 110%N (js "ull")); apply Hc;
        [reflexivity | discriminate]).
  rewrite F1, F2, F3.
  destruct Ht as [Ht|Ht]; [|simpl in Ht; congruence].
  rewrite (parse_number_app _ _ _ E Ht). reflexivity.
Qed.

End ParserExtension.

(** ** The envelope rebuilt from the records found *)

Section Rebuilt.

Lemma record_head r : complete_record r -> exists r', r = 123%N :: r'.
Proof.
  intros [H _]. destruct r as [|c r']; [discriminate|]. injection H as ->.
  exists r'. reflexivity.
Qed.

(** A complete record is parsed as it is when more text follows. *)
Lemma record_ext r f tail :
  complete_record r -> (S (List.length r) <= f)%nat ->
  exists v, JSON.parse r = Some v /\ JSON.parse_value f (r ++ tail) = Some (v, tail).
Proof.
  intros Hr Hf. destruct (record_head r Hr) as (r' & Er).
  destruct Hr as [_ (v & Hv)]. exists v. split.
  - unfold JSON.parse. rewrite Hv. reflexivity.
  - apply (value_ext tail (S (List.length r)) f r v []); [exact Hf | exact Hv|].
    right. rewrite Er. reflexivity.
Qed.

Lemma join_cons sep (r r2 : jsstring) rs :
  join sep (r :: r2 :: rs) = r ++ sep ++ join sep (r2 :: rs).
Proof. reflexivity. Qed.

Lemma elements_join f rs :
  Forall complete_record rs ->
  Forall (fun r => (S (List.length r) <= f)%nat) rs ->
  rs <> [] ->
  exists vs, Forall2 (fun r v => JSON.parse r = Some v) rs vs
    /\ forall fuel acc rest, (List.length rs <= fuel)%nat ->
         JSON.parse_elements (JSON.parse_value f) fuel
           (join (js ",") rs ++ 93%N :: rest) acc
         = Some (VArr (rev acc ++ vs), rest).
Proof.
  induction rs as [|r rs IH]; intros Hall Hlen Hne; [congruence|].
  inversion Hall as [|? ? Hr Hall']; subst. inversion Hlen as [|? ? Hl Hlen']; subst.
  destruct rs as [|r2 rs].
  - destruct (record_ext r f [] Hr Hl) as (v & Hv & _). exists [v]. split.
    + constructor; [exact Hv | constructor].
    + intros fuel acc rest Hf. destruct fuel as [|fuel]; [simpl in Hf; lia|].
      cbn [join JSON.parse_elements].
      destruct (record_ext r f (93%N :: rest) Hr Hl) as (v' & Hv' & E).
      assert (v' = v) by congruence. subst v'. rewrite E. reflexivity.
  - destruct (IH Hall' Hlen' ltac:(discriminate)) as (vs & Hvs & Hrun).
    destruct (record_ext r f [] Hr Hl) as (v & Hv & _). exists (v :: vs). split.
    + constructor; assumption.
    + intros fuel acc rest Hf. destruct fuel as [|fuel]; [simpl in Hf; lia|].
      rewrite join_cons, <- !app_assoc. cbn [JSON.parse_elements].
      destruct (record_ext r f (js "," ++ join (js ",") (r2 :: rs) ++ 93%N :: rest) Hr Hl)
        as (v' & Hv' & E).
      assert (v' = v) by congruence. subst v'. rewrite E.
      change (js "," ++ ?t) with (44%N :: t). cbn [JSON.skip_ws JSON.is_ws N.eqb Pos.eqb orb].
      change (44 =? 44)%N with true. cbv iota.
      rewrite (Hrun fuel (v :: acc) rest) by (cbn [List.length] in *; lia).
      cbn [rev]. rewrite <- app_assoc. reflexivity.
Qed.

Lemma join_length_in sep (r : jsstring) rs :
  In r rs -> (List.length r <= List.length (join sep rs))%nat.
Proof.
  induction rs as [|r1 rs IH]; intros Hin; [destruct Hin|].
  destruct rs as [|r2 rs].
  - destruct Hin as [->|[]]. simpl. lia.
  - rewrite join_cons, !length_app. destruct Hin as [->|Hin]; [lia|].
    specialize (IH Hin). unfold jsstring in *. lia.
Qed.

Lemma join_count sep (rs : list jsstring) :
  Forall (fun r => r <> []) rs -> (List.length rs <= List.length (join sep rs))%nat.
Proof.
  induction 1 as [|r rs Hr Hall IH]; [simpl; lia|].
  assert (1 <= List.length r)%nat by (destruct r; [congruence | simpl; lia]).
  destruct rs as [|r2 rs]; [simpl; lia|].
  rewrite join_cons, !length_app. cbn [List.length] in *. unfold jsstring in *. lia.
Qed.

Lemma join_head rs :
  Forall complete_record rs -> rs <> [] -> exists t, join (js ",") rs = 123%N :: t.
Proof.
  intros Hall Hne. destruct rs as [|r rs]; [congruence|].
  inversion Hall as [|? ? Hr _]; subst. destruct (record_head r Hr) as (r' & ->).
  destruct rs as [|r2 rs]; [exists r'; reflexivity|].
  rewrite join_cons. eexists. reflexivity.
Qed.

(** The rebuilt envelope parses, and holds one value for each record
    found, in order. *)
Lemma parse_fixedJson rs :
  Forall complete_record rs -> rs <> [] ->
  exists vs, Forall2 (fun r v => JSON.parse r = Some v) rs vs
    /\ JSON.parse (fixedJson rs) = Some (VObj [(js "biomarkers", VArr vs)]).
Proof.
  intros Hall Hne.
  set (f := (17 + List.length (join (js ",") rs))%nat).
  assert (Hlen : Forall (fun r => (S (List.length r) <= f)%nat) rs).
  { apply Forall_forall. intros r Hin.
    pose proof (join_length_in (js ",") r rs Hin). unfold f. lia. }
  assert (Hcount : (List.length rs <= f)%nat).
  { assert (Forall (fun r : jsstring => r <> []) rs).
    { eapply Forall_impl; [|exact Hall]. intros r Hr.
      destruct (record_head r Hr) as (r' & ->). discriminate. }
    pose proof (join_count (js ",") rs H). unfold f. lia. }
  destruct (elements_join f rs Hall Hlen Hne) as (vs & Hvs & Hrun).
  exists vs. split; [exact Hvs|].
  unfold JSON.parse.
  assert (EF : S (List.length (fixedJson rs)) = S (S f)).
  { unfold fixedJson, f. rewrite !length_app.
    change (List.length (jsq "{'biomarkers': [")) with 16%nat.
    change (List.length (js "]}")) with 2%nat. lia. }
  rewrite EF. clearbody f. clear EF.
  specialize (Hrun f [] [125%N] Hcount).
  destruct (join_head rs Hall Hne) as (t & Et). rewrite Et in Hrun.
  unfold fixedJson. rewrite Et.
  assert (E : JSON.parse_value (S (S f))
                (jsq "{'biomarkers': [" ++ (123%N :: t) ++ js "]}")
              = Some (VObj [(js "biomarkers", VArr vs)], [])).
  { destruct f as [|f0]; [simpl in Hcount; destruct rs; [congruence | simpl in Hcount; lia]|].
    change (JSON.parse_value (S (S (S f0)))
                (jsq "{'biomarkers': [" ++ (123%N :: t) ++ js "]}"))
      with (match JSON.parse_elements (JSON.parse_value (S f0)) (S f0)
                    ((123%N :: t) ++ 93%N :: [125%N]) [] with
            | Some (v, r3) =>
              match JSON.skip_ws r3 with
              | c :: r4 =>
                if (c =? 44)%N
                then JSON.parse_members (JSON.parse_value (S (S f0))) (S f0) r4
                       [(js "biomarkers", v)]
                else if (c =? 125)%N then Some (VObj (rev [(js "biomarkers", v)]), r4)
                else None
              | [] => None
              end
            | None => None
            end).
    rewrite Hrun. reflexivity. }
  rewrite E. reflexivity.
Qed.

End Rebuilt.

(** ** The recovery path on a reply cut inside the array *)

Section Recovery.

Lemma extract_never_empty (parseErrorMessage : jsstring -> jsstring) content :
  extractBiomarkersFromText parseErrorMessage content <> Returned [].
Proof.
  unfold extractBiomarkersFromText.
  destruct (parseOrRecover _ _) as [parsed|]; cbn [bind]; [|discriminate].
  destruct (get parsed "biomarkers") as [listed|]; cbn [bind]; [|discriminate].
  destruct (validateAndNormalizeBiomarkers _) as [[|b bs]|]; cbn [bind]; discriminate.
Qed.

(** C2: on a reply that is an envelope cut inside the array after N
    complete records, strict parsing fails and the scan of the recovery
    path finds exactly the N records, in order; with N >= 1 the path
    returns the rebuilt envelope with one value for each of the N
    records, the value strict parsing gives that record; with N = 0 it
    throws the error of no complete record; and the function never
    returns an empty list. *)
Theorem recovery_of_truncated_reply (parseErrorMessage : jsstring -> jsstring)
    w0 w1 w2 items gT p :
  white w0 -> white w1 -> white w2 ->
  Forall (fun it => gap (fst it) /\ complete_record (snd it)) items ->
  closing gT -> cut_record p ->
  JSON.parse (truncated w0 w1 w2 items gT p) = None
  /\ recover (records_text items ++ gT ++ p) = List.map snd items
  /\ (items <> [] ->
      exists vs,
        parseOrRecover parseErrorMessage (truncated w0 w1 w2 items gT p)
        = Returned (VObj [(js "biomarkers", VArr vs)])
        /\ Forall2 (fun r v => JSON.parse r = Some v) (List.map snd items) vs)
  /\ (items = [] ->
      parseOrRecover parseErrorMessage (truncated w0 w1 w2 items gT p)
      = Thrown (no_records_error (parseErrorMessage (truncated w0 w1 w2 items gT p))))
  /\ (forall content,
        extractBiomarkersFromText parseErrorMessage content <> Returned []).
Proof.
  intros H0 H1 H2 Hall Hg Hp.
  pose proof (parse_truncated w0 w1 w2 items gT p H0 H1 H2 Hall Hg Hp) as Hparse.
  pose proof (recover_records items gT p Hall Hg Hp) as Hrec.
  destruct (exec_envelope w0 w1 w2 (records_text items ++ gT ++ p) H0 H1 H2)
    as (f & Hf & Hgroup).
  split; [exact Hparse|]. split; [exact Hrec|].
  split; [|split; [|apply extract_never_empty]];
    unfold parseOrRecover, truncated; rewrite Hparse, Hf, Hgroup, Hrec.
  - intros Hne.
    assert (Hcomplete : Forall complete_record (List.map snd items)).
    { apply Forall_forall. intros r Hin. apply in_map_iff in Hin as (it & <- & Hin).
      rewrite Forall_forall in Hall. apply (Hall it Hin). }
    assert (Hne' : List.map snd items <> []) by (destruct items; [congruence | discriminate]).
    destruct (parse_fixedJson _ Hcomplete Hne') as (vs & Hvs & Hfix).
    exists vs. split; [|exact Hvs].
    remember (List.map snd items) as rs eqn:Ers. clear Ers.
    destruct rs as [|r rs]; [congruence|]. rewrite Hfix. reflexivity.
  - intros ->. reflexivity.
Qed.

Lemma recovery_of_truncated_reply_witness :
  JSON.parse sample_reply = None
  /\ recover (records_text sample_items ++ js ", " ++ sample_cut) = List.map snd sample_items.
Proof.
  assert (Hr : complete_record sample_record).
  { split; [reflexivity|]. eexists. vm_compute. reflexivity. }
  assert (Hc : cut_record sample_cut).
  { exists sample_cut_rest. split; [discriminate|].
    split; [reflexivity|]. eexists. vm_compute. reflexivity. }
  assert (Hg : closing (js ", ")).
  { constructor; [right; left; reflexivity|].
    constructor; [left; reflexivity | constructor]. }
  assert (Hw : white [32%N]) by (constructor; [reflexivity | constructor]).
  assert (Hi : Forall (fun it => gap (fst it) /\ complete_record (snd it)) sample_items).
  { constructor; [split; [constructor | exact Hr] | constructor]. }
  destruct (recovery_of_truncated_reply (fun _ => []) [] [] [32%N] sample_items (js ", ")
              sample_cut (Forall_nil _) (Forall_nil _) Hw Hi Hg Hc)
    as (H1 & H2 & _).
  split; [exact H1 | exact H2].
Defined.

End Recovery.

(** * Further properties of the services *)

(** ** The scan never keeps a malformed record *)

Section ScanSafety.

Lemma scan_step_well_formed st c :
  Forall well_formed_record (biomarkers st) ->
  Forall well_formed_record (biomarkers (scan_step st c)).
Proof.
  intros H. unfold scan_step.
  destruct (escapeNext st); [exact H|].
  destruct (c =? 92)%N; [exact H|].
  destruct (_ && _ && _); [|exact H]. cbn [biomarkers].
  destruct (startsWith _ (js "{")) eqn:S1; [|exact H].
  destruct (endsWith _ (js "}")) eqn:S2; [|exact H]. cbn [andb].
  destruct (JSON.parse _) as [v|] eqn:P; [|exact H].
  apply Forall_app. split; [exact H|]. constructor; [|constructor].
  split; [exact S1|]. split; [exact S2|]. exists v. exact P.
Qed.

Lemma scan_run_well_formed text : forall st,
  Forall well_formed_record (biomarkers st) ->
  Forall well_formed_record (biomarkers (fold_left scan_step text st)).
Proof.
  induction text as [|c text IH]; intros st H; [exact H|].
  cbn [fold_left]. apply IH, scan_step_well_formed, H.
Qed.


End ScanSafety.

(** ** Dates that are returned *)

Section DateSoundness.

Lemma accept_date_sound y m d s :
  accept_date y m d = Some s ->
  (2000 <= y <= 2100)%Z /\ (1 <= m <= 12)%Z /\ (1 <= d <= days_in_month y m)%Z
  /\ s = iso_date y m d.
Proof.
  intros H.
  assert (R : ((2000 <=? y) && (y <=? 2100) && (1 <=? m) && (m <=? 12)
               && (1 <=? d) && (d <=? 31))%Z = true).
  { unfold accept_date in H. destruct (_ && _ && _ && _ && _ && _)%bool;
      [reflexivity | discriminate]. }
  rewrite !andb_true_iff, !Z.leb_le in R.
  destruct R as [[[[[R1 R2] R3] R4] R5] R6].
  rewrite accept_date_calendar in H by lia. unfold expected_date in H.
  destruct (Z.leb_spec d (days_in_month y m)); [|discriminate].
  injection H as <-. repeat split; try lia.
Qed.

Lemma extractTestDate_from_sound ps content s :
  extractTestDate_from ps content = Some s ->
  exists y m d, accept_date y m d = Some s.
Proof.
  induction ps as [|[pattern day_first] ps IH]; [discriminate|].
  cbn [extractTestDate_from].
  destruct (exec pattern content) as [mt|]; [|exact IH].
  destruct (if day_first
            then (parseInt (group mt 3), parseInt (group mt 2), parseInt (group mt 1))
            else (parseInt (group mt 1), parseInt (group mt 2), parseInt (group mt 3)))
    as [[[y|] [m|]] [d|]]; try exact IH.
  destruct (accept_date y m d) as [iso|] eqn:E; [|exact IH].
  intros H. injection H as <-. exists y, m, d. exact E.
Qed.

(** X2: whatever the text, a date that [extractTestDate] returns is the
    canonical year-month-day string of a day that exists in the
    calendar, in a year from 2000 to 2100. *)
Theorem extractTestDate_sound (content s : jsstring) :
  extractTestDate content = Some s ->
  exists y m d,
    (2000 <= y <= 2100)%Z /\ (1 <= m <= 12)%Z /\ (1 <= d <= days_in_month y m)%Z
    /\ s = iso_date y m d.
Proof.
  intros H. apply extractTestDate_from_sound in H as (y & m & d & H).
  exists y, m, d. apply accept_date_sound. exact H.
Qed.

Lemma extractTestDate_sound_witness :
  exists y m d,
    (2000 <= y <= 2100)%Z /\ (1 <= m <= 12)%Z /\ (1 <= d <= days_in_month y m)%Z
    /\ js "2025-01-15" = iso_date y m d.
Proof.
  apply (extractTestDate_sound (js "Data badania: 15.01.2025")).
  vm_compute. reflexivity.
Defined.

End DateSoundness.

(** ** What a merge returns *)

Section MergeResult.

Lemma map_set_from_seen mp seen m :
  from_seen mp seen -> from_seen (map_set mp (name m) m) (seen ++ [m]).
Proof.
  unfold from_seen. induction mp as [|[k v] mp IH]; intros H; cbn [map_set].
  - constructor; [|constructor]. apply in_or_app. right. left. reflexivity.
  - inversion H as [|? ? Hv Hmp]; subst. destruct (str_eqb k (name m)).
    + constructor.
      * apply in_or_app. right. left. reflexivity.
      * eapply Forall_impl; [|exact Hmp]. intros kv Hkv. apply in_or_app. left. exact Hkv.
    + constructor; [apply in_or_app; left; exact Hv | apply IH; exact Hmp].
Qed.

Lemma from_seen_more mp seen m : from_seen mp seen -> from_seen mp (seen ++ [m]).
Proof.
  intros H. eapply Forall_impl; [|exact H]. intros kv Hkv. apply in_or_app. left. exact Hkv.
Qed.

Lemma merge_step_from_seen mp seen m :
  from_seen mp seen -> from_seen (merge_step mp m) (seen ++ [m]).
Proof.
  intros H. unfold merge_step.
  destruct (map_get mp (name m)) as [ex|]; [|apply map_set_from_seen; exact H].
  destruct (_ <? _)%Z; [apply map_set_from_seen; exact H|].
  destruct (status_eqb _ _); [|apply from_seen_more; exact H].
  destruct (gt _ _); [apply map_set_from_seen | apply from_seen_more]; exact H.
Qed.

Lemma merge_fold_from_seen l : forall mp seen,
  from_seen mp seen -> from_seen (fold_left merge_step l mp) (seen ++ l).
Proof.
  induction l as [|m l IH]; intros mp seen H; cbn [fold_left].
  - rewrite app_nil_r. exact H.
  - replace (seen ++ m :: l) with ((seen ++ [m]) ++ l) by (rewrite <- app_assoc; reflexivity).
    apply IH, merge_step_from_seen, H.
Qed.

Lemma keyed_names mp : keyed mp -> List.map name (map_values mp) = List.map fst mp.
Proof.
  intros [_ H]. unfold map_values. induction H as [|[k v] mp Hk _ IH]; [reflexivity|].
  cbn [List.map fst snd] in *. rewrite Hk, IH. reflexivity.
Qed.

Lemma map_get_in mp k v : map_get mp k = Some v -> In v (map_values mp).
Proof.
  unfold map_values. induction mp as [|[k' v'] mp IH]; cbn [map_get List.map snd];
    [discriminate|].
  destruct (str_eqb k' k); [intros H; injection H as ->; left; reflexivity|].
  intros H. right. exact (IH H).
Qed.

Lemma keyed_get_name mp k v : keyed mp -> map_get mp k = Some v -> name v = k.
Proof.
  intros [_ H]. induction H as [|[k' v'] mp Hk _ IH]; cbn [map_get]; [discriminate|].
  destruct (str_eqb k' k) eqn:E.
  - intros G. injection G as <-. apply str_eqb_eq in E. cbn [fst snd] in Hk. congruence.
  - exact IH.
Qed.

(** X3: the merged list holds each name once; every record in it is one of
    the records given; and every record given is represented by the
    record of its name, whose status is at least as severe. *)
Theorem merge_unique_and_from_input (biomarkers : list Biomarker) :
  NoDup (List.map name (mergeBiomarkers biomarkers))
  /\ (forall b, In b (mergeBiomarkers biomarkers) -> In b biomarkers)
  /\ (forall a, In a biomarkers ->
        exists b, In b (mergeBiomarkers biomarkers) /\ name b = name a
                  /\ (statusPriority (status a) <= statusPriority (status b))%Z).
Proof.
  unfold mergeBiomarkers.
  assert (K0 : keyed []) by (split; constructor).
  assert (D0 : dominated [] []) by (intros x []).
  destruct (merge_fold_invariant biomarkers [] [] K0 D0) as [K D].
  pose proof (merge_fold_from_seen biomarkers [] [] (Forall_nil _)) as F.
  cbn [app] in D, F. split; [|split].
  - rewrite (keyed_names _ K). apply K.
  - intros b Hb. unfold map_values in Hb. apply in_map_iff in Hb as (kv & <- & Hkv).
    unfold from_seen in F. rewrite Forall_forall in F. apply F. exact Hkv.
  - intros a Ha. destruct (D a Ha) as (v & Hv & Hle). exists v.
    split; [exact (map_get_in _ _ _ Hv)|]. split; [exact (keyed_get_name _ _ _ K Hv) | exact Hle].
Qed.

Lemma merge_unique_and_from_input_witness :
  let a := mock "CRP" 12 "mg/L" 0 5 concerning "high" in
  let b := mock "CRP" 3 "mg/L" 0 5 optimal "fine" in
  exists r, In r (mergeBiomarkers [b; a]) /\ name r = name b
            /\ (statusPriority (status b) <= statusPriority (status r))%Z.
Proof.
  intros a b.
  apply (proj2 (proj2 (merge_unique_and_from_input [b; a])) b).
  left. reflexivity.
Defined.

Lemma map_get_fresh mp k : ~ In k (List.map fst mp) -> map_get mp k = None.
Proof.
  induction mp as [|[k' v] mp IH]; cbn [map_get List.map fst]; [reflexivity|].
  intros H. destruct (str_eqb k' k) eqn:E.
  - apply str_eqb_eq in E. exfalso. apply H. left. exact E.
  - apply IH. intros Hin. apply H. right. exact Hin.
Qed.

Lemma map_set_fresh mp k v : map_get mp k = None -> map_set mp k v = mp ++ [(k, v)].
Proof.
  induction mp as [|[k' v'] mp IH]; cbn [map_get map_set app]; [reflexivity|].
  destruct (str_eqb k' k); [discriminate|]. intros H. rewrite (IH H). reflexivity.
Qed.

Lemma merge_fold_distinct l : forall mp,
  NoDup (List.map fst mp ++ List.map name l) ->
  fold_left merge_step l mp = mp ++ List.map (fun m => (name m, m)) l.
Proof.
  induction l as [|m l IH]; intros mp H; cbn [fold_left List.map].
  - rewrite app_nil_r. reflexivity.
  - assert (G : map_get mp (name m) = None).
    { apply map_get_fresh. intros Hin.
      apply NoDup_remove_2 in H. apply H. apply in_or_app. left. exact Hin. }
    unfold merge_step at 2. rewrite G, (map_set_fresh _ _ _ G).
    rewrite IH.
    + rewrite <- app_assoc. reflexivity.
    + rewrite map_app. cbn [List.map fst]. rewrite <- app_assoc. exact H.
Qed.

(** X4: records whose names differ from one another are returned as they
    were given, in the same order: the merge only acts on records that
    share a name. *)
Theorem merge_distinct_names_unchanged (biomarkers : list Biomarker) :
  NoDup (List.map name biomarkers) -> mergeBiomarkers biomarkers = biomarkers.
Proof.
  intros H. unfold mergeBiomarkers, map_values.
  rewrite merge_fold_distinct by exact H. cbn [app].
  rewrite map_map. cbn [snd]. apply map_id.
Qed.

Lemma merge_distinct_names_unchanged_witness :
  let a := mock "CRP" 12 "mg/L" 0 5 concerning "high" in
  let b := mock "HDL" 58 "mg/dL" 40 100 optimal "fine" in
  mergeBiomarkers [a; b] = [a; b].
Proof.
  intros a b. apply (merge_distinct_names_unchanged [a; b]).
  constructor; [|constructor; [intros [] | constructor]].
  intros [E|[]]. vm_compute in E. discriminate E.
Defined.

End MergeResult.

(** ** What the extraction returns, and when the validator throws *)

Section Demographics.

Lemma first_accepted_sound {A : Type} (try : RegExp -> option A) ps a :
  first_accepted try ps = Some a -> exists p, In p ps /\ try p = Some a.
Proof.
  induction ps as [|p ps IH]; cbn [first_accepted]; [discriminate|].
  destruct (try p) as [a'|] eqn:E.
  - intros H. injection H as <-. exists p. split; [left; reflexivity | exact E].
  - intros H. destruct (IH H) as (q & Hq & Eq). exists q. split; [right; exact Hq | exact Eq].
Qed.

Lemma extractAge_range content a : extractAge content = Some a -> (1 <= a <= 120)%Z.
Proof.
  unfold extractAge. intros H. apply first_accepted_sound in H as (p & _ & H).
  destruct (exec p content) as [mt|]; [|discriminate].
  destruct (parseInt (group mt 1)) as [a'|]; [|discriminate].
  destruct ((1 <=? a')%Z && (a' <=? 120)%Z) eqn:E; [|discriminate].
  injection H as <-. apply andb_true_iff in E as [E1 E2]. lia.
Qed.

(** X5: whatever the text, the demographics that are extracted lie in the
    ranges the code accepts: an age from 1 to 120, a weight from 20 to
    300, a height from 100 to 250, and a gender that is M or F. *)
Theorem extracted_demographics_in_range (content : jsstring) :
  (forall a, age (extractMedicalData content) = Some a -> (1 <= a <= 120)%Z)
  /\ (forall w, weight (extractMedicalData content) = Some w ->
        ge w 20 = true /\ le w 300 = true)
  /\ (forall h, height (extractMedicalData content) = Some h -> (100 <= h <= 250)%Z)
  /\ (forall g, gender (extractMedicalData content) = Some g -> g = js "M" \/ g = js "F").
Proof.
  cbn [extractMedicalData age weight height gender]. split; [|split; [|split]].
  - apply extractAge_range.
  - intros w H. unfold extractWeight in H. apply first_accepted_sound in H as (p & _ & H).
    destruct (exec p content) as [mt|]; [|discriminate].
    destruct (ge _ 20 && le _ 300) eqn:E; [|discriminate].
    injection H as <-. apply andb_true_iff in E. exact E.
  - intros h H. unfold extractHeight in H. apply first_accepted_sound in H as (p & _ & H).
    destruct (exec p content) as [mt|]; [|discriminate].
    destruct (parseInt (group mt 1)) as [h'|]; [|discriminate].
    destruct ((100 <=? h')%Z && (h' <=? 250)%Z) eqn:E; [|discriminate].
    injection H as <-. apply andb_true_iff in E as [E1 E2]. lia.
  - intros g H. unfold extractGender in H.
    destruct (existsb _ malePatterns); [injection H as <-; left; reflexivity|].
    destruct (existsb _ femalePatterns); [injection H as <-; right; reflexivity|].
    discriminate.
Qed.

Lemma extracted_demographics_in_range_witness :
  (1 <= 42 <= 120)%Z /\ (100 <= 181 <= 250)%Z.
Proof.
  pose proof (extracted_demographics_in_range (js "Wiek: 42 lata, wzrost: 181 cm"))
    as (Ha & _ & Hh & _).
  split; [apply Ha | apply Hh]; vm_compute; reflexivity.
Defined.

(** X6: [anonymizeDocument] on a non-empty text throws an [Error] only when
    the validator finds a name, an 11-digit number or an e-mail address
    in the redacted text: its check of the age never fires, because an
    extracted age is always from 1 to 120. *)
Theorem anonymizeDocument_throws_only_on_leak now (c : N) (s : jsstring) metadata message :
  anonymizeDocument now (VStr (c :: s)) metadata = Thrown (Error message) ->
  leak_detected (removePersonalIdentifiers (c :: s)) = true
  /\ ~ In (js "Invalid age extracted")
         (validation_errors (removePersonalIdentifiers (c :: s))
            (extractMedicalData (c :: s))).
Proof.
  intros H.
  assert (Hage : match age (extractMedicalData (c :: s)) with
                 | Some a => if negb (a =? 0)%Z && ((a <? 1)%Z || (120 <? a)%Z)
                             then [js "Invalid age extracted"] else []
                 | None => []
                 end = []).
  { destruct (age (extractMedicalData (c :: s))) as [a|] eqn:E; [|reflexivity].
    apply extractAge_range in E.
    replace (a <? 1)%Z with false by (symmetry; apply Z.ltb_ge; lia).
    replace (120 <? a)%Z with false by (symmetry; apply Z.ltb_ge; lia).
    rewrite andb_false_r. reflexivity. }
  assert (Herr : validation_errors (removePersonalIdentifiers (c :: s))
                   (extractMedicalData (c :: s))
                 = (if test namePattern (removePersonalIdentifiers (c :: s))
                    then [js "Potential name detected in anonymized content"] else [])
                   ++ (if test peselPattern (removePersonalIdentifiers (c :: s))
                       then [js "Potential PESEL detected in anonymized content"] else [])
                   ++ (if test emailPattern (removePersonalIdentifiers (c :: s))
                       then [js "Potential email detected in anonymized content"] else [])).
  { unfold validation_errors. rewrite Hage, !app_nil_r. reflexivity. }
  split.
  - unfold leak_detected. unfold anonymizeDocument, validateAnonymization in H.
    rewrite Herr in H.
    destruct (test namePattern _); [reflexivity|].
    destruct (test peselPattern _); [reflexivity|].
    destruct (test emailPattern _); [reflexivity|].
    exfalso. cbn [app bind] in H.
    destruct metadata; cbn [get bind] in H; discriminate H.
  - rewrite Herr. intros Hin.
    destruct (test namePattern _), (test peselPattern _), (test emailPattern _);
      cbn [app In] in Hin;
      repeat (destruct Hin as [Hin|Hin]; [vm_compute in Hin; discriminate Hin|]);
      exact Hin.
Qed.

Lemma anonymizeDocument_throws_only_on_leak_witness :
  leak_detected (removePersonalIdentifiers leak_sample) = true.
Proof.
  assert (E : exists message,
    anonymizeDocument 0 (VStr leak_sample) VUndefined = Thrown (Error message)).
  { eexists. vm_compute. reflexivity. }
  destruct E as (message & E).
  exact (proj1 (anonymizeDocument_throws_only_on_leak 0 117%N (js "l. Ab 12a12345678901")
                  VUndefined message E)).
Defined.

End Demographics.

(** ** Text without identifiers *)

Section Unredacted.

Lemma replace_loop_none re by_ s : forall pv p,
  search_from re pv s p = None -> replace_loop re by_ 0 pv s p = s.
Proof.
  induction s as [|c s IH]; intros pv p H; cbn [search_from replace_loop] in *.
  - destruct (match_at re pv [] p); [discriminate | reflexivity].
  - destruct (match_at re pv (c :: s) p); [discriminate|]. rewrite (IH _ _ H). reflexivity.
Qed.

Lemma replace_all_none re by_ s : test re s = false -> replace_all re by_ s = s.
Proof.
  unfold test, exec, replace_all. intros H. apply replace_loop_none.
  destruct (search_from re None s 0); [discriminate | reflexivity].
Qed.

(** X7: a text that none of the redaction patterns matches is returned
    unchanged, code unit for code unit. *)
Theorem removePersonalIdentifiers_unchanged (content : jsstring) :
  Forall (fun pattern => test pattern content = false) rule_patterns ->
  removePersonalIdentifiers content = content.
Proof.
  intros H. unfold rule_patterns, institutionPatterns in H. cbn [app] in H.
  repeat match goal with
         | H : Forall _ (_ :: _) |- _ =>
           let H1 := fresh "T" in let H2 := fresh "R" in
           inversion H as [|? ? H1 H2]; subst; clear H
         end.
  unfold removePersonalIdentifiers, institutionPatterns. cbn [fold_left].
  rewrite (replace_all_none namePattern) by assumption.
  rewrite (replace_all_none peselPattern) by assumption.
  rewrite (replace_all_none idPattern) by assumption.
  rewrite (replace_all_none addressPattern) by assumption.
  rewrite (replace_all_none phonePattern) by assumption.
  rewrite (replace_all_none emailPattern) by assumption.
  apply replace_all_none. assumption.
Qed.

Lemma removePersonalIdentifiers_unchanged_witness :
  removePersonalIdentifiers (js "Cholesterol: 185 mg/dL") = js "Cholesterol: 185 mg/dL".
Proof.
  apply removePersonalIdentifiers_unchanged.
  repeat (constructor; [vm_compute; reflexivity|]). constructor.
Defined.

End Unredacted.

(** ** What every normalized record satisfies *)

Section NormalizedRecords.

Lemma isNaN_zero : isNaN 0 = false.
Proof. reflexivity. Qed.

Lemma or_zero_number x : isNaN (or_zero x) = false.
Proof.
  unfold or_zero. destruct (isNaN x) eqn:E; cbn [orb]; [reflexivity|].
  destruct (PrimFloat.eqb x 0); [reflexivity | exact E].
Qed.

Lemma number_not_nan x : isNaN x = false -> Prim2SF x <> S754_nan.
Proof.
  unfold isNaN. rewrite eqb_spec. intros H E. rewrite E in H. discriminate H.
Qed.

(** A number that is not above the cap is at most the cap. *)
Lemma not_above_cap x : isNaN x = false -> gt x 999999 = false -> le x 999999 = true.
Proof.
  intros Hn. apply number_not_nan in Hn. unfold gt, le.
  rewrite ltb_spec, leb_spec.
  let v := eval vm_compute in (Prim2SF 999999) in change (Prim2SF 999999) with v.
  destruct (Prim2SF x) as [sz|si| |sx mx ex]; [| |congruence|];
    unfold SFltb, SFleb, SFcompare.
  - reflexivity.
  - destruct si; [reflexivity | discriminate].
  - destruct sx; [reflexivity|].
    match goal with |- context [Z.compare ?e ex] => rewrite (Z.compare_antisym ex e) end.
    destruct (Z.compare ex _); cbn [CompOpp]; try reflexivity; try discriminate.
    match goal with |- context [Pos.compare_cont Eq ?m mx] =>
      rewrite <- (Pos.compare_cont_antisym mx m Eq
                  : CompOpp (Pos.compare_cont Eq mx m) = Pos.compare_cont Eq m mx) end.
    cbn [CompOpp]. destruct (Pos.compare_cont Eq mx _); cbn [CompOpp];
      try reflexivity; discriminate.
Qed.

Lemma cap_bounded x :
  isNaN x = false ->
  isNaN (if gt x 999999 then 999999%float else x) = false
  /\ le (if gt x 999999 then 999999%float else x) 999999 = true.
Proof.
  intros Hn. destruct (gt x 999999) eqn:E.
  - split; reflexivity.
  - split; [exact Hn | apply not_above_cap; assumption].
Qed.

Lemma normalize_fields (x : jsval) (b : Biomarker) :
  normalize x = Returned (Some b) ->
  isNaN (value b) = false
  /\ isNaN (min (optimalRange b)) = false
  /\ isNaN (max (optimalRange b)) = false
  /\ le (max (optimalRange b)) 999999 = true.
Proof.
  unfold normalize, bind.
  destruct (get x "value") as [v|]; [|discriminate].
  destruct (isNaN (parsePolishNumber v)) eqn:Ev; [discriminate|].
  destruct (get x "optimalRange") as [r|]; [|discriminate].
  destruct (truthy r).
  - destruct (get r "min") as [rmin|]; [|discriminate].
    destruct (get r "max") as [rmax|]; [|discriminate].
    destruct (get x "name") as [n|]; [|discriminate].
    destruct (toString (or_else n (VStr []))); [|discriminate].
    destruct (get x "unit") as [u|]; [|discriminate].
    destruct (toString (or_else u (VStr []))); [|discriminate].
    destruct (get x "description"); [|discriminate].
    intros H; injection H as <-. cbn [value optimalRange min max].
    destruct (cap_bounded _ (or_zero_number (parsePolishNumber rmax))) as [C1 C2].
    split; [exact Ev|]. split; [apply or_zero_number|]. split; [exact C1 | exact C2].
  - destruct (get x "name") as [n|]; [|discriminate].
    destruct (toString (or_else n (VStr []))); [|discriminate].
    destruct (get x "unit") as [u|]; [|discriminate].
    destruct (toString (or_else u (VStr []))); [|discriminate].
    destruct (get x "description"); [|discriminate].
    intros H; injection H as <-. cbn [value optimalRange min max].
    split; [exact Ev|]. repeat split; reflexivity.
Qed.

Lemma mapM_length {A B : Type} (f : A -> outcome B) (l : list A) (bs : list B) :
  mapM f l = Returned bs -> List.length bs = List.length l.
Proof.
  revert bs; induction l as [|a l IH]; intros bs; cbn [mapM bind].
  - intros H; injection H as <-. reflexivity.
  - destruct (f a) as [b0|]; [|discriminate].
    destruct (mapM f l) as [bs0|]; [|discriminate].
    intros H; injection H as <-. cbn [List.length]. rewrite (IH bs0 eq_refl). reflexivity.
Qed.

Lemma somes_length {A : Type} (l : list (option A)) :
  (List.length (somes l) <= List.length l)%nat.
Proof. induction l as [|[a|] l IH]; cbn [somes List.length]; lia. Qed.

(** X8: every record that [validateAndNormalizeBiomarkers] returns has a
    name and a unit that are not empty, a value that is a number, and
    a range whose bounds are numbers with the upper bound at most
    999999; there are no more records than elements given, and none
    when what is given is not an array. *)
Theorem normalized_records_valid (biomarkers : jsval) (bs : list Biomarker) :
  validateAndNormalizeBiomarkers biomarkers = Returned bs ->
  Forall normalized_record bs
  /\ (List.length bs <= array_length biomarkers)%nat.
Proof.
  unfold validateAndNormalizeBiomarkers.
  destruct biomarkers as [| | | | |l|]; cbn [bind array_length];
    try (intros H; injection H as <-; split; [constructor | cbn; lia]).
  destruct (mapM normalize l) as [mapped|] eqn:E; [|discriminate].
  cbn [bind]. intros H; injection H as <-. split.
  - apply Forall_forall. intros b Hin.
    apply in_somes in Hin. apply filter_In in Hin as [Hin Hk].
    destruct (mapM_in _ _ _ _ E Hin) as (x & _ & Hx).
    destruct (normalize_fields x b Hx) as (F1 & F2 & F3 & F4).
    cbn [keep] in Hk. apply andb_true_iff in Hk as [Hk Hu].
    apply andb_true_iff in Hk as [Hn _].
    split; [intros E0; rewrite E0 in Hn; discriminate Hn|].
    split; [intros E0; rewrite E0 in Hu; discriminate Hu|].
    split; [exact F1|]. split; [exact F2|]. split; [exact F3 | exact F4].
  - rewrite <- (mapM_length _ _ _ E).
    etransitivity; [apply somes_length|]. apply filter_length_le.
Qed.

Lemma normalized_records_valid_witness :
  Forall normalized_record
    [mkBiomarker (js "Cholesterol") 184 (js "mg/dL") (mkRange 0 190) optimal (VStr [])].
Proof.
  refine (proj1 (normalized_records_valid (VArr [VObj cholesterol_record]) _ _)).
  vm_compute. reflexivity.
Defined.

End NormalizedRecords.

(** ** Validation of summaries and recommendations *)

Section Validation.

Lemma firstn_in {A : Type} (n : nat) (l : list A) (a : A) : In a (firstn n l) -> In a l.
Proof.
  intros H. rewrite <- (firstn_skipn n l). apply in_or_app. left. exact H.
Qed.

Lemma firstn_three {A : Type} (l : list A) : (List.length (firstn 3 l) <= 3)%nat.
Proof. rewrite length_firstn. lia. Qed.

Lemma kept_entries (items : list jsval) :
  Forall text_entry (firstn 3 (List.filter Validators.nonblank_string items))
  /\ (forall p, In p (firstn 3 (List.filter Validators.nonblank_string items)) ->
        In p items).
Proof.
  split.
  - apply Forall_forall. intros p Hp. apply firstn_in, filter_In in Hp as [_ Hp].
    destruct p as [| | | |s| |]; try discriminate Hp. exists s. split; [reflexivity|].
    intros E. cbn [Validators.nonblank_string] in Hp. rewrite E in Hp. discriminate Hp.
  - intros p Hp. apply firstn_in, filter_In in Hp as [Hp _]. exact Hp.
Qed.

(** X9: [validateHealthSummary] throws only for a summary that is null or
    undefined; otherwise it returns at most three positives and three
    priorities, each a string that is not blank and an element of the
    array given under that key (nothing is filled in): anything else
    under the key counts as the empty array. *)
Theorem validateHealthSummary_bounded (summary : jsval) :
  (forall e, Validators.validateHealthSummary summary = Thrown e ->
     e = TypeError /\ (summary = VUndefined \/ summary = VNull))
  /\ (forall h, Validators.validateHealthSummary summary = Returned h ->
        exists ps qs,
          get summary "positives" = Returned ps
          /\ get summary "priorities" = Returned qs
          /\ (List.length (Validators.positives h) <= 3)%nat
          /\ (List.length (Validators.priorities h) <= 3)%nat
          /\ Forall text_entry (Validators.positives h)
          /\ Forall text_entry (Validators.priorities h)
          /\ (forall p, In p (Validators.positives h) ->
                In p (Validators.array_or_empty ps))
          /\ (forall p, In p (Validators.priorities h) ->
                In p (Validators.array_or_empty qs))).
Proof.
  unfold Validators.validateHealthSummary. split.
  - intros e H. destruct summary; cbn [get bind] in H; try discriminate H;
      injection H as <-; auto.
  - intros h H.
    destruct (get summary "positives") as [ps|]; cbn [bind] in H; [|discriminate].
    destruct (get summary "priorities") as [qs|]; cbn [bind] in H; [|discriminate].
    injection H as <-. exists ps, qs. cbn [Validators.positives Validators.priorities].
    destruct (kept_entries (Validators.array_or_empty ps)) as [P1 P2].
    destruct (kept_entries (Validators.array_or_empty qs)) as [Q1 Q2].
    repeat (split; [first [reflexivity | apply firstn_three | assumption]|]).
    assumption.
Qed.

Lemma validateHealthSummary_bounded_witness :
  Validators.validateHealthSummary sample_summary
  = Returned (Validators.mkHealthSummary
                [VStr (js "Good HDL"); VStr (js "Normal TSH"); VStr (js "Low CRP")] [])
  /\ Forall text_entry [VStr (js "Good HDL"); VStr (js "Normal TSH"); VStr (js "Low CRP")].
Proof.
  assert (E : Validators.validateHealthSummary sample_summary
              = Returned (Validators.mkHealthSummary
                  [VStr (js "Good HDL"); VStr (js "Normal TSH"); VStr (js "Low CRP")] []))
    by (vm_compute; reflexivity).
  split; [exact E|].
  destruct (proj2 (validateHealthSummary_bounded sample_summary) _ E)
    as (ps & qs & _ & _ & _ & _ & H & _).
  exact H.
Defined.

Lemma filterM_in {A : Type} (f : A -> outcome bool) (l kept : list A) (a : A) :
  Validators.filterM f l = Returned kept -> In a kept -> In a l /\ f a = Returned true.
Proof.
  revert kept; induction l as [|x l IH]; intros kept; cbn [Validators.filterM bind].
  - intros H; injection H as <-. intros [].
  - destruct (f x) as [b|] eqn:Ex; [|discriminate].
    destruct (Validators.filterM f l) as [rest|]; [|discriminate].
    intros H; injection H as <-. destruct b.
    + intros [<-|Hin]; [split; [left; reflexivity | exact Ex]|].
      destruct (IH rest eq_refl Hin) as [H1 H2]. split; [right; exact H1 | exact H2].
    + intros Hin. destruct (IH rest eq_refl Hin) as [H1 H2].
      split; [right; exact H1 | exact H2].
Qed.

Lemma renumber_all (l : list jsval) : forall index rs,
  Validators.mapM_from Validators.renumber index l = Returned rs ->
  List.map Validators.priority rs
  = List.map (fun k => (Z.of_nat k + 1)%Z) (List.seq index (List.length rs))
  /\ List.length rs = List.length l
  /\ (forall r, In r rs -> exists a k, In a l /\ Validators.renumber k a = Returned r).
Proof.
  induction l as [|a l IH]; intros index rs; cbn [Validators.mapM_from bind].
  - intros H; injection H as <-. repeat split. intros r [].
  - destruct (Validators.renumber index a) as [b|] eqn:Ea; [|discriminate].
    destruct (Validators.mapM_from Validators.renumber (S index) l) as [bs|] eqn:El;
      [|discriminate].
    intros H; injection H as <-. destruct (IH _ _ El) as (P & L & F).
    cbn [List.map List.length List.seq]. split; [|split].
    + rewrite P. f_equal.
      unfold Validators.renumber, bind in Ea.
      destruct (get a "title"); [|discriminate]. destruct (toString _); [|discriminate].
      destruct (get a "description"); [|discriminate]. destruct (toString _); [|discriminate].
      destruct (get a "actionType"); [|discriminate].
      destruct (get a "impact"); [|discriminate].
      injection Ea as <-. reflexivity.
    + rewrite L. reflexivity.
    + intros r [<-|Hr].
      * exists a, index. split; [left; reflexivity | exact Ea].
      * destruct (F r Hr) as (a' & k & Ha & Hk). exists a', k.
        split; [right; exact Ha | exact Hk].
Qed.

Lemma acceptable_kinds (a : jsval) (k : nat) (r : Validators.Recommendation) :
  Validators.acceptable a = Returned true ->
  Validators.renumber k a = Returned r ->
  Validators.one_of Validators.actionTypes (Validators.actionType r) = true
  /\ Validators.one_of Validators.impacts (Validators.impact r) = true.
Proof.
  unfold Validators.acceptable, Validators.renumber.
  destruct a as [| | | | | |fields]; cbn [get bind truthy negb]; try discriminate.
  destruct (truthy (lookup fields (js "title"))); cbn [negb]; [|discriminate].
  destruct (truthy (lookup fields (js "description"))); cbn [negb]; [|discriminate].
  destruct (Validators.one_of Validators.actionTypes _) eqn:Ea; cbn [negb]; [|discriminate].
  destruct (Validators.one_of Validators.impacts _) eqn:Ei; cbn [negb]; [|discriminate].
  intros _.
  destruct (toString (lookup fields (js "title"))); cbn [bind]; [|discriminate].
  destruct (toString (lookup fields (js "description"))); cbn [bind]; [|discriminate].
  intros H; injection H as <-. cbn [Validators.actionType Validators.impact]. auto.
Qed.

(** X10: [validateRecommendations] returns at most three recommendations,
    numbered 1, 2, ... in the order kept whatever priorities were
    given, each with one of the three action types and one of the
    three impacts; what is not an array gives the empty list. *)
Theorem validateRecommendations_renumbered (recommendations : jsval) :
  (forall rs, Validators.validateRecommendations recommendations = Returned rs ->
     (List.length rs <= 3)%nat
     /\ List.map Validators.priority rs = List.map Z.of_nat (List.seq 1 (List.length rs))
     /\ Forall (fun r =>
          Validators.one_of Validators.actionTypes (Validators.actionType r) = true
          /\ Validators.one_of Validators.impacts (Validators.impact r) = true) rs)
  /\ ((forall items, recommendations <> VArr items) ->
      Validators.validateRecommendations recommendations = Returned []).
Proof.
  split.
  - intros rs. unfold Validators.validateRecommendations.
    destruct recommendations as [| | | | |items|];
      try (intros H; injection H as <-; repeat split; [cbn; lia | constructor]).
    destruct (Validators.filterM Validators.acceptable items) as [kept|] eqn:Ek;
      cbn [bind]; [|discriminate].
    intros H. destruct (renumber_all _ _ _ H) as (P & L & F). split; [|split].
    + rewrite L. apply firstn_three.
    + rewrite P, <- List.seq_shift, map_map. apply map_ext. intros k. lia.
    + apply Forall_forall. intros r Hr. destruct (F r Hr) as (a & k & Ha & Hk).
      apply firstn_in in Ha. destruct (filterM_in _ _ _ _ Ek Ha) as [_ Hacc].
      exact (acceptable_kinds a k r Hacc Hk).
  - intros H. destruct recommendations; try reflexivity. exfalso. exact (H items eq_refl).
Qed.

Lemma validateRecommendations_renumbered_witness :
  exists rs,
    Validators.validateRecommendations sample_recommendations = Returned rs
    /\ List.map Validators.title rs = [js "A"; js "C"; js "D"]
    /\ List.map Validators.priority rs = List.map Z.of_nat (List.seq 1 (List.length rs)).
Proof.
  assert (E : exists rs,
    Validators.validateRecommendations sample_recommendations = Returned rs
    /\ List.map Validators.title rs = [js "A"; js "C"; js "D"]).
  { eexists. split; vm_compute; reflexivity. }
  destruct E as (rs & E & T). exists rs. split; [exact E|]. split; [exact T|].
  exact (proj1 (proj2 (proj1 (validateRecommendations_renumbered sample_recommendations)
                         rs E))).
Defined.

End Validation.

(** ** Replies in a code fence *)

Section Fences.

Lemma m_one ci x c k s pv p cp res :
  in_class ci [One x] c = true ->
  k (mkState (Some c) s (S p) cp) = Some res ->
  m ci (Cls [One x]) k (mkState pv (c :: s) p cp) = Some res.
Proof. intros Hc H. cbn [m rest pos prev caps]. rewrite Hc. exact H. Qed.

Lemma canonicalize_space c : is_space c = true -> canonicalize c = c.
Proof.
  unfold is_space, between.
  rewrite !orb_true_iff, !andb_true_iff, !N.leb_le, !N.eqb_eq. intros H.
  assert (B : ((97 <=? c) && (c <=? 122))%N = false)
    by (apply andb_false_iff; rewrite !N.leb_gt; lia).
  unfold canonicalize, between. rewrite B. cbn [upper_in case_pairs].
  repeat match goal with
         | |- context [(c =? ?k)%N] => destruct (N.eqb_spec c k); [lia|]
         end.
  reflexivity.
Qed.

(** White space is white space with or without the [i] flag. *)
Lemma space_any_case c : is_space c = true -> in_class true [Space] c = true.
Proof.
  intros H. unfold in_class, class_has. cbn [existsb item_has].
  rewrite (canonicalize_space c H), H. reflexivity.
Qed.

Lemma m_bos ci k pv s cp : m ci Bos k (mkState pv s 0 cp) = k (mkState pv s 0 cp).
Proof. reflexivity. Qed.

Lemma search_from_first re st rest_ : forall pre pv p,
  (forall pre1 c pre2, pre = pre1 ++ c :: pre2 ->
     match_at re (prev_after pv pre1) (c :: pre2 ++ rest_) (p + List.length pre1)%nat = None) ->
  match_at re (prev_after pv pre) rest_ (p + List.length pre)%nat = Some st ->
  exists f, search_from re pv (pre ++ rest_) p = Some f
            /\ index f = (p + List.length pre)%nat /\ after f = rest st.
Proof.
  induction pre as [|c pre IH]; intros pv p Hleft Hm.
  - simpl in Hm. rewrite Nat.add_0_r in Hm. unfold prev_after in Hm. simpl in Hm.
    cbn [app]. rewrite (search_from_here _ _ _ _ _ Hm). eexists. split; [reflexivity|].
    cbn [index after List.length]. split; [lia | reflexivity].
  - cbn [app search_from].
    pose proof (Hleft [] c pre eq_refl) as H0. cbn [List.length] in H0.
    rewrite Nat.add_0_r in H0. unfold prev_after in H0. simpl in H0. rewrite H0.
    destruct (IH (Some c) (S p)) as (f & Hf & Hi & Ha).
    + intros pre1 c1 pre2 E. specialize (Hleft (c :: pre1) c1 pre2).
      rewrite prev_after_cons in Hleft. cbn [List.length] in Hleft.
      replace (S p + List.length pre1)%nat with (p + S (List.length pre1))%nat by lia.
      apply Hleft. rewrite E. reflexivity.
    + rewrite prev_after_cons in Hm. cbn [List.length] in Hm.
      replace (S p + List.length pre)%nat with (p + S (List.length pre))%nat by lia.
      exact Hm.
    + exists f. split; [exact Hf|]. split; [cbn [List.length]; lia | exact Ha].
Qed.

Lemma search_after_start re r' : source re = Seq Bos r' ->
  forall s pv p, (0 < p)%nat -> search_from re pv s p = None.
Proof.
  intros Hs. induction s as [|c s IH]; intros pv p Hp; cbn [search_from].
  - unfold match_at. rewrite Hs. cbn [m pos]. destruct p; [lia | reflexivity].
  - unfold match_at. rewrite Hs. cbn [m pos]. destruct p as [|p]; [lia|].
    cbn [Nat.eqb]. apply IH. lia.
Qed.

(** What the closing fence pattern matches: white space, the fence,
    the end. *)
Lemma fence_close_match pv s p st :
  match_at fence_close pv s p = Some st ->
  exists w, s = w ++ js "```" /\ Forall (fun c => is_space c = true) w /\ rest st = [].
Proof.
  unfold match_at. intros H. apply m_sound in H as (st' & D & E). injection E as <-.
  change (source fence_close)
    with (Seq (Rep [Space] 0%nat None)
            (Seq (Seq (Cls [One 96%N]) (Seq (Cls [One 96%N]) (Cls [One 96%N]))) Eos)) in D.
  cbn [den ignoreCase fence_close rest] in D.
  destruct D as (m1 & (w & Rw & Hall & _) & m2
                 & (m3 & (c1 & s1 & R1 & C1 & _ & T1 & _)
                       & m4 & (c2 & s2 & R2 & C2 & _ & T2 & _)
                       & (c3 & s3 & R3 & C3 & _ & T3 & _))
                 & (_ & Rst & _) & Re).
  rewrite in_class_one in C1, C2, C3. apply N.eqb_eq in C1, C2, C3. subst c1 c2 c3.
  exists w. split; [|split].
  - rewrite Rw, R1, <- T1, R2, <- T2, R3, <- T3, Re. reflexivity.
  - eapply Forall_impl; [|exact Hall]. intros c Hc. cbv beta in Hc.
    rewrite in_class_space in Hc. exact Hc.
  - rewrite Rst. exact Re.
Qed.

Lemma fence_close_here pv ws p :
  Forall (fun c => is_space c = true) ws ->
  exists st, match_at fence_close pv (ws ++ js "```") p = Some st /\ rest st = [].
Proof.
  intros H. eexists. split.
  - unfold match_at.
    change (source fence_close)
      with (Seq (Rep [Space] 0%nat None)
              (Seq (Seq (Cls [One 96%N]) (Seq (Cls [One 96%N]) (Cls [One 96%N]))) Eos)).
    change (js "```") with [96%N; 96%N; 96%N]. cbn [ignoreCase fence_close].
    rewrite m_seq, m_rep. apply rep_take;
      [eapply Forall_impl; [|exact H]; intros c Hc; rewrite in_class_space; exact Hc
      | lia | exact I
      | right; right; eexists; eexists; split; [reflexivity | reflexivity] |].
    rewrite m_seq. rewrite m_seq. apply m_chr. rewrite m_seq. apply m_chr. apply m_chr.
    cbn [m rest]. reflexivity.
  - reflexivity.
Qed.

Lemma last_of_app (a b : jsstring) (x y : N) : a ++ [x] = b ++ [y] -> x = y.
Proof. intros H. apply app_inj_tail in H as [_ H]. exact H. Qed.

Section Body.

Variables (r : jsstring) (x : N).
Hypothesis x_solid : is_space x = false.
Hypothesis x_plain : x <> 96%N.

Lemma body_trim : trim (object_text r x) = (object_text r x).
Proof.
  unfold object_text. change (123%N :: r ++ [x]) with ([] ++ (123%N :: r) ++ [x]).
  apply (trim_solid [] 123%N (123%N :: r) x); auto.
Qed.

Lemma no_fence_at_start re r' t :
  source re = Seq Bos r' ->
  match_at re None (123%N :: t) 0 = None ->
  replace_first re [] (123%N :: t) = 123%N :: t.
Proof.
  intros Hs E. unfold replace_first, exec. cbn [search_from].
  rewrite E, (search_after_start re _ Hs); [reflexivity | lia].
Qed.

Lemma no_fence_at_end : replace_first fence_close [] (object_text r x) = (object_text r x).
Proof.
  unfold replace_first, exec.
  destruct (search_from fence_close None (object_text r x) 0) as [f|] eqn:E; [|reflexivity].
  exfalso. apply search_from_sound in E as (pre & st & Et & _ & Em & _).
  apply fence_close_match in Em as (w & Ew & _ & _). rewrite Ew in Et.
  unfold object_text in Et. change (js "```") with ([96%N; 96%N] ++ [96%N]) in Et.
  change (123%N :: r ++ [x]) with ((123%N :: r) ++ [x]) in Et.
  rewrite !app_assoc in Et. apply last_of_app in Et. exact (x_plain Et).
Qed.

Lemma fence_at_end ws :
  Forall (fun c => is_space c = true) ws ->
  replace_first fence_close [] ((object_text r x) ++ ws ++ js "```") = (object_text r x).
Proof.
  intros Hws. unfold replace_first, exec.
  destruct (fence_close_here (prev_after None (object_text r x)) ws (0 + List.length (object_text r x)) Hws)
    as (st & Hst & Hrest).
  destruct (search_from_first fence_close st (ws ++ js "```") (object_text r x) None 0%nat) as (f & Hf & Hi & Ha).
  - intros pre1 c pre2 E.
    destruct (match_at fence_close (prev_after None pre1) (c :: pre2 ++ ws ++ js "```")
                (0 + List.length pre1)) as [st'|] eqn:Em; [|reflexivity].
    exfalso. apply fence_close_match in Em as (w & Ew & Hw & _).
    rewrite app_comm_cons, app_assoc in Ew. apply app_inv_tail in Ew.
    assert (Hx : In x (c :: pre2)).
    { destruct (exists_last (l := c :: pre2) ltac:(discriminate)) as (q & y & Eq).
      unfold object_text in E. change (123%N :: r ++ [x]) with ((123%N :: r) ++ [x]) in E.
      rewrite Eq, app_assoc in E. apply last_of_app in E. subst y.
      rewrite Eq. apply in_or_app. right. left. reflexivity. }
    assert (Hxw : In x w) by (rewrite <- Ew; apply in_or_app; left; exact Hx).
    rewrite Forall_forall in Hw. pose proof (Hw x Hxw) as Hs.
    rewrite x_solid in Hs. discriminate Hs.
  - exact Hst.
  - rewrite Hf. rewrite Hi, Ha, Hrest. cbn [Nat.add].
    rewrite firstn_app, firstn_all, Nat.sub_diag. cbn [firstn]. rewrite !app_nil_r.
    reflexivity.
Qed.

(** X11: a reply that is a JSON object text, whole or cut short, is left as
    it is; wrapped in a json code fence, with white space after the
    opening fence and before the closing one, it is unwrapped. *)
Theorem cleanJsonString_unwraps (ws1 ws2 : jsstring) :
  Forall (fun c => is_space c = true) ws1 ->
  Forall (fun c => is_space c = true) ws2 ->
  cleanJsonString (object_text r x) = (object_text r x)
  /\ cleanJsonString (js "```json" ++ ws1 ++ (object_text r x) ++ ws2 ++ js "```") = (object_text r x).
Proof.
  intros H1 H2. split.
  - unfold cleanJsonString. change (object_text r x) with (123%N :: r ++ [x]) at 1. cbv iota.
    rewrite body_trim. unfold object_text at 1.
    rewrite (no_fence_at_start fence_json _ _ eq_refl eq_refl).
    rewrite (no_fence_at_start fence_open _ _ eq_refl eq_refl).
    fold (object_text r x). rewrite no_fence_at_end. apply body_trim.
  - unfold cleanJsonString.
    change (js "```json" ++ ws1 ++ (object_text r x) ++ ws2 ++ js "```")
      with (96%N :: js "``json" ++ ws1 ++ (object_text r x) ++ ws2 ++ js "```") at 1. cbv iota.
    assert (T : trim (js "```json" ++ ws1 ++ (object_text r x) ++ ws2 ++ js "```")
                = js "```json" ++ ws1 ++ (object_text r x) ++ ws2 ++ js "```").
    { assert (Esh : js "```json" ++ ws1 ++ (object_text r x) ++ ws2 ++ js "```"
                    = [] ++ (js "```json" ++ ws1 ++ (object_text r x) ++ ws2 ++ [96%N; 96%N]) ++ [96%N]).
      { change (js "```") with ([96%N; 96%N] ++ [96%N]). cbn [app].
        rewrite <- !app_assoc. reflexivity. }
      rewrite Esh. apply (trim_solid [] 96%N _ 96%N); auto. }
    rewrite T.
    assert (F1 : replace_first fence_json [] (js "```json" ++ ws1 ++ (object_text r x) ++ ws2 ++ js "```")
                 = (object_text r x) ++ ws2 ++ js "```").
    { unfold replace_first, exec.
      erewrite search_from_here.
      2:{ unfold match_at.
          let rr := eval cbv in (source fence_json) in change (source fence_json) with rr.
          let t := eval cbv in (js "```json") in change (js "```json") with t.
          cbn [app ignoreCase fence_json].
          rewrite m_seq, m_bos.
          do 7 (rewrite ?m_seq; apply m_one; [reflexivity|]).
          rewrite m_rep. apply rep_take;
            [eapply Forall_impl; [|exact H1]; intros c Hc; apply space_any_case; exact Hc
            | lia | exact I
            | right; right; eexists; eexists; split; [reflexivity | reflexivity] |].
          reflexivity. }
      cbn [index after rest firstn app]. reflexivity. }
    rewrite F1. unfold object_text at 1. cbn [app].
    rewrite (no_fence_at_start fence_open _ _ eq_refl eq_refl).
    change (123%N :: (r ++ [x]) ++ ws2 ++ js "```") with ((object_text r x) ++ ws2 ++ js "```").
    rewrite (fence_at_end ws2 H2). apply body_trim.
Qed.

End Body.

Lemma cleanJsonString_unwraps_witness :
  cleanJsonString fenced_reply = object_text fenced_body 125.
Proof.
  assert (H : Forall (fun c => is_space c = true) [10%N])
    by (constructor; [reflexivity | constructor]).
  exact (proj2 (cleanJsonString_unwraps fenced_body 125%N eq_refl ltac:(discriminate)
                  [10%N] [10%N] H H)).
Defined.

End Fences.

(** ** Records given without a range *)

Section MissingRange.

Lemma status_of_empty_range v :
  determineStatus v (mkRange 0 0) = if ge v 0 && le v 0 then optimal else concerning.
Proof.
  unfold determineStatus. cbn [min max].
  change ((0 - 0) * 0.1)%float with 0%float.
  change (0 * 2)%float with 0%float.
  change (0 - 0)%float with 0%float. change (0 + 0)%float with 0%float.
  destruct (ge v 0 && le v 0); reflexivity.
Qed.

(** X12: a record whose [optimalRange] is missing (or falsy) is normalized
    with the range 0..0, and so its status is optimal when its value
    is zero and concerning otherwise, never suboptimal. *)
Theorem missing_range_status (b rv : jsval) (r : Biomarker) :
  get b "optimalRange" = Returned rv -> truthy rv = false ->
  normalize b = Returned (Some r) ->
  optimalRange r = mkRange 0 0
  /\ status r = (if ge (value r) 0 && le (value r) 0 then optimal else concerning).
Proof.
  intros Hr Ht. unfold normalize, bind. rewrite Hr, Ht.
  destruct (get b "value") as [v|]; [|discriminate].
  destruct (isNaN (parsePolishNumber v)); [discriminate|].
  destruct (get b "name") as [n|]; [|discriminate].
  destruct (toString (or_else n (VStr []))); [|discriminate].
  destruct (get b "unit") as [u|]; [|discriminate].
  destruct (toString (or_else u (VStr []))); [|discriminate].
  destruct (get b "description"); [|discriminate].
  intros H; injection H as <-. cbn [optimalRange status value].
  split; [reflexivity | apply status_of_empty_range].
Qed.

Lemma missing_range_status_witness :
  exists r, normalize rangeless_record = Returned (Some r)
            /\ optimalRange r = mkRange 0 0 /\ status r = concerning.
Proof.
  assert (E : exists r, normalize rangeless_record = Returned (Some r)
                        /\ value r = 3%float).
  { eexists. split; vm_compute; reflexivity. }
  destruct E as (r & E & V). exists r. split; [exact E|].
  destruct (missing_range_status rangeless_record VUndefined r eq_refl eq_refl E) as [H1 H2].
  split; [exact H1|]. rewrite H2, V. reflexivity.
Defined.

End MissingRange.
